(** * ai-code-review: diff-range parsing, review validation, deep links,
      the three-stage review pipeline and the snippet of a fix prompt.

    Shallow embedding of [utils/helpers.ts], [services/geminiService.ts],
    [getChangedFilesContent] of [services/githubService.ts], the handlers
    [handleReview] and [handleGenerateCopilotPrompt] of [App.tsx], and the
    grouping of [ReviewDisplay] and the split of [CopilotPromptModal] of
    [components/ui.tsx].

    Modelling conventions.
    - A JavaScript string is a [string]: the sequence of its code units,
      each below 256.
    - The code computes with doubles.  A number is an integer [Z], and the
      embedding follows the code where doubles are exact: [parseInt] and
      the sum of a hunk header give a number only when it is at most 2^53,
      and are [Inexact], outside the embedding, beyond.  The [line] of a
      finding is an integer.
    - A plain object used as a dictionary ([Record<string, ...>]) is the
      [gmap] of its own properties, read through [getProperty]: a key that
      the object does not own is looked up among the names that every
      object inherits ([constructor], [toString] and the like).
    - A thrown exception or a rejected promise is an explicit error result.
    - [crypto.subtle.digest] and [JSON.parse] are primitives of the
      platform; they are modelled by the algorithms of their standards. *)

From Stdlib Require Import ZArith NArith Ascii String List Bool Lia.
From Stdlib Require Import DecimalString DecimalPos DecimalZ.
From stdpp Require Import gmap strings list.

Local Open Scope string_scope.
Local Open Scope Z_scope.
Local Open Scope list_scope.

#[local] Set Warnings "-register-all".
#[local] Arguments String.append : simpl nomatch.
#[local] Arguments Ascii.eqb : simpl never.

(** ** Completions

    What a piece of code does, as far as the embedding follows it: it goes
    on with a value, it throws a [TypeError], or a number has left the
    integers that doubles hold exactly and the embedding stops. *)
Inductive Completion (A : Type) : Type :=
| Normal (value : A)
| TypeError
| Inexact.

Arguments Normal {A} value.
Arguments TypeError {A}.
Arguments Inexact {A}.

#[global] Instance Completion_ret : MRet Completion := fun A (a : A) => Normal a.

#[global] Instance Completion_bind : MBind Completion :=
  fun A B (k : A -> Completion B) (m : Completion A) =>
    match m with
    | Normal a => k a
    | TypeError => TypeError
    | Inexact => Inexact
    end.

(** The integers that a double holds exactly, whatever their neighbours:
    those of absolute value at most 2^53. *)
Definition exactly (z : Z) : Completion Z :=
  if (- 2 ^ 53 <=? z) && (z <=? 2 ^ 53) then Normal z else Inexact.

(** ** JavaScript string primitives used by the code *)

Module JsString.

(** [s.startsWith(p)] *)
Fixpoint startsWith (s p : string) {struct p} : bool :=
  match p with
  | EmptyString => true
  | String c p' =>
      match s with
      | EmptyString => false
      | String d s' => if Ascii.eqb c d then startsWith s' p' else false
      end
  end.

(** [s.substring(n)]: the text from index [n] to the end. *)
Fixpoint substring_from (n : nat) (s : string) : string :=
  match n with
  | O => s
  | S n' => match s with
            | EmptyString => EmptyString
            | String _ s' => substring_from n' s'
            end
  end.

Definition newline : ascii := "010"%char.

(** [s.split('\n')]: always at least one piece. *)
Fixpoint split_lines (s : string) : list string :=
  match s with
  | EmptyString => [EmptyString]
  | String c s' =>
      if Ascii.eqb c newline then EmptyString :: split_lines s'
      else match split_lines s' with
           | [] => [String c EmptyString]
           | l :: ls => String c l :: ls
           end
  end.

(** [pieces.join('\n')] *)
Fixpoint join_lines (ls : list string) : string :=
  match ls with
  | [] => EmptyString
  | [l] => l
  | l :: ls' => l +:+ String newline (join_lines ls')
  end.

(** The class [\d]. *)
Definition isDigit (c : ascii) : bool :=
  let n := nat_of_ascii c in (48 <=? n)%nat && (n <=? 57)%nat.

Definition digitValue (c : ascii) : Z := Z.of_nat (nat_of_ascii c) - 48.

(** A greedy [\d*]: the longest run of digits at the head, and the rest. *)
Fixpoint span_digits (s : string) : string * string :=
  match s with
  | EmptyString => (EmptyString, EmptyString)
  | String c s' =>
      if isDigit c then let (ds, r) := span_digits s' in (String c ds, r)
      else (EmptyString, s)
  end.

(** The integer that a run of decimal digits writes. *)
Definition decimalValue (ds : string) : Z :=
  fold_left (fun acc c => 10 * acc + digitValue c) (list_ascii_of_string ds) 0.

(** [parseInt(ds, 10)] on a string of decimal digits: the double nearest to
    the integer that the digits write, which is that integer when it is at
    most 2^53. *)
Definition parseInt (ds : string) : Completion Z := exactly (decimalValue ds).

(** Template-literal interpolation of an integer number: its decimal
    digits, as the code prints every integer that a double holds exactly
    (the code prints a number from 10^21 on in exponent form). *)
Definition Number_toString (z : Z) : string :=
  NilZero.string_of_int (Z.to_int z).

(** A JavaScript string is truthy when it is not empty. *)
Definition truthy (s : string) : bool :=
  match s with EmptyString => false | _ => true end.

(** Consumes the literal [p] at the head of [s]. *)
Fixpoint strip_prefix (p s : string) {struct p} : option string :=
  match p with
  | EmptyString => Some s
  | String c p' =>
      match s with
      | EmptyString => None
      | String d s' => if Ascii.eqb c d then strip_prefix p' s' else None
      end
  end.

Fixpoint all_chars (P : ascii -> bool) (s : string) : bool :=
  match s with
  | EmptyString => true
  | String c s' => P c && all_chars P s'
  end.

End JsString.

Import JsString.

(** ** Plain objects used as dictionaries

    [object[key]] on an object created by [{}]: the own property when there
    is one, else the property of that name that [Object.prototype] hands
    down, a function or, for [__proto__], the prototype itself; all of them
    are truthy and none has a method [push] or [some]. *)
Definition inheritedNames : list string :=
  ["constructor"; "hasOwnProperty"; "isPrototypeOf"; "propertyIsEnumerable";
   "toLocaleString"; "toString"; "valueOf"; "__proto__";
   "__defineGetter__"; "__defineSetter__"; "__lookupGetter__"; "__lookupSetter__"].

Definition inheritedName (key : string) : bool :=
  existsb (String.eqb key) inheritedNames.

Inductive Property (A : Type) : Type :=
| Own (value : A)
| Inherited
| Undefined.

Arguments Own {A} value.
Arguments Inherited {A}.
Arguments Undefined {A}.

Definition getProperty {A} (object : gmap string A) (key : string) : Property A :=
  match object !! key with
  | Some value => Own value
  | None => if inheritedName key then Inherited else Undefined
  end.

(** ** utils/helpers.ts: [parseDiffToValidLineRanges] *)

Record LineRange := mkRange { start : Z; end_ : Z }.

Record ParserState := mkState {
  ranges : gmap string (list LineRange);
  currentFile : option string
}.

(** The regular expression [/@@ -\d+(?:,\d+)? \+(\d+)(?:,(\d+))? @@/] tried
    at the head of [s].  Every quantified class is followed by a character
    outside the class, so the greedy choice is the only one that can
    succeed.  The result is the pair of capture groups 1 and 2. *)
Definition optional_length (s : string) : option string * string :=
  match s with
  | String c s' =>
      if Ascii.eqb c ","%char then
        let (ds, r) := span_digits s' in
        if truthy ds then (Some ds, r) else (None, s)
      else (None, s)
  | EmptyString => (None, s)
  end.

Definition hunk_regex_at (s : string) : option (string * option string) :=
  match strip_prefix "@@ -" s with
  | None => None
  | Some s1 =>
      let (oldStart, s2) := span_digits s1 in
      if negb (truthy oldStart) then None else
      let (_, s3) := optional_length s2 in
      match strip_prefix " +" s3 with
      | None => None
      | Some s4 =>
          let (newStart, s5) := span_digits s4 in
          if negb (truthy newStart) then None else
          let (newLen, s6) := optional_length s5 in
          match strip_prefix " @@" s6 with
          | None => None
          | Some _ => Some (newStart, newLen)
          end
      end
  end.

(** [line.match(regex)]: the regex is not anchored, the leftmost position
    where it matches wins. *)
Fixpoint hunk_regex (s : string) : option (string * option string) :=
  match hunk_regex_at s with
  | Some m => Some m
  | None => match s with
            | EmptyString => None
            | String _ s' => hunk_regex s'
            end
  end.

(** The body of [if (match) { ... }]: the range a hunk header contributes,
    if any.  [match[2]] is a non-empty run of digits when the group took
    part in the match, hence truthy.  The sum [newStart + newLength] is
    rounded before 1 is taken from it. *)
Definition hunk_range (line : string) : Completion (option LineRange) :=
  match hunk_regex line with
  | Some (m1, m2) =>
      newStart ← parseInt m1;
      newLength ← match m2 with
                  | Some ds => parseInt ds
                  | None => Normal 1
                  end;
      if 0 <? newLength then
        sum ← exactly (newStart + newLength);
        Normal (Some (mkRange newStart (sum - 1)))
      else Normal None
  | None => Normal None
  end.

(** One iteration of the [for (const line of lines)] loop.  The header
    branch creates the entry when [ranges[currentFile]] is falsy, which an
    inherited property is not.  The hunk branch calls
    [ranges[currentFile].push]: a [TypeError] unless the entry is an own
    one.  [currentFile] guards the hunk branch by its truthiness: [null]
    and the empty path both skip it. *)
Definition parse_line (st : ParserState) (line : string) : Completion ParserState :=
  if startsWith line "+++ b/" then
    let filePath := substring_from 6 line in
    if String.eqb filePath "/dev/null" then
      Normal (mkState (ranges st) None)
    else
      Normal (mkState
                (match getProperty (ranges st) filePath with
                 | Undefined => <[filePath := []]> (ranges st)
                 | _ => ranges st
                 end)
                (Some filePath))
  else
    match currentFile st with
    | Some file =>
        if startsWith line "@@" && truthy file then
          range ← hunk_range line;
          match range with
          | Some range =>
              match getProperty (ranges st) file with
              | Own rs =>
                  Normal (mkState (<[file := rs ++ [range]]> (ranges st))
                                  (currentFile st))
              | _ => TypeError
              end
          | None => Normal st
          end
        else Normal st
    | None => Normal st
    end.

Fixpoint parse_lines (st : ParserState) (lines : list string)
  : Completion ParserState :=
  match lines with
  | [] => Normal st
  | line :: rest => st' ← parse_line st line; parse_lines st' rest
  end.

Definition initial_state : ParserState := mkState ∅ None.

Definition parseDiffToValidLineRanges (diff : string)
  : Completion (gmap string (list LineRange)) :=
  st ← parse_lines initial_state (split_lines diff); Normal (ranges st).

(** ** utils/helpers.ts: [parseGitHubUrl] *)

Record PrData := mkPrData { owner : string; repo : string; pull_number : Z }.

(** A greedy [[^/]*]. *)
Fixpoint span_nonslash (s : string) : string * string :=
  match s with
  | EmptyString => (EmptyString, EmptyString)
  | String c s' =>
      if Ascii.eqb c "/"%char then (EmptyString, s)
      else let (seg, r) := span_nonslash s' in (String c seg, r)
  end.

(** [/github\.com\/([^/]+)\/([^/]+)\/pull\/(\d+)/] tried at the head of
    [s]; the three capture groups. *)
Definition url_regex_at (s : string) : option (string * string * string) :=
  match strip_prefix "github.com/" s with
  | None => None
  | Some s1 =>
      let (g1, s2) := span_nonslash s1 in
      if negb (truthy g1) then None else
      match strip_prefix "/" s2 with
      | None => None
      | Some s3 =>
          let (g2, s4) := span_nonslash s3 in
          if negb (truthy g2) then None else
          match strip_prefix "/pull/" s4 with
          | None => None
          | Some s5 =>
              let (g3, _) := span_digits s5 in
              if negb (truthy g3) then None else Some (g1, g2, g3)
          end
      end
  end.

Fixpoint url_regex (s : string) : option (string * string * string) :=
  match url_regex_at s with
  | Some m => Some m
  | None => match s with
            | EmptyString => None
            | String _ s' => url_regex s'
            end
  end.

(** [None] is the [null] result. *)
Definition parseGitHubUrl (url : string) : Completion (option PrData) :=
  match url_regex url with
  | None => Normal None
  | Some (m1, m2, m3) =>
      pull_number ← parseInt m3; Normal (Some (mkPrData m1 m2 pull_number))
  end.

(** ** utils/helpers.ts: [sha1]

    [crypto.subtle.digest('SHA-1', bytes)] is a primitive of the platform;
    it is modelled by the algorithm of FIPS 180-4 on 32-bit words, which are
    numbers [N] reduced modulo 2^32 after every addition and rotation. *)

Module WebCrypto.

Local Open Scope N_scope.

Definition w32 (x : N) : N := N.land x 0xFFFFFFFF.
Definition add32 (x y : N) : N := w32 (x + y).
Definition rotl (n x : N) : N := w32 (N.lor (N.shiftl x n) (N.shiftr x (32 - n))).
Definition not32 (x : N) : N := N.lxor x 0xFFFFFFFF.

Definition Ch (x y z : N) : N := N.lxor (N.land x y) (N.land (not32 x) z).
Definition Parity (x y z : N) : N := N.lxor (N.lxor x y) z.
Definition Maj (x y z : N) : N :=
  N.lxor (N.lxor (N.land x y) (N.land x z)) (N.land y z).

Definition f_t (t : nat) (b c d : N) : N :=
  if (t <? 20)%nat then Ch b c d
  else if (t <? 40)%nat then Parity b c d
  else if (t <? 60)%nat then Maj b c d
  else Parity b c d.

Definition K_t (t : nat) : N :=
  if (t <? 20)%nat then 0x5a827999
  else if (t <? 40)%nat then 0x6ed9eba1
  else if (t <? 60)%nat then 0x8f1bbcdc
  else 0xca62c1d6.

(** Big-endian bytes of a 64-bit length and of a 32-bit word. *)
Definition be_bytes (count : nat) (x : N) : list N :=
  map (fun i => N.land (N.shiftr x (8 * N.of_nat i)) 0xFF) (rev (seq 0 count)).

(** Padding: the bit 1, zeros up to 56 modulo 64, the bit length on 8 bytes. *)
Definition pad (msg : list N) : list N :=
  let len := length msg in
  let zeros := ((119 - len mod 64) mod 64)%nat in
  msg ++ [0x80] ++ repeat 0 zeros ++ be_bytes 8 (8 * N.of_nat len).

Fixpoint words_of_bytes (bs : list N) : list N :=
  match bs with
  | b0 :: b1 :: b2 :: b3 :: rest =>
      (N.lor (N.shiftl b0 24) (N.lor (N.shiftl b1 16) (N.lor (N.shiftl b2 8) b3)))
        :: words_of_bytes rest
  | _ => []
  end.

(** The message schedule, newest word first: [W_t] for [t] from 16 is
    [rotl 1 (W_(t-3) xor W_(t-8) xor W_(t-14) xor W_(t-16))]. *)
Fixpoint extend_schedule (n : nat) (rev_w : list N) : list N :=
  match n with
  | O => rev_w
  | S n' =>
      let w := rotl 1 (N.lxor (N.lxor (nth 2 rev_w 0) (nth 7 rev_w 0))
                              (N.lxor (nth 13 rev_w 0) (nth 15 rev_w 0))) in
      extend_schedule n' (w :: rev_w)
  end.

Definition schedule (block : list N) : list N :=
  rev (extend_schedule 64 (rev block)).

Record HashState := mkHash { h0 : N; h1 : N; h2 : N; h3 : N; h4 : N }.

Definition round (st : HashState) (tw : nat * N) : HashState :=
  let (t, w) := tw in
  let temp := add32 (add32 (add32 (add32 (rotl 5 (h0 st)) (f_t t (h1 st) (h2 st) (h3 st)))
                                   (h4 st)) (K_t t)) w in
  mkHash temp (h0 st) (rotl 30 (h1 st)) (h2 st) (h3 st).

Definition compress (st : HashState) (block : list N) : HashState :=
  let r := fold_left round (combine (seq 0 80) (schedule block)) st in
  mkHash (add32 (h0 st) (h0 r)) (add32 (h1 st) (h1 r)) (add32 (h2 st) (h2 r))
         (add32 (h3 st) (h3 r)) (add32 (h4 st) (h4 r)).

Fixpoint process (fuel : nat) (ws : list N) (st : HashState) : HashState :=
  match fuel with
  | O => st
  | S fuel' =>
      match ws with
      | [] => st
      | _ => process fuel' (skipn 16 ws) (compress st (firstn 16 ws))
      end
  end.

Definition initial_hash : HashState :=
  mkHash 0x67452301 0xefcdab89 0x98badcfe 0x10325476 0xc3d2e1f0.

(** The 20 bytes of the digest. *)
Definition digest_SHA1 (msg : list N) : list N :=
  let ws := words_of_bytes (pad msg) in
  let st := process (length ws) ws initial_hash in
  be_bytes 4 (h0 st) ++ be_bytes 4 (h1 st) ++ be_bytes 4 (h2 st)
    ++ be_bytes 4 (h3 st) ++ be_bytes 4 (h4 st).

End WebCrypto.

(** The code units of a string. *)
Definition codeUnits (str : string) : list N :=
  map N_of_ascii (list_ascii_of_string str).

(** [new TextEncoder().encode(str)]: UTF-8, one byte for a code unit below
    128 and two bytes for the others of the modelled range. *)
Definition TextEncoder_encode (str : string) : list N :=
  flat_map (fun u => if (u <? 128)%N then [u]
                     else [(192 + u / 64)%N; (128 + u mod 64)%N])
           (codeUnits str).

Definition hexDigit (d : N) : ascii :=
  match d with
  | 0%N => "0" | 1%N => "1" | 2%N => "2" | 3%N => "3" | 4%N => "4"
  | 5%N => "5" | 6%N => "6" | 7%N => "7" | 8%N => "8" | 9%N => "9"
  | 10%N => "a" | 11%N => "b" | 12%N => "c" | 13%N => "d" | 14%N => "e"
  | _ => "f"
  end%char.

(** [b.toString(16)] for a non-negative integer. *)
Fixpoint toString16_digits (fuel : nat) (n : N) (acc : string) : string :=
  match fuel with
  | O => acc
  | S fuel' =>
      let acc' := String (hexDigit (n mod 16)%N) acc in
      if (n / 16 =? 0)%N then acc' else toString16_digits fuel' (n / 16)%N acc'
  end.

Definition Number_toString16 (n : N) : string :=
  toString16_digits (S (N.to_nat (N.log2 n))) n EmptyString.

Fixpoint repeat_char (c : ascii) (n : nat) : string :=
  match n with
  | O => EmptyString
  | S n' => String c (repeat_char c n')
  end.

(** [s.padStart(target, c)] with a one-character filler. *)
Definition padStart (target : nat) (c : ascii) (s : string) : string :=
  repeat_char c (target - String.length s) +:+ s.

(** [hashArray.map(b => b.toString(16).padStart(2, '0')).join('')] *)
Definition hex_of_bytes (bs : list N) : string :=
  fold_right (fun b acc => padStart 2 "0" (Number_toString16 b) +:+ acc)
             EmptyString bs.

Definition sha1 (str : string) : string :=
  hex_of_bytes (WebCrypto.digest_SHA1 (TextEncoder_encode str)).

Definition lf : string := String newline EmptyString.

(** ** types.ts *)

Record ReviewImprovement := mkImprovement {
  line : Z;
  file : string;
  category : string;
  comment : string;
  link : option string
}.

Record Review := mkReview {
  strengths : list string;
  improvements : list ReviewImprovement
}.

(** ** App.tsx, [handleReview]: validating the review against the diff *)

(** [fileRanges.some(range => item.line >= range.start && item.line <= range.end)] *)
Definition isInRange (item : ReviewImprovement) (fileRanges : list LineRange) : bool :=
  existsb (fun range => (line item >=? start range) && (line item <=? end_ range))
          fileRanges.

(** The callback of [aiReview.improvements.filter]; an array, even an empty
    one, is truthy, so only a missing property takes the first
    [return false]; an inherited property is truthy and has no method
    [some]. *)
Definition keepImprovement (changedLineRanges : gmap string (list LineRange))
    (item : ReviewImprovement) : Completion bool :=
  match getProperty changedLineRanges (file item) with
  | Undefined => Normal false
  | Own fileRanges => Normal (isInRange item fileRanges)
  | Inherited => TypeError
  end.

(** [array.filter(callback)]: the callback is called on the elements in
    their order, and what it throws ends the call. *)
Fixpoint Array_filter {A} (callback : A -> Completion bool) (array : list A)
  : Completion (list A) :=
  match array with
  | [] => Normal []
  | item :: rest =>
      keep ← callback item;
      kept ← Array_filter callback rest;
      Normal (if keep : bool then item :: kept else kept)
  end.

Definition validImprovements (changedLineRanges : gmap string (list LineRange))
    (aiReview : Review) : Completion (list ReviewImprovement) :=
  Array_filter (keepImprovement changedLineRanges) (improvements aiReview).

(** [{ ...aiReview, improvements: validImprovements }] *)
Definition validReview (changedLineRanges : gmap string (list LineRange))
    (aiReview : Review) : Completion Review :=
  valid ← validImprovements changedLineRanges aiReview;
  Normal (mkReview (strengths aiReview) valid).

(** ** App.tsx, [handleReview]: attaching the deep links *)

Definition deepLink (prData : PrData) (item : ReviewImprovement) : string :=
  "https://github.com/" +:+ owner prData +:+ "/" +:+ repo prData +:+ "/pull/"
    +:+ Number_toString (pull_number prData) +:+ "/files#diff-"
    +:+ sha1 (file item) +:+ "R" +:+ Number_toString (line item).

(** [{ ...item, link: ... }] *)
Definition withLink (prData : PrData) (item : ReviewImprovement) : ReviewImprovement :=
  mkImprovement (line item) (file item) (category item) (comment item)
                (Some (deepLink prData item)).

(** [Promise.all(improvements.map(async item => ...))] resolves to the array
    of the results in the order of the promises, whatever the order in
    which they settle. *)
Definition linkedImprovements (prData : PrData) (items : list ReviewImprovement)
  : list ReviewImprovement :=
  map (withLink prData) items.

(** Lines 70-96 of [handleReview]: from the diff and the pipeline's review to
    the review that is displayed. *)
Definition finalReview (prData : PrData) (diff : string) (aiReview : Review)
  : Completion Review :=
  changedLineRanges ← parseDiffToValidLineRanges diff;
  valid ← validReview changedLineRanges aiReview;
  Normal (mkReview (strengths valid) (linkedImprovements prData (improvements valid))).

(** ** [JSON.parse]

    A primitive of the platform, modelled by a recursive-descent parser of
    the JSON grammar (ECMA-404).  A string value is the sequence of its
    code units, a number keeps its literal.  The fuel bounds the nesting
    depth and the number of elements by the length of the text: every
    recursive call is made after at least one character was consumed. *)

Module JSON.

Inductive value :=
| JNull
| JBool (b : bool)
| JNumber (literal : string)
| JString (units : list N)
| JArray (items : list value)
| JObject (members : list (list N * value)).

Definition dquote : ascii := "034"%char.
Definition backslash : ascii := "092"%char.

Definition isWhite (c : ascii) : bool :=
  let n := nat_of_ascii c in
  (n =? 32)%nat || (n =? 9)%nat || (n =? 10)%nat || (n =? 13)%nat.

Fixpoint skip_ws (s : string) : string :=
  match s with
  | String c s' => if isWhite c then skip_ws s' else s
  | EmptyString => s
  end.

Definition hexValue (c : ascii) : option N :=
  let n := N_of_ascii c in
  if (48 <=? n)%N && (n <=? 57)%N then Some (n - 48)%N
  else if (97 <=? n)%N && (n <=? 102)%N then Some (n - 87)%N
  else if (65 <=? n)%N && (n <=? 70)%N then Some (n - 55)%N
  else None.

Definition escapeUnit (c : ascii) : option N :=
  if Ascii.eqb c dquote then Some 34%N
  else if Ascii.eqb c backslash then Some 92%N
  else if Ascii.eqb c "/" then Some 47%N
  else if Ascii.eqb c "b" then Some 8%N
  else if Ascii.eqb c "f" then Some 12%N
  else if Ascii.eqb c "n" then Some 10%N
  else if Ascii.eqb c "r" then Some 13%N
  else if Ascii.eqb c "t" then Some 9%N
  else None.

(** The characters of a string after its opening quote, up to and
    including the closing one; [acc] holds the units read, newest first. *)
Fixpoint string_body (s : string) (acc : list N) : option (list N * string) :=
  match s with
  | EmptyString => None
  | String c s' =>
      if Ascii.eqb c dquote then Some (rev acc, s')
      else if Ascii.eqb c backslash then
        match s' with
        | String e s2 =>
            if Ascii.eqb e "u" then
              match s2 with
              | String a (String b (String c' (String d s5))) =>
                  match hexValue a, hexValue b, hexValue c', hexValue d with
                  | Some x3, Some x2, Some x1, Some x0 =>
                      string_body s5 ((4096 * x3 + 256 * x2 + 16 * x1 + x0)%N :: acc)
                  | _, _, _, _ => None
                  end
              | _ => None
              end
            else
              match escapeUnit e with
              | Some u => string_body s2 (u :: acc)
              | None => None
              end
        | EmptyString => None
        end
      else if (nat_of_ascii c <? 32)%nat then None
      else string_body s' (N_of_ascii c :: acc)
  end.

(** A number: an optional minus sign; [0], or a non-zero digit and more
    digits; an optional fraction [.] with digits; an optional exponent [e]
    or [E] with an optional sign and digits.  The literal and the rest of
    the text. *)
Definition number_literal (s : string) : option (string * string) :=
  let (sign, s1) := match s with
                    | String c r => if Ascii.eqb c "-" then ("-", r) else ("", s)
                    | EmptyString => ("", s)
                    end in
  let int_part := match s1 with
                  | String c r =>
                      if Ascii.eqb c "0" then Some ("0", r)
                      else if isDigit c then Some (span_digits s1)
                      else None
                  | EmptyString => None
                  end in
  match int_part with
  | None => None
  | Some (int, s2) =>
      let frac := match s2 with
                  | String c r =>
                      if Ascii.eqb c "." then
                        let (ds, r') := span_digits r in
                        if truthy ds then Some ("." +:+ ds, r') else None
                      else Some ("", s2)
                  | EmptyString => Some ("", s2)
                  end in
      match frac with
      | None => None
      | Some (fr, s3) =>
          let exponent :=
            match s3 with
            | String c r =>
                if Ascii.eqb c "e" || Ascii.eqb c "E" then
                  let (sg, r1) := match r with
                                  | String c2 r2 =>
                                      if Ascii.eqb c2 "+" || Ascii.eqb c2 "-"
                                      then (String c2 "", r2) else ("", r)
                                  | EmptyString => ("", r)
                                  end in
                  let (ds, r') := span_digits r1 in
                  if truthy ds then Some (String c sg +:+ ds, r') else None
                else Some ("", s3)
            | EmptyString => Some ("", s3)
            end in
          match exponent with
          | None => None
          | Some (ex, s4) => Some (sign +:+ int +:+ fr +:+ ex, s4)
          end
      end
  end.

Section Containers.

Variable parse_value : string -> option (value * string).

(** The elements of an array after [[], when the array is not empty. *)
Fixpoint elements (fuel : nat) (s : string) (acc : list value)
  : option (list value * string) :=
  match fuel with
  | O => None
  | S fuel' =>
      match parse_value s with
      | None => None
      | Some (v, r) =>
          match skip_ws r with
          | String c r' =>
              if Ascii.eqb c "," then elements fuel' r' (v :: acc)
              else if Ascii.eqb c "]" then Some (rev (v :: acc), r')
              else None
          | EmptyString => None
          end
      end
  end.

(** The members of an object after [{], when the object is not empty. *)
Fixpoint object_members (fuel : nat) (s : string) (acc : list (list N * value))
  : option (list (list N * value) * string) :=
  match fuel with
  | O => None
  | S fuel' =>
      match skip_ws s with
      | String q r0 =>
          if Ascii.eqb q dquote then
            match string_body r0 [] with
            | None => None
            | Some (key, r1) =>
                match skip_ws r1 with
                | String colon r2 =>
                    if Ascii.eqb colon ":" then
                      match parse_value r2 with
                      | None => None
                      | Some (v, r3) =>
                          match skip_ws r3 with
                          | String c r4 =>
                              if Ascii.eqb c "," then
                                object_members fuel' r4 ((key, v) :: acc)
                              else if Ascii.eqb c "}" then
                                Some (rev ((key, v) :: acc), r4)
                              else None
                          | EmptyString => None
                          end
                      end
                    else None
                | EmptyString => None
                end
            end
          else None
      | EmptyString => None
      end
  end.

End Containers.

Fixpoint parse_value (fuel : nat) (s : string) : option (value * string) :=
  match fuel with
  | O => None
  | S fuel' =>
      match skip_ws s with
      | EmptyString => None
      | String c r =>
          if Ascii.eqb c "{" then
            match skip_ws r with
            | String c' r' =>
                if Ascii.eqb c' "}" then Some (JObject [], r')
                else match object_members (parse_value fuel') fuel' r [] with
                     | Some (ms, rest) => Some (JObject ms, rest)
                     | None => None
                     end
            | EmptyString => None
            end
          else if Ascii.eqb c "[" then
            match skip_ws r with
            | String c' r' =>
                if Ascii.eqb c' "]" then Some (JArray [], r')
                else match elements (parse_value fuel') fuel' r [] with
                     | Some (vs, rest) => Some (JArray vs, rest)
                     | None => None
                     end
            | EmptyString => None
            end
          else if Ascii.eqb c dquote then
            match string_body r [] with
            | Some (us, rest) => Some (JString us, rest)
            | None => None
            end
          else
            match strip_prefix "true" (String c r) with
            | Some rest => Some (JBool true, rest)
            | None =>
            match strip_prefix "false" (String c r) with
            | Some rest => Some (JBool false, rest)
            | None =>
            match strip_prefix "null" (String c r) with
            | Some rest => Some (JNull, rest)
            | None =>
            match number_literal (String c r) with
            | Some (lit, rest) => Some (JNumber lit, rest)
            | None => None
            end end end end
      end
  end.

(** [JSON.parse(text)]; [None] is the [SyntaxError]. *)
Definition parse (text : string) : option value :=
  match parse_value (S (String.length text)) text with
  | Some (v, rest) =>
      match skip_ws rest with
      | EmptyString => Some v
      | _ => None
      end
  | None => None
  end.

(** [s] between double quotes. *)
Definition quoted (s : string) : string :=
  String dquote (s +:+ String dquote EmptyString).

End JSON.

(** ** services/geminiService.ts: the response schema *)

Inductive Schema :=
| TString
| TNumber
| TArray (items : Schema)
| TObject (properties : list (string * Schema)) (required : list string).

Definition jsonSchemaReview : Schema :=
  TObject
    [("strengths", TArray TString);
     ("improvements",
      TArray (TObject [("line", TNumber); ("file", TString);
                       ("category", TString); ("comment", TString)]
                      ["line"; "file"; "category"; "comment"]))]
    ["strengths"; "improvements"].

(** The property [key] of a parsed object: the last member of that name. *)
Definition property (key : string) (members : list (list N * JSON.value))
  : option JSON.value :=
  let k := codeUnits key in
  match List.filter (fun m => bool_decide (fst m = k)) (rev members) with
  | m :: _ => Some (snd m)
  | [] => None
  end.

(** A value is valid against a schema when it has the schema's type, every
    required property is present, and every declared property that is
    present is valid against its own schema. *)
Fixpoint conforms (sch : Schema) (v : JSON.value) {struct sch} : bool :=
  match sch, v with
  | TString, JSON.JString _ => true
  | TNumber, JSON.JNumber _ => true
  | TArray items, JSON.JArray vs => forallb (conforms items) vs
  | TObject props required, JSON.JObject members =>
      forallb (fun key => match property key members with
                          | Some _ => true
                          | None => false
                          end) required
      && (fix declared (ps : list (string * Schema)) : bool :=
            match ps with
            | [] => true
            | (key, sub) :: ps' =>
                match property key members with
                | Some v' => conforms sub v'
                | None => true
                end && declared ps'
            end) props
  | _, _ => false
  end.

(** A response text is valid against a schema when it parses to a value
    that conforms to it. *)
Definition valid_against (sch : Schema) (text : string) : bool :=
  match JSON.parse text with
  | Some v => conforms sch v
  | None => false
  end.

(** ** services/geminiService.ts: [generateReview] *)

Record GenerateContentRequest := mkRequest {
  model : string;
  contents : string;
  responseSchema : option Schema
}.

(** The [timestamp] is the instant of the call to [logCallback], counted in
    events of the run. *)
Record ApiLogEntry := mkLogEntry {
  step : string;
  prompt : string;
  response : string;
  timestamp : nat
}.

(** What a run does to the outside: requests sent to the endpoint and
    entries handed to [logCallback], in the order they happen. *)
Inductive Event :=
| Requested (request : GenerateContentRequest)
| Logged (entry : ApiLogEntry).

Inductive Error :=
| ErrorMessage (message : string)
| RequestFailed (request : GenerateContentRequest)
| SyntaxError (text : string).

Inductive Outcome (A : Type) :=
| Returned (a : A)
| Thrown (e : Error).

Arguments Returned {A} a.
Arguments Thrown {A} e.

(** A computation threads the trace of events and may throw. *)
Definition Run (A : Type) : Type := list Event -> Outcome A * list Event.

Definition throw {A} (e : Error) : Run A := fun trace => (Thrown e, trace).

#[global] Instance Run_ret : MRet Run :=
  fun A (a : A) trace => (Returned a, trace).

#[global] Instance Run_bind : MBind Run :=
  fun A B (k : A -> Run B) (m : Run A) trace =>
    match m trace with
    | (Returned a, trace') => k a trace'
    | (Thrown e, trace') => (Thrown e, trace')
    end.

Definition requestsOf (trace : list Event) : list GenerateContentRequest :=
  flat_map (fun ev => match ev with Requested r => [r] | Logged _ => [] end) trace.

Definition apiLogs (trace : list Event) : list ApiLogEntry :=
  flat_map (fun ev => match ev with Logged e => [e] | Requested _ => [] end) trace.

Section GeminiService.

(** The generative-AI endpoint: the text of the response, or [None] when
    the awaited call rejects. *)
Variable endpoint : GenerateContentRequest -> option string.

(** [(await ai.models.generateContent(request)).text] *)
Definition generateContent (request : GenerateContentRequest) : Run string :=
  fun trace =>
    match endpoint request with
    | Some text => (Returned text, trace ++ [Requested request])
    | None => (Thrown (RequestFailed request), trace ++ [Requested request])
    end.

(** [logInteraction(logCallback, step, prompt, response)] *)
Definition logInteraction (step prompt response : string) : Run unit :=
  fun trace =>
    (Returned tt, trace ++ [Logged (mkLogEntry step prompt response (length trace))]).

Definition contextPrompt (title body diff readmeContent masterFilesContent : string)
  : string :=
  join_lines [
    "";
    "      **Act as a research assistant for a senior software engineer.**";
    "      Your goal is to gather and summarize all possible context about a pull request to prepare for a deep code review.";
    "      **Information to Synthesize:**";
    "      1.  **PR Goal:** What is the primary purpose of this PR based on its title and description?";
    "      2.  **Project Overview:** Based on the provided README.md and the code structure, what can you infer about the project's purpose, framework, and overall architecture?";
    "      3.  **Existing Code Patterns:** Analyze the provided content of the original files from the master branch. What are the existing coding conventions, variable naming styles, and architectural patterns in this project?";
    "      4.  **Key Changes:** Briefly list the core files and functions being modified based on the diff.";
    "      **Output:** Provide a concise summary as a block of text. This summary will be fed into the next stage of the review process.";
    "      ---";
    "      **PR Title:** " +:+ title;
    "      **PR Description:** " +:+ (if truthy body then body else "No description provided.");
    "      **README.md Content:**";
    "```markdown";
    readmeContent;
    "```";
    "      **Original Content of Changed Files (from master branch):**";
    "```";
    masterFilesContent;
    "```";
    "      **Code Diff:**";
    "```diff";
    diff;
    "```";
    "    "].

Definition initialPrompt (contextSummary diff : string) : string :=
  join_lines [
    "";
    "      **Act as a Lead Software Engineer performing a code review.**";
    "      Your Goal is to provide a solid, initial code review based on the provided context.";
    "      Focus on issues related to **Security, Performance, Correctness, and Maintainability**.";
    "      You **must** respond with a valid JSON object that adheres to the provided schema. For comments, use markdown for inline code using backticks (e.g., `variableName`).";
    "      ";
    "      **CRITICAL INSTRUCTION:** All of your 'improvements' **must** refer to a line number that is part of the additions or surrounding context within the provided diff. Do not suggest changes for any code that falls outside the hunks in the diff.";
    "";
    "      **Project & PR Context:**";
    contextSummary;
    "      **Code Diff to Review:**";
    "```diff";
    diff;
    "```";
    "    "].

Definition refinementPrompt (contextSummary initialReviewText diff : string) : string :=
  join_lines [
    "";
    "      **Act as a meticulous Principal Engineer, responsible for ensuring the absolute highest quality of code reviews.**";
    "      Your Task is to critique an initial code review and produce a final, improved version.";
    "      **Critique Process (Reflection Self-Critique Loop):**";
    "      1.  **Re-evaluate the Goal:** Does the initial review fully address the PR's purpose based on the provided context?";
    "      2.  **Identify Flaws:** Was the initial review too generic? Did it miss any subtle bugs, edge cases, or potential security vulnerabilities? Crucially, did it suggest improvements for code *outside* the provided diff?";
    "      3.  **Deepen the Analysis:** Are the suggestions truly actionable and do they follow the absolute best practices?";
    "      4.  **Refine the Output:** Produce a final, polished version of the review. It must be more accurate, in-depth, and helpful.";
    "";
    "      **CRITICAL INSTRUCTION:** Ensure every single improvement suggestion in the final JSON output refers *directly* to a line number and file present in the original code diff. Discard any initial suggestions that comment on code outside the provided diff.";
    "";
    "      **You must output only the final, refined JSON object.** Do not comment on the critique process itself. For comments, use markdown for inline code using backticks (e.g., `variableName`).";
    "      **Full Context:**";
    contextSummary;
    "      **Initial Review to Critique:**";
    "```json";
    initialReviewText;
    "```";
    "      **Original Code Diff:**";
    "```diff";
    diff;
    "```";
    "    "].

(** [JSON.parse(finalReviewText)] *)
Definition JSON_parse (text : string) : Run JSON.value :=
  match JSON.parse text with
  | Some v => mret v
  | None => throw (SyntaxError text)
  end.

Definition contextRequest (model title body diff readmeContent masterFilesContent : string)
  : GenerateContentRequest :=
  mkRequest model (contextPrompt title body diff readmeContent masterFilesContent) None.

Definition initialRequest (model contextSummary diff : string) : GenerateContentRequest :=
  mkRequest model (initialPrompt contextSummary diff) (Some jsonSchemaReview).

Definition refinementRequest (model contextSummary initialReviewText diff : string)
  : GenerateContentRequest :=
  mkRequest model (refinementPrompt contextSummary initialReviewText diff)
            (Some jsonSchemaReview).

(** The review is returned as [JSON.parse] produced it. *)
Definition generateReview (apiKey title body diff readmeContent masterFilesContent
                           model : string) : Run (JSON.value * string) :=
  if negb (truthy apiKey) then
    throw (ErrorMessage "Gemini API Key not found. Please set it in the settings.")
  else
    contextSummary ←
      generateContent (contextRequest model title body diff readmeContent masterFilesContent);
    logInteraction "Context Gathering"
      (contextPrompt title body diff readmeContent masterFilesContent) contextSummary;;
    initialReviewText ← generateContent (initialRequest model contextSummary diff);
    logInteraction "Initial Review" (initialPrompt contextSummary diff) initialReviewText;;
    finalReviewText ←
      generateContent (refinementRequest model contextSummary initialReviewText diff);
    logInteraction "Refinement"
      (refinementPrompt contextSummary initialReviewText diff) finalReviewText;;
    review ← JSON_parse finalReviewText;
    mret (review, contextSummary).

End GeminiService.

(** ** services/geminiService.ts: [generateCopilotFixPrompt] *)

(** The white space and line terminators that [trim] removes, among the
    modelled characters. *)
Definition isTrimmed (c : ascii) : bool :=
  let n := nat_of_ascii c in
  ((9 <=? n)%nat && (n <=? 13)%nat) || (n =? 32)%nat || (n =? 160)%nat.

Fixpoint trimStart (s : string) : string :=
  match s with
  | String c s' => if isTrimmed c then trimStart s' else s
  | EmptyString => s
  end.

Definition reverse (s : string) : string :=
  string_of_list_ascii (rev (list_ascii_of_string s)).

Definition trim (s : string) : string :=
  reverse (trimStart (reverse (trimStart s))).

Section CopilotFixPrompt.

Variable endpoint : GenerateContentRequest -> option string.

Definition fixPrompt (improvement : ReviewImprovement) (codeSnippet : string) : string :=
  join_lines [
    "";
    "      You are an expert software engineer reviewing code. Your task is to generate a precise and actionable prompt for an AI coding assistant like GitHub Copilot.";
    "";
    "      The user has identified an issue and needs a prompt to give to the AI to fix it.";
    "";
    "      Based on the review comment, category, and the relevant code snippet below, create a prompt that clearly explains what needs to be changed. The generated prompt should be self-contained and provide all necessary context for the AI assistant to produce the corrected code.";
    "";
    "      **Output only the text for the prompt, and nothing else.**";
    "";
    "      ---";
    "      **Code Review Details:**";
    "      - **File:** `" +:+ file improvement +:+ "`";
    "      - **Line:** " +:+ Number_toString (line improvement);
    "      - **Category:** " +:+ category improvement;
    "      - **Suggestion:** " +:+ comment improvement;
    "";
    "      **Relevant Code Snippet:**";
    "      ```";
    "      " +:+ codeSnippet;
    "      ```";
    "    "].

Definition finalPromptForUser (aiGeneratedPrompt : string)
    (improvement : ReviewImprovement) (codeSnippet : string) : string :=
  trim (join_lines [
    "";
    aiGeneratedPrompt;
    "";
    "---";
    "**Context for the fix:**";
    "";
    "**Code Review Details:**";
    "- **File:** `" +:+ file improvement +:+ "`";
    "- **Line:** " +:+ Number_toString (line improvement);
    "- **Category:** " +:+ category improvement;
    "- **Suggestion:** " +:+ comment improvement;
    "";
    "**Relevant Code Snippet:**";
    "```";
    codeSnippet;
    "```";
    ""]).

Definition generateCopilotFixPrompt (apiKey : string) (improvement : ReviewImprovement)
    (codeSnippet model : string) : Run string :=
  if negb (truthy apiKey) then
    throw (ErrorMessage "Gemini API Key not found. Please set it in the settings.")
  else
    aiGeneratedPrompt ←
      generateContent endpoint (mkRequest model (fixPrompt improvement codeSnippet) None);
    logInteraction "Generate Copilot Prompt" (fixPrompt improvement codeSnippet)
      aiGeneratedPrompt;;
    mret (finalPromptForUser aiGeneratedPrompt improvement codeSnippet).

End CopilotFixPrompt.

(** ** App.tsx, [handleGenerateCopilotPrompt] *)

(** The finding's path is pasted, unescaped, into the source of a regular
    expression: [--- File: <path> ---\n([\s\S]*?)(?=\n--- File:|$)].  A [.]
    of the path is then the wildcard of the expression, every character
    that is not a syntax character stands for itself.  Paths that hold
    another syntax character of the expression language are outside this
    embedding. *)
Inductive PatternChar :=
| Literal (c : ascii)
| AnyChar.

Definition isSyntaxChar (c : ascii) : bool :=
  existsb (Ascii.eqb c)
    (JSON.backslash :: list_ascii_of_string "^$*+?()[]{}|").

Fixpoint pathPattern (path : string) : option (list PatternChar) :=
  match path with
  | EmptyString => Some []
  | String c path' =>
      if isSyntaxChar c then None
      else match pathPattern path' with
           | None => None
           | Some pat =>
               Some ((if Ascii.eqb c "." then AnyChar else Literal c) :: pat)
           end
  end.

(** The wildcard matches every character but a line terminator. *)
Definition matchesChar (p : PatternChar) (c : ascii) : bool :=
  match p with
  | Literal l => Ascii.eqb l c
  | AnyChar => negb ((nat_of_ascii c =? 10)%nat || (nat_of_ascii c =? 13)%nat)
  end.

Fixpoint matchPattern (pat : list PatternChar) (s : string) : option string :=
  match pat with
  | [] => Some s
  | p :: pat' =>
      match s with
      | String c s' => if matchesChar p c then matchPattern pat' s' else None
      | EmptyString => None
      end
  end.

(** [([\s\S]*?)(?=\n--- File:|$)]: the shortest text that is followed by
    the start of another block or by the end of the input. *)
Fixpoint lazyCapture (s : string) : string :=
  match s with
  | EmptyString => EmptyString
  | String c s' =>
      if startsWith s (lf +:+ "--- File:") then EmptyString
      else String c (lazyCapture s')
  end.

Definition fileBlockRegex_at (pat : list PatternChar) (s : string) : option string :=
  match strip_prefix "--- File: " s with
  | None => None
  | Some s1 =>
      match matchPattern pat s1 with
      | None => None
      | Some s2 =>
          match strip_prefix (" ---" +:+ lf) s2 with
          | None => None
          | Some s3 => Some (lazyCapture s3)
          end
      end
  end.

(** [masterFilesContent.match(fileBlockRegex)]: capture group 1 of the
    leftmost match. *)
Fixpoint fileBlockRegex (pat : list PatternChar) (s : string) : option string :=
  match fileBlockRegex_at pat s with
  | Some m => Some m
  | None => match s with
            | EmptyString => None
            | String _ s' => fileBlockRegex pat s'
            end
  end.

(** [array.slice(start, end)]: a negative bound counts from the end. *)
Definition Array_slice {A} (l : list A) (start end_ : Z) : list A :=
  let len := Z.of_nat (length l) in
  let k := if start <? 0 then Z.max (len + start) 0 else Z.min start len in
  let final := if end_ <? 0 then Z.max (len + end_) 0 else Z.min end_ len in
  firstn (Z.to_nat (final - k)) (skipn (Z.to_nat k) l).

Definition contextLines : Z := 5.

(** Lines 139-154: the snippet handed to [generateCopilotFixPrompt], or the
    error thrown.  The outer [None] is a path outside the embedding. *)
Definition codeSnippet (masterFilesContent : string) (improvement : ReviewImprovement)
  : option (Outcome string) :=
  match pathPattern (file improvement) with
  | None => None
  | Some pat =>
      Some
        match fileBlockRegex pat masterFilesContent with
        | None =>
            Thrown (ErrorMessage ("Could not find content for file: " +:+ file improvement))
        | Some fileContent =>
            if negb (truthy fileContent) then
              Thrown (ErrorMessage ("Could not find content for file: " +:+ file improvement))
            else
              let lines := split_lines fileContent in
              let lineIndex := line improvement - 1 in
              let start := Z.max 0 (lineIndex - contextLines) in
              let end_ := Z.min (Z.of_nat (length lines)) (lineIndex + contextLines + 1) in
              Returned (join_lines (Array_slice lines start end_))
        end
  end.

Section HandleGenerateCopilotPrompt.

Variable endpoint : GenerateContentRequest -> option string.

Definition handleGenerateCopilotPrompt (apiKey masterFilesContent : string)
    (improvement : ReviewImprovement) (selectedModel : string)
  : option (Run string) :=
  match codeSnippet masterFilesContent improvement with
  | None => None
  | Some (Thrown e) => Some (throw e)
  | Some (Returned snippet) =>
      Some (generateCopilotFixPrompt endpoint apiKey improvement snippet selectedModel)
  end.

End HandleGenerateCopilotPrompt.

(** ** services/githubService.ts: [getChangedFilesContent] *)

(** One block of the concatenated snapshots. *)
Definition fileBlock (filePath content : string) : string :=
  "--- File: " +:+ filePath +:+ " ---" +:+ lf +:+ content +:+ lf +:+ lf.

(** [new Set(filePaths)], iterated: the first occurrence of every path, in
    the order of the array. *)
Fixpoint distinctPaths (seen paths : list string) : list string :=
  match paths with
  | [] => []
  | path :: rest =>
      if existsb (String.eqb path) seen then distinctPaths seen rest
      else path :: distinctPaths (path :: seen) rest
  end.

Section GithubService.

(** [fetch(url)]: [None] when the call rejects, [Some None] when the
    response is not [ok], the text of the response otherwise. *)
Variable fetch : string -> option (option string).

Definition getChangedFilesContent (diff owner repo ref : string) : string :=
  let filePaths :=
    map (substring_from 6)
        (List.filter (fun l => startsWith l "+++ b/") (split_lines diff)) in
  fold_left
    (fun masterFilesContent filePath =>
       masterFilesContent +:+
       match fetch ("https://raw.githubusercontent.com/" +:+ owner +:+ "/" +:+ repo
                      +:+ "/" +:+ ref +:+ "/" +:+ filePath) with
       | Some (Some content) => fileBlock filePath content
       | Some None =>
           fileBlock filePath
             "(This is a new file or could not be fetched from the base branch.)"
       | None => fileBlock filePath "(Error fetching file content.)"
       end)
    (distinctPaths [] filePaths) "".

End GithubService.

(** ** Vocabulary of the specification *)

(** A non-empty run of decimal digits. *)
Definition isNumeral (ds : string) : bool := truthy ds && all_chars isDigit ds.

Definition optionalLength (len : option string) : string :=
  match len with
  | Some ds => "," +:+ ds
  | None => ""
  end.

(** The hunk header [@@ -oldStart[,oldLen] +newStart[,newLen] @@], followed
    by whatever the line goes on with. *)
Definition hunkHeader (oldStart : string) (oldLen : option string)
    (newStart : string) (newLen : option string) (tail : string) : string :=
  "@@ -" +:+ oldStart +:+ optionalLength oldLen +:+ " +" +:+ newStart
    +:+ optionalLength newLen +:+ " @@" +:+ tail.

(** The declared length of the new side; 1 when it is omitted. *)
Definition declaredLength (newLen : option string) : Z :=
  match newLen with
  | Some ds => decimalValue ds
  | None => 1
  end.

(** The new-file header of [path]. *)
Definition newFileHeader (path : string) : string := "+++ b/" +:+ path.

(** A line of [diff] is [+++ b/] followed by [path], and [path] is not the
    text [/dev/null]: the test that the code makes on a header line. *)
Definition hasHeaderFor (diff path : string) : Prop :=
  newFileHeader path ∈ split_lines diff ∧ path ≠ "/dev/null".

(** The cursor points at a file that has an entry, unless the file has the
    name of an inherited property. *)
Definition cursorHasEntry (st : ParserState) : Prop :=
  ∀ f, currentFile st = Some f → inheritedName f = false →
       is_Some (ranges st !! f).

(** The cursor points at a file that has an entry. *)
Definition cursorOwnsEntry (st : ParserState) : Prop :=
  ∀ f, currentFile st = Some f → is_Some (ranges st !! f).

(** The completion is a normal one. *)
Definition completes {A} (c : Completion A) : bool :=
  match c with
  | Normal _ => true
  | _ => false
  end.

(** A line that cannot stop a parse: not the header of a file named like
    an inherited property, and no hunk header with a number beyond 2^53. *)
Definition plainLine (l : string) : bool :=
  if startsWith l "+++ b/" then negb (inheritedName (substring_from 6 l))
  else completes (hunk_range l).

(** The ranges that a completion holds. *)
Definition rangeOf (c : Completion (option LineRange)) : list LineRange :=
  match c with
  | Normal (Some range) => [range]
  | _ => []
  end.

(** The cursor after a line, as the specification describes it: a new-file
    header moves it to its path, or clears it when the target is
    [/dev/null]; any other line leaves it where it is. *)
Definition cursorAfter (cursor : option string) (l : string) : option string :=
  if startsWith l "+++ b/" then
    if String.eqb (substring_from 6 l) "/dev/null" then None
    else Some (substring_from 6 l)
  else cursor.

(** The range that a line contributes to [path] under [cursor]: the one of
    a hunk header recognised while the cursor is set to [path]. *)
Definition contribution (path : string) (cursor : option string) (l : string)
  : list LineRange :=
  if startsWith l "+++ b/" then []
  else match cursor with
       | Some f =>
           if bool_decide (f = path) && startsWith l "@@" && truthy f
           then rangeOf (hunk_range l)
           else []
       | None => []
       end.

(** The ranges of [path] that survive, in encounter order. *)
Fixpoint survivingRanges (path : string) (cursor : option string) (ls : list string)
  : list LineRange :=
  match ls with
  | [] => []
  | l :: ls' =>
      contribution path cursor l ++ survivingRanges path (cursorAfter cursor l) ls'
  end.

(** The finding lies in a range that the table lists for its file, as a
    test. *)
Definition liesInRange (table : gmap string (list LineRange))
    (f : ReviewImprovement) : bool :=
  match table !! file f with
  | Some rs => isInRange f rs
  | None => false
  end.

(** The file of the finding is not listed by the table and has the name of
    an inherited property. *)
Definition namesInherited (table : gmap string (list LineRange))
    (f : ReviewImprovement) : bool :=
  match table !! file f with
  | Some _ => false
  | None => inheritedName (file f)
  end.

(** The finding lies in a range that the table lists for its file. *)
Definition inSomeRange (table : gmap string (list LineRange))
    (f : ReviewImprovement) : Prop :=
  ∃ rs, table !! file f = Some rs
        ∧ ∃ r, r ∈ rs ∧ start r ≤ line f ≤ end_ r.

(** A lowercase hexadecimal digit. *)
Definition isLowerHex (c : ascii) : bool :=
  let n := nat_of_ascii c in
  ((48 <=? n)%nat && (n <=? 57)%nat) || ((97 <=? n)%nat && (n <=? 102)%nat).

(** The text of the deep link around the hash segment and the line. *)
Definition linkPrefix (prData : PrData) : string :=
  "https://github.com/" +:+ owner prData +:+ "/" +:+ repo prData +:+ "/pull/"
    +:+ Number_toString (pull_number prData) +:+ "/files#diff-".

(** The three log entries of a run that starts with an empty trace. *)
Definition contextEntry (title body diff readmeContent masterFilesContent
                         contextSummary : string) : ApiLogEntry :=
  mkLogEntry "Context Gathering"
    (contextPrompt title body diff readmeContent masterFilesContent) contextSummary 1.

Definition initialEntry (contextSummary diff initialReviewText : string) : ApiLogEntry :=
  mkLogEntry "Initial Review" (initialPrompt contextSummary diff) initialReviewText 3.

Definition refinementEntry (contextSummary initialReviewText diff
                            finalReviewText : string) : ApiLogEntry :=
  mkLogEntry "Refinement" (refinementPrompt contextSummary initialReviewText diff)
    finalReviewText 5.

(** A stub of the endpoint: the summary for a request without a schema,
    [initial] for the stage-2 request on that summary, [final] for any
    other request with a schema. *)
Definition stubEndpoint (summary diff initial final : string)
    (request : GenerateContentRequest) : option string :=
  match responseSchema request with
  | None => Some summary
  | Some _ =>
      if String.eqb (contents request) (initialPrompt summary diff)
      then Some initial else Some final
  end.

(** A review text that is valid against the schema. *)
Definition emptyReviewText : string :=
  "{" +:+ JSON.quoted "strengths" +:+ ":[]," +:+ JSON.quoted "improvements" +:+ ":[]}".

(** A stub whose stage-2 call rejects. *)
Definition failingStage2 (summary : string) (request : GenerateContentRequest)
  : option string :=
  match responseSchema request with
  | None => Some summary
  | Some _ => None
  end.

(** A non-empty text without [/]. *)
Definition isSegment (seg : string) : bool :=
  truthy seg && all_chars (fun c => negb (Ascii.eqb c "/")) seg.



(** The text after a segment does not go on with a character of it. *)
Definition stopsSegment (r : string) : bool :=
  match r with
  | String c _ => Ascii.eqb c "/"
  | EmptyString => true
  end.

(** The path read character by character, as the specification means it
    when it speaks of the snapshot of the finding's file. *)
Definition literalPattern (path : string) : list PatternChar :=
  map Literal (list_ascii_of_string path).

(** A pull request that touches [src/my-component.ts] and
    [src/my.component.ts]: its diff, the base-branch contents of the two
    files, and the snapshots in the order of the diff. *)
Definition twoFilesDiff : string :=
  join_lines ["--- a/src/my-component.ts"; "+++ b/src/my-component.ts";
              "@@ -1 +1 @@"; "-alpha"; "+gamma";
              "--- a/src/my.component.ts"; "+++ b/src/my.component.ts";
              "@@ -1 +1 @@"; "-beta"; "+delta"].

Definition twoFilesFetch (url : string) : option (option string) :=
  if String.eqb url "https://raw.githubusercontent.com/acme/widget/main/src/my-component.ts"
  then Some (Some "alpha")
  else if String.eqb url
            "https://raw.githubusercontent.com/acme/widget/main/src/my.component.ts"
  then Some (Some "beta")
  else Some None.

Definition twoSnapshots : string :=
  fileBlock "src/my-component.ts" "alpha" +:+ fileBlock "src/my.component.ts" "beta".

(** The text after a run of digits does not go on with a digit. *)
Definition stopsDigits (r : string) : bool :=
  match r with
  | String c _ => negb (isDigit c)
  | EmptyString => true
  end.

(** A byte prints as its two hexadecimal digits, high one first. *)
Definition hexByteOk (b : N) : bool :=
  bool_decide (padStart 2 "0" (Number_toString16 b)
               = String (hexDigit (b / 16)) (String (hexDigit (b mod 16)) ""))
  && isLowerHex (hexDigit (b / 16)) && isLowerHex (hexDigit (b mod 16)).

(** A line that the loop of the parser looks at: a new-file header or a
    line that starts like a hunk header. *)
Definition isRelevantLine (l : string) : bool :=
  startsWith l "+++ b/" || startsWith l "@@".

(** The value of two hexadecimal digits. *)
Definition byteOfHex (s : string) : option N :=
  match s with
  | String c1 (String c2 _) =>
      match JSON.hexValue c1, JSON.hexValue c2 with
      | Some h, Some l => Some (16 * h + l)%N
      | _, _ => None
      end
  | _ => None
  end.

(** The value of a decimal numeral, most significant digit first, on top of
    the value [acc] of the digits already read. *)
Fixpoint uintValue (d : Decimal.uint) (acc : Z) : Z :=
  match d with
  | Decimal.Nil => acc
  | Decimal.D0 d' => uintValue d' (10 * acc + 0)
  | Decimal.D1 d' => uintValue d' (10 * acc + 1)
  | Decimal.D2 d' => uintValue d' (10 * acc + 2)
  | Decimal.D3 d' => uintValue d' (10 * acc + 3)
  | Decimal.D4 d' => uintValue d' (10 * acc + 4)
  | Decimal.D5 d' => uintValue d' (10 * acc + 5)
  | Decimal.D6 d' => uintValue d' (10 * acc + 6)
  | Decimal.D7 d' => uintValue d' (10 * acc + 7)
  | Decimal.D8 d' => uintValue d' (10 * acc + 8)
  | Decimal.D9 d' => uintValue d' (10 * acc + 9)
  end.
(** ** services/geminiService.ts: [generateTestSuggestions] and
       [generateTestCreationPrompt] *)

(** The schema sent with the test-suggestion request: three optional arrays
    of strings. *)
Definition jsonSchemaTestSuggestions : Schema :=
  TObject [("unitTests", TArray TString);
           ("integrationTests", TArray TString);
           ("manualChecks", TArray TString)] [].

Definition testPrompt (contextSummary diff : string) : string :=
  join_lines [
    "";
    "      **Act as a senior Quality Assurance (QA) Engineer.**";
    "      Your task is to analyze the provided project context and code changes to propose a comprehensive set of test cases.";
    "      **Instructions:**";
    "      1.  Review the provided context and code diff to understand the changes.";
    "      2.  Propose test cases to ensure the changes are robust, correct, and don't introduce regressions.";
    "      3.  Categorize your suggestions into " +:+ JSON.quoted "unitTests" +:+ ", " +:+ JSON.quoted "integrationTests" +:+ ", and " +:+ JSON.quoted "manualChecks" +:+ ".";
    "      4.  For each test case, provide a concise, clear description of the action to be performed and the expected outcome. Use markdown for inline code using backticks (e.g., `variableName`).";
    "      **Output Format:** You **must** respond with a valid JSON object adhering to the schema.";
    "      **Full Context:**";
    contextSummary;
    "      **Code Diff to Analyze:**";
    "```diff";
    diff;
    "```";
    "    "].

Definition testCreationPrompt (testSuggestion category contextSummary diff : string)
  : string :=
  join_lines [
    "";
    "      You are an expert Quality Assurance engineer. Your task is to generate a precise and actionable prompt for an AI coding assistant (like GitHub Copilot) to create a specific test case.";
    "";
    "      The user has a test suggestion and needs a prompt to give to the AI to implement it.";
    "";
    "      Based on the suggested test, its category, the overall PR context, and the code changes, create a prompt that clearly explains what test needs to be written. The generated prompt should be self-contained and provide all necessary context for the AI assistant to produce the correct test code. It should specify where to add the test if possible.";
    "";
    "      **Output only the text for the prompt, and nothing else.**";
    "";
    "      ---";
    "      **Test Case Details:**";
    "      - **Category:** " +:+ category;
    "      - **Suggestion:** " +:+ testSuggestion;
    "";
    "      **Overall PR Context:**";
    "      " +:+ contextSummary;
    "";
    "      **Code Diff:**";
    "      ```diff";
    diff;
    "```";
    "    "].

Definition finalTestPromptForUser (aiGeneratedPrompt testSuggestion category
                                   contextSummary : string) : string :=
  trim (join_lines [
    "";
    aiGeneratedPrompt;
    "";
    "---";
    "**Context for the test:**";
    "";
    "**Test to create:**";
    "- **Category:** " +:+ category;
    "- **Suggestion:** " +:+ testSuggestion;
    "";
    "**Pull Request Summary:**";
    contextSummary;
    ""]).

Section TestService.

Variable endpoint : GenerateContentRequest -> option string.

(** The suggestions are returned as [JSON.parse] produced them. *)
Definition generateTestSuggestions (apiKey contextSummary diff model : string)
  : Run JSON.value :=
  if negb (truthy apiKey) then
    throw (ErrorMessage "Gemini API Key not found. Please set it in the settings.")
  else
    suggestionsText ←
      generateContent endpoint
        (mkRequest model (testPrompt contextSummary diff)
                   (Some jsonSchemaTestSuggestions));
    logInteraction "Test Suggestions" (testPrompt contextSummary diff) suggestionsText;;
    JSON_parse suggestionsText.

Definition generateTestCreationPrompt (apiKey testSuggestion category contextSummary
                                       diff model : string) : Run string :=
  if negb (truthy apiKey) then
    throw (ErrorMessage "Gemini API Key not found. Please set it in the settings.")
  else
    aiGeneratedPrompt ←
      generateContent endpoint
        (mkRequest model
           (testCreationPrompt testSuggestion category contextSummary diff) None);
    logInteraction "Generate Test Creation Prompt"
      (testCreationPrompt testSuggestion category contextSummary diff)
      aiGeneratedPrompt;;
    mret (finalTestPromptForUser aiGeneratedPrompt testSuggestion category
                                 contextSummary).

End TestService.

(** [s.trimEnd()] *)
Definition trimEnd (s : string) : string := reverse (trimStart (reverse s)).

(** The context trailer of a fix prompt, from its rule to its closing fence. *)
Definition fixTrailer (improvement : ReviewImprovement) (codeSnippet : string) : string :=
  join_lines [
    "---";
    "**Context for the fix:**";
    "";
    "**Code Review Details:**";
    "- **File:** `" +:+ file improvement +:+ "`";
    "- **Line:** " +:+ Number_toString (line improvement);
    "- **Category:** " +:+ category improvement;
    "- **Suggestion:** " +:+ comment improvement;
    "";
    "**Relevant Code Snippet:**";
    "```";
    codeSnippet;
    "```"].

(** The context trailer of a test prompt, from its rule to the heading of
    the summary. *)
Definition testTrailer (testSuggestion category : string) : string :=
  join_lines [
    "---";
    "**Context for the test:**";
    "";
    "**Test to create:**";
    "- **Category:** " +:+ category;
    "- **Suggestion:** " +:+ testSuggestion;
    "";
    "**Pull Request Summary:**"].

(** The first character of a text is not one that [trim] removes. *)
Definition startsSolid (s : string) : bool :=
  match s with
  | String c _ => negb (isTrimmed c)
  | EmptyString => false
  end.
(** The paths that [getChangedFilesContent] reads off the diff. *)
Definition headerPaths (diff : string) : list string :=
  map (substring_from 6)
      (List.filter (fun l => startsWith l "+++ b/") (split_lines diff)).

(** The block that [getChangedFilesContent] writes for a path. *)
Definition blockOf (fetch : string → option (option string))
    (owner repo ref filePath : string) : string :=
  match fetch ("https://raw.githubusercontent.com/" +:+ owner +:+ "/" +:+ repo
                 +:+ "/" +:+ ref +:+ "/" +:+ filePath) with
  | Some (Some content) => fileBlock filePath content
  | Some None =>
      fileBlock filePath
        "(This is a new file or could not be fetched from the base branch.)"
  | None => fileBlock filePath "(Error fetching file content.)"
  end.

Fixpoint concatBlocks (blocks : list string) : string :=
  match blocks with
  | [] => ""
  | b :: rest => b +:+ concatBlocks rest
  end.
(** A path that reads the same as text and as a regular expression: no
    syntax character and no [.]. *)
Definition plainPath (path : string) : bool :=
  all_chars (fun c => negb (isSyntaxChar c) && negb (Ascii.eqb c ".")) path.

(** The header line of a block, and the text at which the lazy capture of
    [fileBlockRegex] stops. *)
Definition blockHeader (path : string) : string :=
  "--- File: " +:+ path +:+ " ---" +:+ lf.

Definition blockStart : string := lf +:+ "--- File:".

(** [s.indexOf(needle)], [None] for -1. *)
Fixpoint String_indexOf (s needle : string) : option nat :=
  if startsWith s needle then Some O
  else match s with
       | EmptyString => None
       | String _ s' => S <$> String_indexOf s' needle
       end.

(** The lines that [App.tsx] sends with a finding on line [line] of a block
    split into [lines]. *)
Definition snippetWindow (lines : list string) (line : Z) : list string :=
  let lineIndex := line - 1 in
  Array_slice lines (Z.max 0 (lineIndex - contextLines))
              (Z.min (Z.of_nat (length lines)) (lineIndex + contextLines + 1)).

(** What follows a block in the concatenated snapshots: nothing, or the
    next block. *)
Definition endsOrNextBlock (rest : string) : bool :=
  negb (truthy rest) || startsWith rest "--- File:".
(** ** components/ui.tsx: [ReviewDisplay] *)

(** [item.category || 'General'] *)
Definition groupOf (item : ReviewImprovement) : string :=
  if truthy (category item) then category item else "General".

(** The callback of the [reduce] of [groupedImprovements]: an entry is
    created, empty, when [acc[category]] is falsy, and the finding is pushed
    on [acc[category]], a [TypeError] when that is an inherited property. *)
Definition pushFinding (item : ReviewImprovement)
    (acc : gmap string (list ReviewImprovement))
  : Completion (gmap string (list ReviewImprovement)) :=
  let acc' := match getProperty acc (groupOf item) with
              | Undefined => <[groupOf item := []]> acc
              | _ => acc
              end in
  match getProperty acc' (groupOf item) with
  | Own items => Normal (<[groupOf item := items ++ [item]]> acc')
  | _ => TypeError
  end.

(** [review.improvements.reduce(callback, {})]; the order of
    [Object.entries] is not part of the model. *)
Definition groupedImprovements (improvements : list ReviewImprovement)
  : Completion (gmap string (list ReviewImprovement)) :=
  fold_left (fun acc item => acc ≫= pushFinding item) improvements (Normal ∅).

(** The category under which the finding is shown is the name of an
    inherited property. *)
Definition namesInheritedGroup (item : ReviewImprovement) : bool :=
  inheritedName (groupOf item).

(** The key of the [index]-th finding of a group. *)
Definition itemKey (category : string) (index : nat) : string :=
  category +:+ "-" +:+ Number_toString (Z.of_nat index).
(** ** components/ui.tsx: [CopilotPromptModal] *)

(** [s.includes(needle)] *)
Definition String_includes (s needle : string) : bool :=
  match String_indexOf s needle with
  | Some _ => true
  | None => false
  end.

(** [s.split(separator)] for a separator that is not empty: the text is
    read from left to right, an occurrence of the separator closes the
    current piece, and the reading goes on behind the occurrence ([skip] is
    the number of its characters still to step over). *)
Fixpoint split_pieces (separator : string) (skip : nat) (s : string)
  : string * list string :=
  match s with
  | EmptyString => (EmptyString, [])
  | String c s' =>
      match skip with
      | S k => split_pieces separator k s'
      | O =>
          if startsWith s separator then
            let (piece, pieces) :=
              split_pieces separator (String.length separator - 1) s' in
            (EmptyString, piece :: pieces)
          else
            let (piece, pieces) := split_pieces separator O s' in
            (String c piece, pieces)
      end
  end.

Definition String_split (s separator : string) : list string :=
  let (piece, pieces) := split_pieces separator O s in piece :: pieces.

Definition separator : string :=
  lf +:+ lf +:+ "---" +:+ lf +:+ "**Context for the fix:**".

Definition testSeparator : string :=
  lf +:+ lf +:+ "---" +:+ lf +:+ "**Context for the test:**".

(** The two texts that the modal shows, [mainPrompt] and [contextBlock]. *)
Definition mainPrompt_contextBlock (prompt : string) : string * string :=
  let finalSeparator :=
    if String_includes prompt separator then separator else testSeparator in
  let parts := String_split prompt finalSeparator in
  let context :=
    if (1 <? length parts)%nat then "---" +:+ nth 1 parts "" else "" in
  (trim (nth 0 parts ""), trim context).

(** What a fix prompt holds behind the heading of its context, and what a
    test prompt holds there up to the heading of the summary. *)
Definition fixDetails (improvement : ReviewImprovement) (codeSnippet : string) : string :=
  lf +:+ join_lines [
    "";
    "**Code Review Details:**";
    "- **File:** `" +:+ file improvement +:+ "`";
    "- **Line:** " +:+ Number_toString (line improvement);
    "- **Category:** " +:+ category improvement;
    "- **Suggestion:** " +:+ comment improvement;
    "";
    "**Relevant Code Snippet:**";
    "```";
    codeSnippet;
    "```"].

Definition testDetails (testSuggestion category : string) : string :=
  lf +:+ join_lines [
    "";
    "**Test to create:**";
    "- **Category:** " +:+ category;
    "- **Suggestion:** " +:+ testSuggestion;
    "";
    "**Pull Request Summary:**"].

(** No proper suffix of the text is a prefix of it: two occurrences of the
    text never overlap. *)
Definition unbordered (sep : string) : bool :=
  forallb (fun k => negb (startsWith sep (substring_from k sep)))
          (seq 1 (String.length sep - 1)).
(** ** Strings *)

Lemma startsWith_app (p s : string) : startsWith (p +:+ s) p = true.
Proof.
  induction p as [|c p IH]; simpl; [done|].
  by rewrite Ascii.eqb_refl.
Qed.

Lemma startsWith_inv (s p : string) :
  startsWith s p = true → s = p +:+ substring_from (String.length p) s.
Proof.
  revert s. induction p as [|c p IH]; intros s H; simpl in *; [done|].
  destruct s as [|d s]; [done|].
  destruct (Ascii.eqb c d) eqn:E; [|done].
  apply Ascii.eqb_eq in E. subst d. simpl. f_equal. by apply IH.
Qed.

Lemma strip_prefix_app (p s : string) : strip_prefix p (p +:+ s) = Some s.
Proof.
  induction p as [|c p IH]; simpl; [done|].
  by rewrite Ascii.eqb_refl.
Qed.

Lemma strip_prefix_inv (p s r : string) :
  strip_prefix p s = Some r → s = p +:+ r.
Proof.
  revert s. induction p as [|c p IH]; intros s H; simpl in *; [congruence|].
  destruct s as [|d s]; [done|].
  destruct (Ascii.eqb c d) eqn:E; [|done].
  apply Ascii.eqb_eq in E. subst d. simpl. f_equal. by apply IH.
Qed.

Lemma string_app_assoc (a b c : string) : (a +:+ b) +:+ c = a +:+ b +:+ c.
Proof. induction a; simpl; congruence. Qed.

Lemma string_app_empty_r (a : string) : a +:+ "" = a.
Proof. induction a; simpl; congruence. Qed.

Lemma span_digits_app (ds r : string) :
  all_chars isDigit ds = true → stopsDigits r = true →
  span_digits (ds +:+ r) = (ds, r).
Proof.
  intros Hd Hr. induction ds as [|c ds IH]; simpl in *.
  - destruct r as [|c r]; [done|]. simpl in *.
    by destruct (isDigit c).
  - apply andb_true_iff in Hd as [Hc Hd]. rewrite Hc, (IH Hd). done.
Qed.

Lemma span_digits_inv (s ds r : string) :
  span_digits s = (ds, r) →
  s = ds +:+ r ∧ all_chars isDigit ds = true ∧ stopsDigits r = true.
Proof.
  revert ds r. induction s as [|c s IH]; intros ds r H; simpl in H.
  - by inversion H.
  - destruct (isDigit c) eqn:Hc.
    + destruct (span_digits s) as [ds' r'] eqn:E.
      inversion H; subst. destruct (IH _ _ eq_refl) as (-> & Hd & Hr).
      simpl. by rewrite Hc, Hd.
    + inversion H; subst. simpl. by rewrite Hc.
Qed.

Lemma span_digits_prefix (ds r : string) :
  all_chars isDigit ds = true →
  ∃ more r', span_digits (ds +:+ r) = (ds +:+ more, r').
Proof.
  intros Hd. induction ds as [|c ds IH]; simpl in *.
  - destruct (span_digits r) as [more r'] eqn:E. by exists more, r'.
  - apply andb_true_iff in Hd as [Hc Hd]. rewrite Hc.
    destruct (IH Hd) as (more & r' & ->). by exists more, r'.
Qed.

Lemma truthy_app (a b : string) : truthy a = true → truthy (a +:+ b) = true.
Proof. by destruct a. Qed.

Lemma isNumeral_inv (ds : string) :
  isNumeral ds = true → truthy ds = true ∧ all_chars isDigit ds = true.
Proof. unfold isNumeral. by rewrite andb_true_iff. Qed.

Lemma digitValue_nonneg (c : ascii) : isDigit c = true → 0 ≤ digitValue c ≤ 9.
Proof.
  unfold isDigit, digitValue. rewrite andb_true_iff, !Nat.leb_le. lia.
Qed.

Lemma decimalValue_fold_nonneg (cs : list ascii) (acc : Z) :
  0 ≤ acc → forallb isDigit cs = true →
  0 ≤ fold_left (fun a c => 10 * a + digitValue c) cs acc.
Proof.
  revert acc. induction cs as [|c cs IH]; intros acc Ha Hd; simpl in *; [done|].
  apply andb_true_iff in Hd as [Hc Hd].
  apply IH; [|done]. pose proof (digitValue_nonneg c Hc). lia.
Qed.

Lemma all_chars_forallb (P : ascii → bool) (s : string) :
  all_chars P s = forallb P (list_ascii_of_string s).
Proof. induction s; simpl; congruence. Qed.

Lemma decimalValue_nonneg (ds : string) :
  all_chars isDigit ds = true → 0 ≤ decimalValue ds.
Proof.
  intros H. unfold decimalValue. apply decimalValue_fold_nonneg; [lia|].
  by rewrite <- all_chars_forallb.
Qed.

(** ** Exact numbers *)

Lemma exactly_Normal (z v : Z) :
  exactly z = Normal v → v = z ∧ - 2 ^ 53 ≤ z ≤ 2 ^ 53.
Proof.
  unfold exactly. destruct (_ && _) eqn:E; [|done]. intros [= <-].
  apply andb_true_iff in E as [?%Z.leb_le ?%Z.leb_le]. done.
Qed.

Lemma exactly_exact (z : Z) : - 2 ^ 53 ≤ z ≤ 2 ^ 53 → exactly z = Normal z.
Proof.
  intros [H1 H2]. unfold exactly.
  apply Z.leb_le in H1, H2. by rewrite H1, H2.
Qed.

Lemma parseInt_Normal (ds : string) (v : Z) :
  all_chars isDigit ds = true → parseInt ds = Normal v →
  v = decimalValue ds ∧ 0 ≤ decimalValue ds ≤ 2 ^ 53.
Proof.
  intros Hd H. apply exactly_Normal in H as [-> [_ H]].
  split; [done|]. split; [by apply decimalValue_nonneg|done].
Qed.

Lemma parseInt_exact (ds : string) :
  0 ≤ decimalValue ds ≤ 2 ^ 53 → parseInt ds = Normal (decimalValue ds).
Proof. intros H. apply exactly_exact. lia. Qed.

(** ** The hunk-header expression on a well-formed header *)

Lemma optional_length_header (len : option string) (r : string) :
  (∀ ds, len = Some ds → isNumeral ds = true) →
  stopsDigits r = true → startsWith r "," = false →
  optional_length (optionalLength len +:+ r) = (len, r).
Proof.
  intros Hlen Hr Hcomma. destruct len as [ds|]; simpl.
  - destruct (isNumeral_inv ds (Hlen ds eq_refl)) as [Ht Hd].
    rewrite (span_digits_app ds r Hd Hr). by rewrite Ht.
  - destruct r as [|c r]; [done|]. simpl in *.
    rewrite (Ascii.eqb_sym c ","). by destruct (Ascii.eqb "," c).
Qed.

Lemma hunk_regex_at_header (oldStart : string) (oldLen : option string)
    (newStart : string) (newLen : option string) (tail : string) :
  isNumeral oldStart = true → (∀ ds, oldLen = Some ds → isNumeral ds = true) →
  isNumeral newStart = true → (∀ ds, newLen = Some ds → isNumeral ds = true) →
  hunk_regex_at (hunkHeader oldStart oldLen newStart newLen tail)
  = Some (newStart, newLen).
Proof.
  intros Hos Hol Hns Hnl.
  destruct (isNumeral_inv _ Hos) as [Hos1 Hos2].
  destruct (isNumeral_inv _ Hns) as [Hns1 Hns2].
  unfold hunk_regex_at, hunkHeader.
  rewrite strip_prefix_app.
  rewrite span_digits_app; [|done|by destruct oldLen].
  rewrite Hos1. simpl negb. cbv iota.
  rewrite optional_length_header; [|done..].
  rewrite strip_prefix_app.
  rewrite span_digits_app; [|done|by destruct newLen].
  rewrite Hns1. simpl negb. cbv iota.
  rewrite optional_length_header; [|done..].
  by rewrite strip_prefix_app.
Qed.

Lemma hunk_regex_leftmost (s : string) (m : string * option string) :
  hunk_regex_at s = Some m → hunk_regex s = Some m.
Proof.
  intros H. destruct s as [|c s]; [by vm_compute in H|].
  simpl. by rewrite H.
Qed.

Lemma hunk_regex_header (oldStart : string) (oldLen : option string)
    (newStart : string) (newLen : option string) (tail : string) :
  isNumeral oldStart = true → (∀ ds, oldLen = Some ds → isNumeral ds = true) →
  isNumeral newStart = true → (∀ ds, newLen = Some ds → isNumeral ds = true) →
  hunk_regex (hunkHeader oldStart oldLen newStart newLen tail)
  = Some (newStart, newLen).
Proof.
  intros. by apply hunk_regex_leftmost, hunk_regex_at_header.
Qed.

Lemma optional_length_inv (s r : string) (len : option string) :
  optional_length s = (len, r) → ∀ ds, len = Some ds → isNumeral ds = true.
Proof.
  unfold optional_length. intros H ds ->.
  destruct s as [|c s]; [done|].
  destruct (Ascii.eqb c ","); [|done].
  destruct (span_digits s) as [ds' r'] eqn:Hspan.
  destruct (truthy ds') eqn:Ht; [|done]. injection H as -> ->.
  apply span_digits_inv in Hspan as (_ & Hd & _).
  unfold isNumeral. by rewrite Ht, Hd.
Qed.

Lemma hunk_regex_at_inv (s m1 : string) (m2 : option string) :
  hunk_regex_at s = Some (m1, m2) →
  isNumeral m1 = true ∧ ∀ ds, m2 = Some ds → isNumeral ds = true.
Proof.
  unfold hunk_regex_at. intros H.
  destruct (strip_prefix "@@ -" s) as [s1|]; [|done].
  destruct (span_digits s1) as [oldStart s2].
  destruct (truthy oldStart); [|done]. simpl negb in H. cbv iota in H.
  destruct (optional_length s2) as [oldLen s3].
  destruct (strip_prefix " +" s3) as [s4|]; [|done].
  destruct (span_digits s4) as [newStart s5] eqn:Hspan.
  destruct (truthy newStart) eqn:Ht; [|done]. simpl negb in H. cbv iota in H.
  destruct (optional_length s5) as [newLen s6] eqn:Hopt.
  destruct (strip_prefix " @@" s6); [|done]. injection H as <- <-.
  apply span_digits_inv in Hspan as (_ & Hd & _). split.
  - unfold isNumeral. by rewrite Ht, Hd.
  - by apply (optional_length_inv _ _ _ Hopt).
Qed.

Lemma hunk_regex_inv (s m1 : string) (m2 : option string) :
  hunk_regex s = Some (m1, m2) →
  isNumeral m1 = true ∧ ∀ ds, m2 = Some ds → isNumeral ds = true.
Proof.
  induction s as [|c s IH]; intros H.
  - by vm_compute in H.
  - simpl in H. destruct (hunk_regex_at (String c s)) as [[a b]|] eqn:Hat.
    + injection H as -> ->. by apply hunk_regex_at_inv in Hat.
    + by apply IH.
Qed.

Lemma declaredLength_nonneg (newLen : option string) :
  (∀ ds, newLen = Some ds → isNumeral ds = true) → 0 ≤ declaredLength newLen.
Proof.
  intros H. destruct newLen as [ds|]; simpl; [|lia].
  destruct (isNumeral_inv ds (H ds eq_refl)) as [_ Hd].
  by apply decimalValue_nonneg.
Qed.

Lemma hunk_range_header (oldStart : string) (oldLen : option string)
    (newStart : string) (newLen : option string) (tail : string) :
  isNumeral oldStart = true → (∀ ds, oldLen = Some ds → isNumeral ds = true) →
  isNumeral newStart = true → (∀ ds, newLen = Some ds → isNumeral ds = true) →
  decimalValue newStart + declaredLength newLen ≤ 2 ^ 53 →
  hunk_range (hunkHeader oldStart oldLen newStart newLen tail)
  = Normal (if 0 <? declaredLength newLen
            then Some (mkRange (decimalValue newStart)
                               (decimalValue newStart + declaredLength newLen - 1))
            else None).
Proof.
  intros Hos Hol Hns Hnl Hsum. unfold hunk_range.
  rewrite hunk_regex_header; [|done..].
  pose proof (declaredLength_nonneg newLen Hnl) as Hlen.
  pose proof (decimalValue_nonneg newStart (proj2 (isNumeral_inv _ Hns))) as Hstart.
  rewrite (parseInt_exact newStart) by lia. cbn [mbind Completion_bind].
  assert (match newLen with
          | Some ds => parseInt ds
          | None => Normal 1
          end = Normal (declaredLength newLen)) as ->.
  { destruct newLen as [ds|]; [|done]. simpl in *. apply parseInt_exact. lia. }
  cbn [mbind Completion_bind].
  destruct (0 <? declaredLength newLen); [|done].
  rewrite exactly_exact by lia. done.
Qed.

(** What a hunk header that completes contributes. *)
Lemma hunk_range_bounds (l : string) (r : LineRange) :
  hunk_range l = Normal (Some r) → 0 ≤ start r ≤ end_ r.
Proof.
  unfold hunk_range. intros H.
  destruct (hunk_regex l) as [[m1 m2]|] eqn:Hm; [|done].
  destruct (hunk_regex_inv _ _ _ Hm) as [H1 H2].
  apply isNumeral_inv in H1 as [_ H1].
  destruct (parseInt m1) as [a| |] eqn:Ha; [|done..].
  apply (parseInt_Normal _ _ H1) in Ha as [-> Ha].
  cbn [mbind Completion_bind] in H.
  destruct (match m2 with Some ds => parseInt ds | None => Normal 1 end)
    as [n| |]; [|done..].
  cbn [mbind Completion_bind] in H.
  destruct (0 <? n) eqn:Hlen; [|done]. apply Z.ltb_lt in Hlen.
  destruct (exactly (decimalValue m1 + n)) as [s| |] eqn:Hs; [|done..].
  apply exactly_Normal in Hs as [-> _].
  injection H as <-. simpl. lia.
Qed.

(** ** The loop of [parseDiffToValidLineRanges] *)

#[local] Arguments substring_from : simpl never.

Lemma getProperty_Own {A} (object : gmap string A) (key : string) (value : A) :
  getProperty object key = Own value ↔ object !! key = Some value.
Proof.
  unfold getProperty. destruct (object !! key).
  - split; congruence.
  - by destruct (inheritedName key).
Qed.

Lemma getProperty_Undefined {A} (object : gmap string A) (key : string) :
  getProperty object key = Undefined
  ↔ object !! key = None ∧ inheritedName key = false.
Proof.
  unfold getProperty. destruct (object !! key).
  - split; [done|by intros [? _]].
  - destruct (inheritedName key); split; (done || by intros [_ ?]).
Qed.

Lemma bind_Normal {A B} (m : Completion A) (k : A → Completion B) (b : B) :
  m ≫= k = Normal b ↔ ∃ a, m = Normal a ∧ k a = Normal b.
Proof.
  destruct m as [a| |]; cbn [mbind Completion_bind].
  - split; [by exists a|]. by intros (a' & [= <-] & ?).
  - split; [done|]. by intros (? & ? & _).
  - split; [done|]. by intros (? & ? & _).
Qed.

Lemma parse_lines_cons (st : ParserState) (l : string) (ls : list string)
    (st' : ParserState) :
  parse_lines st (l :: ls) = Normal st'
  ↔ ∃ st1, parse_line st l = Normal st1 ∧ parse_lines st1 ls = Normal st'.
Proof. apply bind_Normal. Qed.

Lemma parse_lines_app (st : ParserState) (ls1 ls2 : list string) :
  parse_lines st (ls1 ++ ls2)
  = parse_lines st ls1 ≫= fun st' => parse_lines st' ls2.
Proof.
  revert st. induction ls1 as [|l ls1 IH]; intros st; [done|].
  cbn [app parse_lines]. destruct (parse_line st l); [apply IH|done..].
Qed.

Lemma parse_lines_app_Normal (st st' : ParserState) (ls1 ls2 : list string) :
  parse_lines st (ls1 ++ ls2) = Normal st'
  ↔ ∃ st1, parse_lines st ls1 = Normal st1 ∧ parse_lines st1 ls2 = Normal st'.
Proof. rewrite parse_lines_app. apply bind_Normal. Qed.

(** The cases of one iteration that completes. *)
Lemma parse_line_Normal (st st' : ParserState) (l : string) :
  parse_line st l = Normal st' →
  (startsWith l "+++ b/" = true ∧ substring_from 6 l = "/dev/null"
   ∧ st' = mkState (ranges st) None)
  ∨ (startsWith l "+++ b/" = true ∧ substring_from 6 l ≠ "/dev/null"
     ∧ ranges st !! substring_from 6 l = None
     ∧ inheritedName (substring_from 6 l) = false
     ∧ st' = mkState (<[substring_from 6 l := []]> (ranges st))
                     (Some (substring_from 6 l)))
  ∨ (startsWith l "+++ b/" = true ∧ substring_from 6 l ≠ "/dev/null"
     ∧ getProperty (ranges st) (substring_from 6 l) ≠ Undefined
     ∧ st' = mkState (ranges st) (Some (substring_from 6 l)))
  ∨ (startsWith l "+++ b/" = false
     ∧ (∃ f rs range,
          currentFile st = Some f ∧ startsWith l "@@" = true ∧ truthy f = true
          ∧ hunk_range l = Normal (Some range) ∧ ranges st !! f = Some rs
          ∧ st' = mkState (<[f := rs ++ [range]]> (ranges st)) (Some f)))
  ∨ (startsWith l "+++ b/" = false ∧ st' = st
     ∧ ∀ f, currentFile st = Some f → startsWith l "@@" = true →
            truthy f = true → hunk_range l = Normal None).
Proof.
  unfold parse_line. intros H.
  destruct (startsWith l "+++ b/") eqn:Hh.
  - destruct (String.eqb_spec (substring_from 6 l) "/dev/null") as [Hdev|Hdev].
    + left. by simplify_eq.
    + right. destruct (getProperty (ranges st) (substring_from 6 l)) eqn:Hp.
      * right. left. by simplify_eq.
      * right. left. by simplify_eq.
      * left. apply getProperty_Undefined in Hp as [? ?]. by simplify_eq.
  - do 3 right.
    destruct (currentFile st) as [f|] eqn:Hf; [|right; by simplify_eq].
    destruct (startsWith l "@@" && truthy f) eqn:Hb.
    + apply andb_true_iff in Hb as [Hat Ht].
      destruct (hunk_range l) as [[range|]| |] eqn:Hr;
        cbn [mbind Completion_bind] in H; [| |done..].
      * left. destruct (getProperty (ranges st) f) as [rs| |] eqn:Hp; [|done..].
        apply getProperty_Own in Hp. simplify_eq.
        split; [done|]. by exists f, rs, range.
      * right. simplify_eq. split; [done|]. split; [done|].
        by intros f' [= <-] _ _.
    + right. simplify_eq. split; [done|]. split; [done|].
      intros f' [= <-] Hat Ht. by rewrite Hat, Ht in Hb.
Qed.

Lemma initial_cursorHasEntry : cursorHasEntry initial_state.
Proof. intros f H. discriminate H. Qed.

Lemma initial_cursorOwnsEntry : cursorOwnsEntry initial_state.
Proof. intros f H. discriminate H. Qed.

(** After an iteration that completes, the cursor points at an entry
    unless it points at an inherited name. *)
Lemma parse_line_cursorHasEntry (st st' : ParserState) (l : string) :
  cursorHasEntry st → parse_line st l = Normal st' → cursorHasEntry st'.
Proof.
  intros Hst H f Hf Hname.
  destruct (parse_line_Normal _ _ _ H)
    as [(_ & _ & ->)|[(_ & _ & _ & _ & ->)|[(_ & _ & Hp & ->)
       |[(_ & f0 & rs & range & Hf0 & _ & _ & _ & Hrs & ->)|(_ & -> & _)]]]];
    simpl in *.
  - done.
  - injection Hf as <-. by rewrite lookup_insert_eq.
  - injection Hf as <-. unfold getProperty in Hp.
    destruct (ranges st !! substring_from 6 l); [done|]. by rewrite Hname in Hp.
  - injection Hf as <-. by rewrite lookup_insert_eq.
  - by apply Hst.
Qed.

Lemma parse_lines_cursorHasEntry (ls : list string) (st : ParserState) :
  parse_lines initial_state ls = Normal st → cursorHasEntry st.
Proof.
  assert (∀ st0, cursorHasEntry st0 → parse_lines st0 ls = Normal st →
                 cursorHasEntry st) as Hgen; [|apply Hgen, initial_cursorHasEntry].
  induction ls as [|l ls IH]; intros st0 Hst0 H.
  - by injection H as <-.
  - apply parse_lines_cons in H as (st1 & H1 & H).
    apply (IH st1); [|done]. by apply (parse_line_cursorHasEntry st0 st1 l).
Qed.

(** Plain lines never stop a parse, and keep the cursor on an entry. *)
Lemma parse_line_completes (st : ParserState) (l : string) :
  cursorOwnsEntry st → plainLine l = true →
  ∃ st', parse_line st l = Normal st' ∧ cursorOwnsEntry st'.
Proof.
  intros Hst Hl. unfold parse_line, plainLine in *.
  destruct (startsWith l "+++ b/").
  - destruct (String.eqb _ _).
    + eexists; split; [done|]. intros f H. discriminate H.
    + eexists; split; [done|]. intros f H. simpl in *. injection H as <-.
      apply negb_true_iff in Hl. unfold getProperty. rewrite Hl.
      destruct (ranges st !! substring_from 6 l) eqn:E;
        [by rewrite E|by rewrite lookup_insert_eq].
  - destruct (currentFile st) as [f|] eqn:Hcur; [|by exists st].
    destruct (startsWith l "@@" && truthy f); [|by exists st].
    destruct (hunk_range l) as [[range|]| |]; [| |done..];
      cbn [mbind Completion_bind]; [|by exists st].
    destruct (Hst f Hcur) as [rs Hrs].
    rewrite (proj2 (getProperty_Own _ _ _) Hrs).
    eexists; split; [done|]. intros f' H. simpl in *.
    destruct (decide (f = f')) as [->|Hne].
    + by rewrite lookup_insert_eq.
    + rewrite lookup_insert_ne; [|done]. apply Hst. congruence.
Qed.

Lemma parse_lines_completes (st : ParserState) (ls : list string) :
  cursorOwnsEntry st → forallb plainLine ls = true →
  ∃ st', parse_lines st ls = Normal st' ∧ cursorOwnsEntry st'.
Proof.
  revert st. induction ls as [|l ls IH]; intros st Hst Hls.
  - by exists st.
  - cbn [forallb] in Hls. apply andb_true_iff in Hls as [Hl Hls].
    destruct (parse_line_completes st l Hst Hl) as (st1 & H1 & Hst1).
    destruct (IH st1 Hst1 Hls) as (st' & H' & Hst').
    exists st'. split; [|done]. apply parse_lines_cons. by exists st1.
Qed.

(** The header branch on the header of [path]. *)
Lemma parse_line_header (st : ParserState) (path : string) :
  parse_line st (newFileHeader path)
  = if String.eqb path "/dev/null" then Normal (mkState (ranges st) None)
    else Normal (mkState (match getProperty (ranges st) path with
                          | Undefined => <[path := []]> (ranges st)
                          | _ => ranges st
                          end) (Some path)).
Proof.
  unfold parse_line.
  replace (startsWith (newFileHeader path) "+++ b/") with true by done.
  by replace (substring_from 6 (newFileHeader path)) with path by done.
Qed.

Lemma header_line_inv (l : string) :
  startsWith l "+++ b/" = true → l = newFileHeader (substring_from 6 l).
Proof. intros H. exact (startsWith_inv _ _ H). Qed.

(** The keys after one iteration: those before, and the path of the line
    when the line is a header, not the one of [/dev/null] and not the one
    of an inherited name. *)
Lemma parse_line_keys (st st' : ParserState) (l path : string) :
  parse_line st l = Normal st' →
  is_Some (ranges st' !! path)
  ↔ is_Some (ranges st !! path)
    ∨ (l = newFileHeader path ∧ path ≠ "/dev/null" ∧ inheritedName path = false).
Proof.
  intros H.
  destruct (parse_line_Normal _ _ _ H)
    as [(Hh & Hdev & ->)|[(Hh & Hdev & Hnone & Hname & ->)|[(Hh & Hdev & Hp & ->)
       |[(Hh & f & rs & range & _ & _ & _ & _ & Hrs & ->)|(Hh & -> & _)]]]];
    simpl.
  - split; [by left|]. intros [?|(-> & Hp & _)]; [done|].
    by change (path = "/dev/null") in Hdev.
  - apply header_line_inv in Hh.
    destruct (decide (substring_from 6 l = path)) as [Heq|Hne].
    + rewrite Heq, lookup_insert_eq. split; [|by eauto].
      intros _. right. by rewrite <- Heq.
    + rewrite lookup_insert_ne by done. split; [by left|].
      intros [?|(-> & _)]; [done|]. by change (path ≠ path) in Hne.
  - split; [by left|]. intros [?|(-> & _ & Hname)]; [done|].
    change (getProperty (ranges st) path ≠ Undefined) in Hp.
    unfold getProperty in Hp. rewrite Hname in Hp.
    by destruct (ranges st !! path).
  - assert (l ≠ newFileHeader path) as Hl.
    { intros ->. unfold newFileHeader in Hh. by rewrite startsWith_app in Hh. }
    destruct (decide (f = path)) as [->|Hne].
    + rewrite lookup_insert_eq, Hrs. split; [by eauto|by eauto].
    + rewrite lookup_insert_ne by done. split; [by left|by intros [?|[? _]]].
  - assert (l ≠ newFileHeader path) as Hl.
    { intros ->. unfold newFileHeader in Hh. by rewrite startsWith_app in Hh. }
    split; [by left|by intros [?|[? _]]].
Qed.

Lemma parse_lines_keys (ls : list string) (st st' : ParserState) (path : string) :
  parse_lines st ls = Normal st' →
  is_Some (ranges st' !! path)
  ↔ is_Some (ranges st !! path)
    ∨ (newFileHeader path ∈ ls ∧ path ≠ "/dev/null" ∧ inheritedName path = false).
Proof.
  revert st. induction ls as [|l ls IH]; intros st H.
  - injection H as <-. split; [by left|]. intros [?|[Hin _]]; [done|].
    by apply not_elem_of_nil in Hin.
  - apply parse_lines_cons in H as (st1 & H1 & H).
    rewrite (IH st1 H), (parse_line_keys st st1 l path H1), elem_of_cons.
    split; [intros [[?|[-> ?]]|[? ?]]|intros [?|[[<-|?] ?]]]; eauto.
Qed.

(** A list already recorded only grows at its end. *)
Lemma parse_line_grows (st st' : ParserState) (l path : string) (rs : list LineRange) :
  parse_line st l = Normal st' → ranges st !! path = Some rs →
  ∃ extra, ranges st' !! path = Some (rs ++ extra).
Proof.
  intros H Hpath.
  destruct (parse_line_Normal _ _ _ H)
    as [(_ & _ & ->)|[(_ & _ & Hnone & _ & ->)|[(_ & _ & _ & ->)
       |[(_ & f & rs' & range & _ & _ & _ & _ & Hrs & ->)|(_ & -> & _)]]]];
    simpl.
  - exists []. by rewrite app_nil_r.
  - exists []. rewrite app_nil_r. rewrite lookup_insert_ne; [done|].
    intros Heq. rewrite Heq in Hnone. congruence.
  - exists []. by rewrite app_nil_r.
  - destruct (decide (f = path)) as [->|Hne].
    + exists [range]. rewrite lookup_insert_eq. congruence.
    + exists []. rewrite app_nil_r. by rewrite lookup_insert_ne.
  - exists []. by rewrite app_nil_r.
Qed.

Lemma parse_lines_grows (ls : list string) (st st' : ParserState) (path : string)
    (rs : list LineRange) :
  parse_lines st ls = Normal st' → ranges st !! path = Some rs →
  ∃ extra, ranges st' !! path = Some (rs ++ extra).
Proof.
  revert st rs. induction ls as [|l ls IH]; intros st rs H Hrs.
  - injection H as <-. exists []. by rewrite app_nil_r.
  - apply parse_lines_cons in H as (st1 & H1 & H).
    destruct (parse_line_grows st st1 l path rs H1 Hrs) as [e1 He1].
    destruct (IH st1 _ H He1) as [e2 He2].
    exists (e1 ++ e2). by rewrite app_assoc.
Qed.

(** The hunk branch on a well-formed header, under a cursor. *)
Lemma parse_line_hunkHeader (st : ParserState) (file : string) (rs : list LineRange)
    (oldStart : string) (oldLen : option string)
    (newStart : string) (newLen : option string) (tail : string) :
  currentFile st = Some file → truthy file = true → ranges st !! file = Some rs →
  isNumeral oldStart = true → (∀ ds, oldLen = Some ds → isNumeral ds = true) →
  isNumeral newStart = true → (∀ ds, newLen = Some ds → isNumeral ds = true) →
  decimalValue newStart + declaredLength newLen ≤ 2 ^ 53 →
  parse_line st (hunkHeader oldStart oldLen newStart newLen tail)
  = Normal (if 0 <? declaredLength newLen
            then mkState (<[file := rs ++ [mkRange (decimalValue newStart)
                                    (decimalValue newStart + declaredLength newLen - 1)]]>
                            (ranges st)) (Some file)
            else st).
Proof.
  intros Hcur Hfile Hrs Hos Hol Hns Hnl Hsum. unfold parse_line.
  replace (startsWith (hunkHeader oldStart oldLen newStart newLen tail) "+++ b/")
    with false by done.
  replace (startsWith (hunkHeader oldStart oldLen newStart newLen tail) "@@")
    with true by done.
  rewrite Hcur, Hfile. simpl andb. cbv iota.
  rewrite hunk_range_header; [|done..]. cbn [mbind Completion_bind].
  destruct (0 <? declaredLength newLen); [|done].
  by rewrite (proj2 (getProperty_Own _ _ _) Hrs).
Qed.

(** ** The table, path by path *)

Lemma parse_line_cursor (st st' : ParserState) (l : string) :
  parse_line st l = Normal st' → currentFile st' = cursorAfter (currentFile st) l.
Proof.
  intros H. unfold cursorAfter.
  destruct (parse_line_Normal _ _ _ H)
    as [(-> & -> & ->)|[(-> & Hdev & _ & _ & ->)|[(-> & Hdev & _ & ->)
       |[(-> & f & rs & range & Hf & _ & _ & _ & _ & ->)|(-> & -> & _)]]]];
    simpl; try done.
  - by destruct (String.eqb_spec (substring_from 6 l) "/dev/null").
  - by destruct (String.eqb_spec (substring_from 6 l) "/dev/null").
Qed.

Lemma parse_line_contribution (st st' : ParserState) (l path : string) :
  parse_line st l = Normal st' →
  default [] (ranges st' !! path)
  = default [] (ranges st !! path) ++ contribution path (currentFile st) l.
Proof.
  intros H. unfold contribution.
  destruct (parse_line_Normal _ _ _ H)
    as [(-> & _ & ->)|[(-> & _ & Hnone & _ & ->)|[(-> & _ & _ & ->)
       |[(-> & f & rs & range & Hf & Hat & Ht & Hr & Hrs & ->)|(-> & -> & Hsame)]]]];
    cbn [ranges currentFile]; cbv iota.
  - by rewrite app_nil_r.
  - rewrite app_nil_r. destruct (decide (substring_from 6 l = path)) as [<-|Hne].
    + by rewrite lookup_insert_eq, Hnone.
    + by rewrite lookup_insert_ne.
  - by rewrite app_nil_r.
  - rewrite Hf, Hat, Ht, Hr. cbn [rangeOf].
    destruct (bool_decide_reflect (f = path)) as [Hp|Hp]; cbn [andb].
    + subst f. by rewrite lookup_insert_eq, Hrs.
    + rewrite lookup_insert_ne; [|done]. by rewrite app_nil_r.
  - destruct (currentFile st) as [f|]; [|by rewrite app_nil_r].
    destruct (bool_decide (f = path) && startsWith l "@@" && truthy f) eqn:Hb;
      [|by rewrite app_nil_r].
    apply andb_true_iff in Hb as [[_ Hat]%andb_true_iff Ht].
    rewrite (Hsame f eq_refl Hat Ht). by rewrite app_nil_r.
Qed.

Lemma parse_lines_contributions (ls : list string) (st st' : ParserState)
    (path : string) :
  parse_lines st ls = Normal st' →
  default [] (ranges st' !! path)
  = default [] (ranges st !! path) ++ survivingRanges path (currentFile st) ls.
Proof.
  revert st. induction ls as [|l ls IH]; intros st H.
  - injection H as <-. simpl. by rewrite app_nil_r.
  - apply parse_lines_cons in H as (st1 & H1 & H).
    rewrite (IH st1 H), (parse_line_contribution st st1 l path H1).
    rewrite (parse_line_cursor st st1 l H1). simpl. by rewrite app_assoc.
Qed.

Lemma parseDiff_Normal (diff : string) (table : gmap string (list LineRange)) :
  parseDiffToValidLineRanges diff = Normal table
  ↔ ∃ st, parse_lines initial_state (split_lines diff) = Normal st
          ∧ table = ranges st.
Proof.
  unfold parseDiffToValidLineRanges. rewrite bind_Normal.
  split; intros (st & H & Ht); exists st; (split; [done|]); congruence.
Qed.

(** ** C2, C3, C4, C10: the diff parser *)

(** C2. After the header of a file named [constructor] a current file is
    set, and the hunk header that follows appends no range: for that path
    [ranges[currentFile]] is the function that every object inherits, the
    header created no entry, and the call of [push] throws.  The same hunk
    header after the header of [src/a.ts] gives the table of scenario 1. *)
Theorem hunk_under_inherited_name_throws :
  parse_line initial_state "+++ b/constructor"
  = Normal (mkState ∅ (Some "constructor"))
  ∧ parse_line (mkState ∅ (Some "constructor")) "@@ -1,3 +1,5 @@" = TypeError
  ∧ parseDiffToValidLineRanges ("+++ b/constructor" +:+ lf +:+ "@@ -1,3 +1,5 @@")
    = TypeError
  ∧ parseDiffToValidLineRanges ("+++ b/src/a.ts" +:+ lf +:+ "@@ -1,3 +1,5 @@")
    = Normal {[ "src/a.ts" := [mkRange 1 5] ]}.
Proof. repeat split; vm_compute; reflexivity. Qed.

(** The header [+++ b/] sets the cursor to the empty path, which the hunk
    branch takes for no cursor: the entry stays empty. *)
Example hunk_under_empty_path :
  parseDiffToValidLineRanges ("+++ b/" +:+ lf +:+ "@@ -1 +1 @@")
  = Normal {[ "" := [] ]}.
Proof. vm_compute; reflexivity. Qed.

(** C3. The diff made of the line [+++ b/constructor] holds a new-file
    header whose target is not [/dev/null], and the table that the code
    returns has no key: [ranges[currentFile]] is truthy for the name of an
    inherited property, so the entry is not created.  The header of
    [src/a.ts] alone gives the entry with the empty list. *)
Theorem inherited_name_header_gives_no_key :
  newFileHeader "constructor" ∈ split_lines "+++ b/constructor"
  ∧ parseDiffToValidLineRanges "+++ b/constructor" = Normal ∅
  ∧ parseDiffToValidLineRanges "+++ b/src/a.ts" = Normal {[ "src/a.ts" := [] ]}.
Proof.
  split; [apply list_elem_of_singleton; reflexivity|].
  split; vm_compute; reflexivity.
Qed.

(** C4. On the diff made of the line [+++ b/dev/null] and a hunk header the
    code records the entry [dev/null] with the range of the hunk: the
    guard compares the text after [+++ b/] with [/dev/null]. *)
Theorem dev_null_header_creates_entry :
  parseDiffToValidLineRanges ("+++ b/dev/null" +:+ lf +:+ "@@ -1,3 +1,5 @@")
  = Normal {[ "dev/null" := [mkRange 1 5] ]}
  ∧ parse_line initial_state "+++ b/dev/null"
    = Normal (mkState {[ "dev/null" := [] ]} (Some "dev/null"))
  ∧ parseDiffToValidLineRanges ("+++ b//dev/null" +:+ lf +:+ "@@ -1,3 +1,5 @@")
    = Normal ∅.
Proof. by vm_compute. Qed.

(** C10. During one parse the list recorded for a path only grows at its
    end: what was recorded after a prefix of the lines is a prefix of what
    is recorded after more lines, whenever the parse gets that far, and it
    does when no line names a file like an inherited property or holds a
    number beyond 2^53; a second header for a path that has an entry
    leaves the table as it is and sets the cursor, and a hunk header that
    follows appends to the list already there. *)
Theorem ranges_grow_monotonically (pre post : list string) (st1 : ParserState)
    (path : string) (rs : list LineRange) :
  parse_lines initial_state pre = Normal st1 →
  ranges st1 !! path = Some rs →
  (∀ st2, parse_lines initial_state (pre ++ post) = Normal st2 →
     ∃ extra, ranges st2 !! path = Some (rs ++ extra))
  ∧ (forallb plainLine (pre ++ post) = true →
     ∃ st2 extra,
       parse_lines initial_state (pre ++ post) = Normal st2
       ∧ ranges st2 !! path = Some (rs ++ extra))
  ∧ (path ≠ "/dev/null" →
     parse_line st1 (newFileHeader path) = Normal (mkState (ranges st1) (Some path))
     ∧ ∀ oldStart oldLen newStart newLen tail,
         truthy path = true →
         isNumeral oldStart = true → (∀ ds, oldLen = Some ds → isNumeral ds = true) →
         isNumeral newStart = true → (∀ ds, newLen = Some ds → isNumeral ds = true) →
         0 < declaredLength newLen →
         decimalValue newStart + declaredLength newLen ≤ 2 ^ 53 →
         parse_lines st1 [newFileHeader path;
                          hunkHeader oldStart oldLen newStart newLen tail]
         = Normal (mkState
                     (<[path := rs ++ [mkRange (decimalValue newStart)
                                (decimalValue newStart + declaredLength newLen - 1)]]>
                        (ranges st1))
                     (Some path))).
Proof.
  intros Hpre Hrs.
  assert (∀ st2, parse_lines initial_state (pre ++ post) = Normal st2 →
            ∃ extra, ranges st2 !! path = Some (rs ++ extra)) as Hgrow.
  { intros st2 H. apply parse_lines_app_Normal in H as (st1' & H1 & H2).
    rewrite Hpre in H1. injection H1 as <-.
    exact (parse_lines_grows post st1 st2 path rs H2 Hrs). }
  split; [done|]. split.
  - intros Hplain.
    destruct (parse_lines_completes initial_state (pre ++ post)
                initial_cursorOwnsEntry Hplain) as (st2 & H2 & _).
    destruct (Hgrow st2 H2) as [extra He]. by exists st2, extra.
  - intros Hdev.
    assert (parse_line st1 (newFileHeader path)
            = Normal (mkState (ranges st1) (Some path))) as Hhead.
    { rewrite parse_line_header, (proj2 (getProperty_Own _ _ _) Hrs).
      by destruct (String.eqb_spec path "/dev/null"). }
    split; [done|].
    intros oldStart oldLen newStart newLen tail Hp Hos Hol Hns Hnl Hlen Hsum.
    cbn [parse_lines]. rewrite Hhead. cbn [mbind Completion_bind].
    rewrite (parse_line_hunkHeader _ path rs); [|done..].
    apply Z.ltb_lt in Hlen. by rewrite Hlen.
Qed.

(** The hypotheses of C10 hold on a diff that names the file [a] twice. *)
Lemma ranges_grow_monotonically_witness :
  (∃ st2 extra,
     parse_lines initial_state
       (["+++ b/a"; "@@ -1 +1,2 @@"] ++ ["+++ b/a"; "@@ -5 +7 @@"]) = Normal st2
     ∧ ranges st2 !! "a" = Some ([mkRange 1 2] ++ extra))
  ∧ parse_lines initial_state
      (["+++ b/a"; "@@ -1 +1,2 @@"] ++ ["+++ b/a"; "@@ -5 +7 @@"])
    = Normal (mkState {[ "a" := [mkRange 1 2; mkRange 7 7] ]} (Some "a")).
Proof.
  split; [|vm_compute; reflexivity].
  apply (ranges_grow_monotonically
           ["+++ b/a"; "@@ -1 +1,2 @@"] ["+++ b/a"; "@@ -5 +7 @@"]
           (mkState {[ "a" := [mkRange 1 2] ]} (Some "a")) "a" [mkRange 1 2]).
  - vm_compute; reflexivity.
  - vm_compute; reflexivity.
  - vm_compute; reflexivity.
Defined.

(** ** C1: the validator *)

Lemma isInRange_spec (item : ReviewImprovement) (rs : list LineRange) :
  isInRange item rs = true ↔ ∃ r, r ∈ rs ∧ start r ≤ line item ≤ end_ r.
Proof.
  unfold isInRange. rewrite existsb_exists. split.
  - intros (r & Hin & Hr). exists r. apply andb_true_iff in Hr as [H1 H2].
    rewrite list_elem_of_In. split; [done|]. lia.
  - intros (r & Hin & Hr). exists r. rewrite <- list_elem_of_In. split; [done|].
    apply andb_true_iff. split; lia.
Qed.

Lemma liesInRange_spec (table : gmap string (list LineRange))
    (item : ReviewImprovement) :
  liesInRange table item = true ↔ inSomeRange table item.
Proof.
  unfold liesInRange, inSomeRange.
  destruct (table !! file item) as [rs|].
  - rewrite isInRange_spec. split; [by exists rs|].
    by intros (rs' & [= <-] & H).
  - split; [done|]. by intros (rs & ? & _).
Qed.

(** The callback throws on a finding whose file the table does not own and
    every object inherits, and answers on every other finding. *)
Lemma keepImprovement_cases (table : gmap string (list LineRange))
    (item : ReviewImprovement) :
  keepImprovement table item
  = if namesInherited table item then TypeError
    else Normal (liesInRange table item).
Proof.
  unfold keepImprovement, namesInherited, liesInRange, getProperty.
  destruct (table !! file item); [done|]. by destruct (inheritedName (file item)).
Qed.

Lemma Array_filter_Normal {A} (callback : A → Completion bool) (q : A → bool)
    (array : list A) :
  (∀ x, x ∈ array → callback x = Normal (q x)) →
  Array_filter callback array = Normal (List.filter q array).
Proof.
  induction array as [|x array IH]; intros H; [done|].
  cbn [Array_filter List.filter]. rewrite (H x) by apply list_elem_of_here.
  cbn [mbind Completion_bind].
  rewrite IH by (intros y Hy; apply H; by apply list_elem_of_further).
  done.
Qed.

Lemma Array_filter_TypeError {A} (callback : A → Completion bool) (array : list A) :
  (∀ x, x ∈ array → callback x ≠ Inexact) →
  (∃ x, x ∈ array ∧ callback x = TypeError) →
  Array_filter callback array = TypeError.
Proof.
  induction array as [|x array IH]; intros Hex (y & Hy & Hthrow).
  - by apply not_elem_of_nil in Hy.
  - cbn [Array_filter].
    destruct (callback x) as [keep| |] eqn:Hx; cbn [mbind Completion_bind].
    + rewrite IH; [done| |].
      * intros z Hz. apply Hex. by apply list_elem_of_further.
      * apply elem_of_cons in Hy as [->|Hy]; [congruence|by exists y].
    + done.
    + exfalso. apply (Hex x); [apply list_elem_of_here|done].
Qed.

Lemma filter_sublist {A} (p : A → bool) (l : list A) : sublist (List.filter p l) l.
Proof.
  induction l as [|x l IH]; simpl; [done|].
  destruct (p x); by constructor.
Qed.

(** What the validator does, for every table and every review. *)
Lemma validImprovements_cases (table : gmap string (list LineRange))
    (review : Review) :
  validImprovements table review
  = if existsb (namesInherited table) (improvements review) then TypeError
    else Normal (List.filter (liesInRange table) (improvements review)).
Proof.
  unfold validImprovements.
  destruct (existsb (namesInherited table) (improvements review)) eqn:E.
  - apply existsb_exists in E as (x & Hx & Hn). apply Array_filter_TypeError.
    + intros y _. rewrite keepImprovement_cases.
      by destruct (namesInherited table y).
    + exists x. rewrite list_elem_of_In. split; [done|].
      by rewrite keepImprovement_cases, Hn.
  - apply Array_filter_Normal. intros x Hx. rewrite keepImprovement_cases.
    destruct (namesInherited table x) eqn:Hn; [|done].
    assert (existsb (namesInherited table) (improvements review) = true)
      as Ht; [|congruence].
    apply existsb_exists. exists x. by rewrite <- list_elem_of_In.
Qed.

(** C1. A finding on the file [toString], which the table of scenario 1
    does not list, is not dropped: [changedLineRanges[item.file]] is the
    function that every object inherits, and the call of [some] on it
    throws, so the validation ends without a review.  A finding on a file
    that the table does not list and no object inherits is dropped. *)
Theorem finding_on_inherited_name_throws :
  let table : gmap string (list LineRange) := {[ "src/a.ts" := [mkRange 1 5] ]} in
  let finding := mkImprovement 1 "toString" "Style" "c" None in
  parseDiffToValidLineRanges ("+++ b/src/a.ts" +:+ lf +:+ "@@ -1,3 +1,5 @@")
  = Normal table
  ∧ table !! file finding = None
  ∧ keepImprovement table finding = TypeError
  ∧ validReview table (mkReview [] [finding]) = TypeError
  ∧ validReview table (mkReview [] [mkImprovement 1 "src/b.ts" "Style" "c" None])
    = Normal (mkReview [] []).
Proof. repeat split; vm_compute; reflexivity. Qed.

(** Scenario 3 on the table of scenario 1. *)
Example validator_scenario3 :
  validImprovements {[ "src/a.ts" := [mkRange 1 5] ]}
    (mkReview [] [mkImprovement 10 "src/a.ts" "Style" "far" None;
                  mkImprovement 3 "src/a.ts" "Style" "near" None;
                  mkImprovement 3 "src/b.ts" "Style" "other" None])
  = Normal [mkImprovement 3 "src/a.ts" "Style" "near" None].
Proof. by vm_compute. Qed.

(** ** C5: the deep links *)

(** The model of the digest on the test vectors of FIPS 180-4 and on a path. *)
Example sha1_empty : sha1 "" = "da39a3ee5e6b4b0d3255bfef95601890afd80709".
Proof. by vm_compute. Qed.

Example sha1_abc : sha1 "abc" = "a9993e364706816aba3e25717850c26c9cd0d89d".
Proof. by vm_compute. Qed.

Example sha1_two_blocks :
  sha1 "abcdbcdecdefdefgefghfghighijhijkijkljklmklmnlmnomnopnopq"
  = "84983e441c3bd26ebaae4aa1f95129e5e54670f1".
Proof. by vm_compute. Qed.

Example sha1_path : sha1 "src/a.ts" = "21ff24dd18cc19d35de15a120639695824655b58".
Proof. by vm_compute. Qed.

Lemma be_bytes_length (count : nat) (x : N) :
  length (WebCrypto.be_bytes count x) = count.
Proof.
  unfold WebCrypto.be_bytes.
  by rewrite length_map, length_rev, length_seq.
Qed.

Lemma be_bytes_bound (count : nat) (x b : N) :
  b ∈ WebCrypto.be_bytes count x → (b < 256)%N.
Proof.
  unfold WebCrypto.be_bytes. rewrite list_elem_of_fmap.
  intros (i & -> & _).
  change 255%N with (N.ones 8). rewrite N.land_ones.
  by apply N.mod_lt.
Qed.

Lemma digest_SHA1_length (msg : list N) :
  length (WebCrypto.digest_SHA1 msg) = 20%nat.
Proof.
  unfold WebCrypto.digest_SHA1. by rewrite !length_app, !be_bytes_length.
Qed.

Lemma digest_SHA1_bytes (msg : list N) (b : N) :
  b ∈ WebCrypto.digest_SHA1 msg → (b < 256)%N.
Proof.
  unfold WebCrypto.digest_SHA1. rewrite !elem_of_app.
  intros [H|[H|[H|[H|H]]]]; by apply be_bytes_bound in H.
Qed.

Lemma hexByteOk_all : forallb hexByteOk (map N.of_nat (seq 0 256)) = true.
Proof. by vm_compute. Qed.

Lemma hex_byte (b : N) :
  (b < 256)%N →
  padStart 2 "0" (Number_toString16 b)
  = String (hexDigit (b / 16)) (String (hexDigit (b mod 16)) "")
  ∧ isLowerHex (hexDigit (b / 16)) = true
  ∧ isLowerHex (hexDigit (b mod 16)) = true.
Proof.
  intros Hb. pose proof hexByteOk_all as Hall.
  rewrite forallb_forall in Hall.
  assert (hexByteOk b = true) as Hok.
  { apply Hall. rewrite in_map_iff. exists (N.to_nat b).
    split; [apply N2Nat.id|]. apply in_seq. lia. }
  unfold hexByteOk in Hok. rewrite !andb_true_iff in Hok.
  destruct Hok as [[H1 H2] H3]. by apply bool_decide_eq_true in H1.
Qed.

Lemma hex_of_bytes_spec (bs : list N) :
  (∀ b, b ∈ bs → (b < 256)%N) →
  String.length (hex_of_bytes bs) = (2 * length bs)%nat
  ∧ all_chars isLowerHex (hex_of_bytes bs) = true.
Proof.
  induction bs as [|b bs IH]; intros Hbs; [done|].
  destruct (hex_byte b) as (Hb & H1 & H2); [apply Hbs; by left|].
  destruct IH as [IH1 IH2]; [intros b' Hb'; apply Hbs; by right|].
  simpl. rewrite Hb. simpl. rewrite IH1, IH2, H1, H2. split; [lia|done].
Qed.

Lemma sha1_spec (str : string) :
  String.length (sha1 str) = 40%nat ∧ all_chars isLowerHex (sha1 str) = true.
Proof.
  unfold sha1.
  destruct (hex_of_bytes_spec (WebCrypto.digest_SHA1 (TextEncoder_encode str)))
    as [H1 H2]; [apply digest_SHA1_bytes|].
  by rewrite H1, digest_SHA1_length.
Qed.

Lemma deepLink_unfold (prData : PrData) (item : ReviewImprovement) :
  deepLink prData item
  = linkPrefix prData +:+ sha1 (file item) +:+ "R" +:+ Number_toString (line item).
Proof.
  unfold deepLink, linkPrefix. by rewrite !string_app_assoc.
Qed.


Example deep_link_scenario :
  linkedImprovements (mkPrData "acme" "widget" 42)
    [mkImprovement 3 "src/a.ts" "Style" "near" None]
  = [mkImprovement 3 "src/a.ts" "Style" "near"
       (Some "https://github.com/acme/widget/pull/42/files#diff-21ff24dd18cc19d35de15a120639695824655b58R3")].
Proof. by vm_compute. Qed.

(** ** C6, C7: the review pipeline *)

Section Pipeline.

Variable endpoint : GenerateContentRequest → option string.
Variables apiKey title body diff readmeContent masterFilesContent model : string.

Let r1 := contextRequest model title body diff readmeContent masterFilesContent.
Let e1 := contextEntry title body diff readmeContent masterFilesContent.

(** The run, stage by stage, from an empty trace. *)
Lemma generateReview_trace :
  truthy apiKey = true →
  generateReview endpoint apiKey title body diff readmeContent masterFilesContent
                 model []
  = match endpoint r1 with
    | None => (Thrown (RequestFailed r1), [Requested r1])
    | Some s1 =>
        let r2 := initialRequest model s1 diff in
        match endpoint r2 with
        | None =>
            (Thrown (RequestFailed r2), [Requested r1; Logged (e1 s1); Requested r2])
        | Some s2 =>
            let r3 := refinementRequest model s1 s2 diff in
            match endpoint r3 with
            | None =>
                (Thrown (RequestFailed r3),
                 [Requested r1; Logged (e1 s1); Requested r2;
                  Logged (initialEntry s1 diff s2); Requested r3])
            | Some s3 =>
                (match JSON.parse s3 with
                 | Some v => Returned (v, s1)
                 | None => Thrown (SyntaxError s3)
                 end,
                 [Requested r1; Logged (e1 s1); Requested r2;
                  Logged (initialEntry s1 diff s2); Requested r3;
                  Logged (refinementEntry s1 s2 diff s3)])
            end
        end
    end.
Proof.
  intros Hkey. unfold generateReview. rewrite Hkey. simpl negb. cbv iota.
  unfold mbind, Run_bind, generateContent, logInteraction, JSON_parse.
  fold r1. destruct (endpoint r1) as [s1|]; [|done].
  simpl. destruct (endpoint (initialRequest model s1 diff)) as [s2|]; [|done].
  simpl. destruct (endpoint (refinementRequest model s1 s2 diff)) as [s3|]; [|done].
  simpl. by destruct (JSON.parse s3).
Qed.

End Pipeline.

(** C6, as stated, fails: a stage-2 response that is not valid against the
    schema is logged and handed to stage 3, whose request is made; the run
    goes on and here returns a review, with three requests and three log
    entries. *)
Lemma stage2_invalid_response_reaches_stage3 :
  let endpoint := stubEndpoint "summary" "d" "oops" emptyReviewText in
  let run := generateReview endpoint "key" "t" "b" "d" "r" "f" "m" [] in
  endpoint (initialRequest "m" "summary" "d") = Some "oops"
  ∧ valid_against jsonSchemaReview "oops" = false
  ∧ run.1 = Returned (JSON.JObject [(codeUnits "strengths", JSON.JArray []);
                                    (codeUnits "improvements", JSON.JArray [])],
                      "summary")
  ∧ requestsOf run.2
    = [contextRequest "m" "t" "b" "d" "r" "f";
       initialRequest "m" "summary" "d";
       refinementRequest "m" "summary" "oops" "d"]
  ∧ length (apiLogs run.2) = 3%nat.
Proof. by vm_compute. Qed.

(** C6, amended. A stage's prompt and response are appended to the log when
    the response has arrived and before the next stage's request is made.
    When the stage-2 request fails the run ends with that failure, no
    stage-3 request is made and the log holds the stage-1 entry only.  A
    stage-2 response, valid against the schema or not, is logged and handed
    to stage 3.  The stage-3 entry is logged before its text is parsed. *)
Theorem stages_logged_before_next_request
    (endpoint : GenerateContentRequest → option string)
    (apiKey title body diff readmeContent masterFilesContent model : string) :
  truthy apiKey = true →
  let r1 := contextRequest model title body diff readmeContent masterFilesContent in
  let e1 := contextEntry title body diff readmeContent masterFilesContent in
  let run := generateReview endpoint apiKey title body diff readmeContent
                            masterFilesContent model [] in
  (endpoint r1 = None → run = (Thrown (RequestFailed r1), [Requested r1]))
  ∧ (∀ s1, endpoint r1 = Some s1 → endpoint (initialRequest model s1 diff) = None →
       run.1 = Thrown (RequestFailed (initialRequest model s1 diff))
       ∧ requestsOf run.2 = [r1; initialRequest model s1 diff]
       ∧ apiLogs run.2 = [e1 s1])
  ∧ (∀ s1 s2, endpoint r1 = Some s1 → endpoint (initialRequest model s1 diff) = Some s2 →
       ∃ rest,
         run.2 = [Requested r1; Logged (e1 s1);
                  Requested (initialRequest model s1 diff);
                  Logged (initialEntry s1 diff s2);
                  Requested (refinementRequest model s1 s2 diff)] ++ rest)
  ∧ (∀ s1 s2 s3, endpoint r1 = Some s1 →
       endpoint (initialRequest model s1 diff) = Some s2 →
       endpoint (refinementRequest model s1 s2 diff) = Some s3 →
       run.2 = [Requested r1; Logged (e1 s1);
                Requested (initialRequest model s1 diff);
                Logged (initialEntry s1 diff s2);
                Requested (refinementRequest model s1 s2 diff);
                Logged (refinementEntry s1 s2 diff s3)]).
Proof.
  intros Hkey r1 e1 run. subst run.
  rewrite (generateReview_trace endpoint _ _ _ _ _ _ _ Hkey). fold r1. fold e1.
  split; [by intros ->|]. split.
  { intros s1 -> H2. simpl. by rewrite H2. }
  split.
  { intros s1 s2 -> H2. simpl. rewrite H2.
    destruct (endpoint (refinementRequest model s1 s2 diff)); by eexists. }
  intros s1 s2 s3 -> H2 H3. simpl. by rewrite H2, H3.
Qed.

(** The amended C6 on an endpoint whose stage-2 call rejects. *)
Lemma stages_logged_before_next_request_witness :
  let run := generateReview (failingStage2 "summary") "key" "t" "b" "d" "r" "f" "m" [] in
  run.1 = Thrown (RequestFailed (initialRequest "m" "summary" "d"))
  ∧ requestsOf run.2
    = [contextRequest "m" "t" "b" "d" "r" "f"; initialRequest "m" "summary" "d"]
  ∧ apiLogs run.2 = [contextEntry "t" "b" "d" "r" "f" "summary"].
Proof.
  destruct (stages_logged_before_next_request
              (failingStage2 "summary") "key" "t" "b" "d" "r" "f" "m" eq_refl)
    as (_ & H & _).
  apply (H "summary"); reflexivity.
Defined.

(** C7, as stated, fails: the text [{}] is not valid against the review
    schema, and the pipeline returns its value as the review. *)
Lemma schema_invalid_final_response_is_returned :
  let endpoint := stubEndpoint "summary" "d" emptyReviewText "{}" in
  let run := generateReview endpoint "key" "t" "b" "d" "r" "f" "m" [] in
  endpoint (refinementRequest "m" "summary" emptyReviewText "d") = Some "{}"
  ∧ valid_against jsonSchemaReview "{}" = false
  ∧ run.1 = Returned (JSON.JObject [], "summary").
Proof. by vm_compute. Qed.

(** C7, amended. When the final response text is not syntactically valid
    JSON the pipeline fails with the parser's error and returns no review;
    each stage was requested once, nothing is retried or repaired.  A final
    text that is valid JSON is returned as the review, checked against no
    schema: a text that is not valid against the schema either fails to
    parse or is returned as a value that does not conform. *)
Theorem final_response_parse_failure_is_fatal
    (endpoint : GenerateContentRequest → option string)
    (apiKey title body diff readmeContent masterFilesContent model : string)
    (s1 s2 s3 : string) :
  truthy apiKey = true →
  let r1 := contextRequest model title body diff readmeContent masterFilesContent in
  let r2 := initialRequest model s1 diff in
  let r3 := refinementRequest model s1 s2 diff in
  endpoint r1 = Some s1 → endpoint r2 = Some s2 → endpoint r3 = Some s3 →
  let run := generateReview endpoint apiKey title body diff readmeContent
                            masterFilesContent model [] in
  requestsOf run.2 = [r1; r2; r3]
  ∧ (JSON.parse s3 = None → run.1 = Thrown (SyntaxError s3))
  ∧ (∀ v, JSON.parse s3 = Some v → run.1 = Returned (v, s1))
  ∧ (valid_against jsonSchemaReview s3 = false →
       run.1 = Thrown (SyntaxError s3)
       ∨ ∃ v, run.1 = Returned (v, s1) ∧ conforms jsonSchemaReview v = false).
Proof.
  intros Hkey r1 r2 r3 H1 H2 H3 run. subst run.
  rewrite (generateReview_trace endpoint _ _ _ _ _ _ _ Hkey).
  fold r1. rewrite H1. simpl. fold r2. rewrite H2. fold r3. rewrite H3. simpl.
  split; [done|]. split; [by intros ->|]. split; [by intros v ->|].
  unfold valid_against. destruct (JSON.parse s3) as [v|]; [|by left].
  intros Hv. right. by exists v.
Qed.

(** The amended C7 on a final response that is not JSON. *)
Lemma final_response_parse_failure_is_fatal_witness :
  let endpoint := stubEndpoint "summary" "d" emptyReviewText "oops" in
  let run := generateReview endpoint "key" "t" "b" "d" "r" "f" "m" [] in
  requestsOf run.2
  = [contextRequest "m" "t" "b" "d" "r" "f";
     initialRequest "m" "summary" "d";
     refinementRequest "m" "summary" emptyReviewText "d"]
  ∧ run.1 = Thrown (SyntaxError "oops").
Proof.
  destruct (final_response_parse_failure_is_fatal
              (stubEndpoint "summary" "d" emptyReviewText "oops")
              "key" "t" "b" "d" "r" "f" "m" "summary" emptyReviewText "oops"
              eq_refl) as (Hreq & Hfail & _).
  - vm_compute; reflexivity.
  - vm_compute; reflexivity.
  - vm_compute; reflexivity.
  - split; [exact Hreq|]. apply Hfail. vm_compute; reflexivity.
Defined.

(** ** C8: the URL parser *)

Lemma span_nonslash_app (seg r : string) :
  all_chars (fun c => negb (Ascii.eqb c "/")) seg = true → stopsSegment r = true →
  span_nonslash (seg +:+ r) = (seg, r).
Proof.
  intros Hs Hr. induction seg as [|c seg IH]; simpl in *.
  - destruct r as [|c r]; [done|]. simpl in *. by rewrite Hr.
  - apply andb_true_iff in Hs as [Hc Hs]. apply negb_true_iff in Hc.
    by rewrite Hc, (IH Hs).
Qed.

Lemma span_nonslash_inv (s seg r : string) :
  span_nonslash s = (seg, r) →
  s = seg +:+ r ∧ all_chars (fun c => negb (Ascii.eqb c "/")) seg = true
  ∧ stopsSegment r = true.
Proof.
  revert seg r. induction s as [|c s IH]; intros seg r H; simpl in H.
  - by inversion H.
  - destruct (Ascii.eqb c "/") eqn:Hc.
    + inversion H; subst. simpl. by rewrite Hc.
    + destruct (span_nonslash s) as [seg' r'] eqn:E.
      inversion H; subst. destruct (IH _ _ eq_refl) as (-> & Hs & Hr).
      simpl. by rewrite Hc, Hs.
Qed.

Lemma isSegment_inv (seg : string) :
  isSegment seg = true →
  truthy seg = true ∧ all_chars (fun c => negb (Ascii.eqb c "/")) seg = true.
Proof. unfold isSegment. by rewrite andb_true_iff. Qed.

(** The expression at one position, on a text of the form it describes. *)
Lemma url_regex_at_form (owner repo digits post : string) :
  isSegment owner = true → isSegment repo = true → isNumeral digits = true →
  ∃ more,
    url_regex_at ("github.com/" +:+ owner +:+ "/" +:+ repo +:+ "/pull/"
                    +:+ digits +:+ post)
    = Some (owner, repo, digits +:+ more)
    ∧ all_chars isDigit more = true
    ∧ (stopsDigits post = true → more = "").
Proof.
  intros Ho Hr Hd.
  destruct (isSegment_inv _ Ho) as [Ho1 Ho2].
  destruct (isSegment_inv _ Hr) as [Hr1 Hr2].
  destruct (isNumeral_inv _ Hd) as [Hd1 Hd2].
  destruct (span_digits (digits +:+ post)) as [ds r'] eqn:Hspan.
  destruct (span_digits_inv _ _ _ Hspan) as (Heq & Hds & Hstop).
  destruct (span_digits_prefix digits post Hd2) as (more & r'' & Hpre).
  rewrite Hspan in Hpre. simplify_eq.
  exists more. unfold url_regex_at.
  rewrite strip_prefix_app.
  rewrite span_nonslash_app; [|done..].
  rewrite Ho1. simpl negb. cbv iota.
  rewrite (strip_prefix_app "/").
  rewrite span_nonslash_app; [|done..].
  rewrite Hr1. simpl negb. cbv iota.
  rewrite strip_prefix_app, Hspan.
  rewrite (truthy_app digits more Hd1). simpl negb. cbv iota.
  split; [done|]. split.
  - clear -Hds. induction digits as [|c ds IH]; simpl in *; [done|].
    apply andb_true_iff in Hds as [_ Hds]. by apply IH.
  - intros Hpost. rewrite (span_digits_app digits post Hd2 Hpost) in Hspan.
    injection Hspan as Hdig _.
    rewrite <- (string_app_empty_r digits) in Hdig at 1.
    by apply (inj (String.append digits)) in Hdig.
Qed.

Lemma url_regex_at_inv (s owner repo digits : string) :
  url_regex_at s = Some (owner, repo, digits) →
  ∃ post,
    s = "github.com/" +:+ owner +:+ "/" +:+ repo +:+ "/pull/" +:+ digits +:+ post
    ∧ isSegment owner = true ∧ isSegment repo = true ∧ isNumeral digits = true.
Proof.
  unfold url_regex_at. intros H.
  destruct (strip_prefix "github.com/" s) as [s1|] eqn:H1; [|done].
  destruct (span_nonslash s1) as [g1 s2] eqn:H2.
  destruct (truthy g1) eqn:Hg1; [|done]. simpl negb in H. cbv iota in H.
  destruct (strip_prefix "/" s2) as [s3|] eqn:H3; [|done].
  destruct (span_nonslash s3) as [g2 s4] eqn:H4.
  destruct (truthy g2) eqn:Hg2; [|done]. simpl negb in H. cbv iota in H.
  destruct (strip_prefix "/pull/" s4) as [s5|] eqn:H5; [|done].
  destruct (span_digits s5) as [g3 s6] eqn:H6.
  destruct (truthy g3) eqn:Hg3; [|done]. simpl negb in H. cbv iota in H.
  injection H as <- <- <-.
  apply strip_prefix_inv in H1, H3, H5.
  apply span_nonslash_inv in H2 as (-> & Ho & _).
  apply span_nonslash_inv in H4 as (-> & Hr & _).
  apply span_digits_inv in H6 as (-> & Hd & _).
  exists s6. subst. unfold isSegment, isNumeral.
  by rewrite Hg1, Hg2, Hg3, Ho, Hr, Hd.
Qed.

Lemma url_regex_inv (s : string) (m : string * string * string) :
  url_regex s = Some m → ∃ pre s', s = pre +:+ s' ∧ url_regex_at s' = Some m.
Proof.
  induction s as [|c s IH]; intros H.
  - by vm_compute in H.
  - simpl in H. destruct (url_regex_at (String c s)) as [m'|] eqn:Hat.
    + simplify_eq. by exists "", (String c s).
    + destruct (IH H) as (pre & s' & -> & Hs'). by exists (String c pre), s'.
Qed.


Lemma url_regex_skip (c : ascii) (s : string) :
  c ≠ "g"%char → url_regex (String c s) = url_regex s.
Proof.
  intros Hc. simpl. unfold url_regex_at at 1. simpl.
  rewrite Ascii.eqb_sym. apply Ascii.eqb_neq in Hc. by rewrite Hc.
Qed.

Lemma url_regex_leftmost (s : string) (m : string * string * string) :
  url_regex_at s = Some m → url_regex s = Some m.
Proof.
  intros H. destruct s as [|c s]; [by vm_compute in H|].
  simpl. by rewrite H.
Qed.




(** ** C9: the snippet of a fix prompt *)

(** The window of [slice] when the upper bound is not negative: the lines
    of index [max 0 (line - 6)] up to, and without, [min length (line + 5)]. *)
Lemma snippet_window_lookup (lines : list string) (line : Z) (i : nat) :
  -5 ≤ line →
  let lineIndex := line - 1 in
  let first := Z.max 0 (lineIndex - contextLines) in
  let last := Z.min (Z.of_nat (length lines)) (lineIndex + contextLines + 1) in
  Array_slice lines first last !! i
  = if decide (first + Z.of_nat i < last)
    then lines !! (Z.to_nat first + i)%nat
    else None.
Proof.
  intros Hline lineIndex first last. unfold Array_slice, contextLines in *.
  assert (0 ≤ first) by lia. assert (0 ≤ last) by lia.
  assert (last ≤ Z.of_nat (length lines)) by lia.
  destruct (first <? 0) eqn:E1; [lia|]. destruct (last <? 0) eqn:E2; [lia|].
  rewrite (Z.min_l last) by lia.
  case_decide as Hi.
  - rewrite (Z.min_l first) by lia.
    rewrite lookup_take_lt by lia. by rewrite lookup_drop.
  - apply lookup_ge_None. rewrite length_take, length_drop. lia.
Qed.

(** C9. A pull request touches [src/my-component.ts] and
    [src/my.component.ts]; the snapshots are concatenated in that order and
    a finding on line 1 of [src/my.component.ts] passes the validator.  Its
    snippet is taken from the snapshot of the other file: the [.] of the
    path, pasted unescaped into the expression, matches the [-] of the
    first header.  The block under the header of the finding's own file is
    the one with [beta]. *)
Theorem snippet_taken_from_another_file :
  let finding := mkImprovement 1 "src/my.component.ts" "Style" "c" None in
  getChangedFilesContent twoFilesFetch twoFilesDiff "acme" "widget" "main"
  = twoSnapshots
  ∧ parseDiffToValidLineRanges twoFilesDiff
      ≫= (λ table, validImprovements table (mkReview [] [finding]))
    = Normal [finding]
  ∧ codeSnippet twoSnapshots finding = Some (Returned ("alpha" +:+ lf))
  ∧ fileBlockRegex (literalPattern "src/my.component.ts") twoSnapshots
    = Some ("beta" +:+ lf +:+ lf)
  ∧ codeSnippet (fileBlock "src/my.component.ts" "beta") finding
    = Some (Returned ("beta" +:+ lf +:+ lf)).
Proof. vm_compute. repeat split; reflexivity. Qed.

(** When no block matches, the handler throws and sends no request. *)
Lemma snapshot_not_found_throws (endpoint : GenerateContentRequest → option string)
    (apiKey masterFilesContent selectedModel : string)
    (improvement : ReviewImprovement) (pat : list PatternChar) (trace : list Event) :
  pathPattern (file improvement) = Some pat →
  fileBlockRegex pat masterFilesContent = None →
  ∃ run,
    handleGenerateCopilotPrompt endpoint apiKey masterFilesContent improvement
      selectedModel = Some run
    ∧ run trace
      = (Thrown (ErrorMessage ("Could not find content for file: "
                                 +:+ file improvement)), trace).
Proof.
  intros Hpat Hnone. unfold handleGenerateCopilotPrompt, codeSnippet.
  rewrite Hpat, Hnone. by eexists.
Qed.

(** ** Further properties of the diff parser *)

Lemma parse_line_ranges_bounds (st st' : ParserState) (l : string) :
  parse_line st l = Normal st' →
  (∀ path rs r, ranges st !! path = Some rs → r ∈ rs → 0 ≤ start r ≤ end_ r) →
  ∀ path rs r, ranges st' !! path = Some rs → r ∈ rs → 0 ≤ start r ≤ end_ r.
Proof.
  intros H Hst path rs r.
  destruct (parse_line_Normal _ _ _ H)
    as [(_ & _ & ->)|[(_ & _ & _ & _ & ->)|[(_ & _ & _ & ->)
       |[(_ & f & rs' & range & _ & _ & _ & Hr & Hrs & ->)|(_ & -> & _)]]]];
    cbn [ranges]; try apply Hst.
  - destruct (decide (substring_from 6 l = path)) as [->|Hne].
    + rewrite lookup_insert_eq. intros [= <-] Hin. by apply not_elem_of_nil in Hin.
    + rewrite lookup_insert_ne; [apply Hst|done].
  - destruct (decide (f = path)) as [->|Hne].
    + rewrite lookup_insert_eq. intros [= <-] Hin.
      apply elem_of_app in Hin as [Hin|Hin]; [by apply (Hst path rs')|].
      apply list_elem_of_singleton in Hin as ->. by apply hunk_range_bounds in Hr.
    + rewrite lookup_insert_ne; [apply Hst|done].
Qed.

Lemma parse_lines_ranges_bounds (ls : list string) (st st' : ParserState) :
  parse_lines st ls = Normal st' →
  (∀ path rs r, ranges st !! path = Some rs → r ∈ rs → 0 ≤ start r ≤ end_ r) →
  ∀ path rs r, ranges st' !! path = Some rs → r ∈ rs → 0 ≤ start r ≤ end_ r.
Proof.
  revert st. induction ls as [|l ls IH]; intros st H Hst.
  - by injection H as <-.
  - apply parse_lines_cons in H as (st1 & H1 & H).
    apply (IH st1 H). by apply (parse_line_ranges_bounds st st1 l).
Qed.

Lemma parsed_ranges_bounds (diff : string) (table : gmap string (list LineRange))
    (path : string) (rs : list LineRange) (r : LineRange) :
  parseDiffToValidLineRanges diff = Normal table →
  table !! path = Some rs → r ∈ rs → 0 ≤ start r ≤ end_ r.
Proof.
  intros H. apply parseDiff_Normal in H as (st & Hrun & ->).
  apply (parse_lines_ranges_bounds _ _ _ Hrun).
  intros p rs' r'. simpl. by rewrite lookup_empty.
Qed.



Lemma parse_line_irrelevant (st : ParserState) (l : string) :
  isRelevantLine l = false → parse_line st l = Normal st.
Proof.
  unfold isRelevantLine, parse_line. intros H.
  apply orb_false_iff in H as [-> ->].
  by destruct (currentFile st).
Qed.

(** X2. Only the lines that start with [+++ b/] or with [@@] count: the
    parse of a list of lines is the parse of those lines alone, from any
    state. *)
Theorem only_headers_and_hunks_count (st : ParserState) (ls : list string) :
  parse_lines st ls = parse_lines st (List.filter isRelevantLine ls).
Proof.
  revert st. induction ls as [|l ls IH]; intros st; [done|].
  cbn [List.filter parse_lines].
  destruct (isRelevantLine l) eqn:Hl.
  - cbn [parse_lines]. destruct (parse_line st l); [apply IH|done..].
  - rewrite (parse_line_irrelevant st l Hl). apply IH.
Qed.

(** X23. A hunk header seen while a current file is set, when the file is
    not named like an inherited property and the numbers of the header
    stay within 2^53, appends the range [newStart, newStart + newLen - 1]
    at the end of that file's list; an omitted length counts as 1 and
    gives a one-line range; a length of 0 contributes nothing. *)
Theorem hunk_header_appends_range (pre : list string) (st : ParserState) (file : string)
    (oldStart : string) (oldLen : option string)
    (newStart : string) (newLen : option string) (tail : string) :
  parse_lines initial_state pre = Normal st →
  currentFile st = Some file → truthy file = true → inheritedName file = false →
  isNumeral oldStart = true → (∀ ds, oldLen = Some ds → isNumeral ds = true) →
  isNumeral newStart = true → (∀ ds, newLen = Some ds → isNumeral ds = true) →
  decimalValue newStart + declaredLength newLen ≤ 2 ^ 53 →
  let header := hunkHeader oldStart oldLen newStart newLen tail in
  let first := decimalValue newStart in
  ∃ rs, ranges st !! file = Some rs ∧
    parse_lines initial_state (pre ++ [header])
    = Normal (if 0 <? declaredLength newLen
              then mkState (<[file := rs ++ [mkRange first
                                               (first + declaredLength newLen - 1)]]>
                              (ranges st)) (Some file)
              else st) ∧
    (newLen = None →
     parse_lines initial_state (pre ++ [header])
     = Normal (mkState (<[file := rs ++ [mkRange first first]]> (ranges st))
                       (Some file))) ∧
    (declaredLength newLen = 0 →
     parse_lines initial_state (pre ++ [header]) = Normal st).
Proof.
  intros Hpre Hcur Hfile Hname Hos Hol Hns Hnl Hsum header first.
  destruct (parse_lines_cursorHasEntry pre st Hpre file Hcur Hname) as [rs Hrs].
  exists rs. split; [done|].
  assert (parse_lines initial_state (pre ++ [header])
          = parse_line st header) as ->.
  { rewrite parse_lines_app, Hpre. cbn [mbind Completion_bind parse_lines].
    by destruct (parse_line st header). }
  unfold header.
  rewrite (parse_line_hunkHeader st file rs); [|done..].
  split; [done|]. split.
  - intros ->. simpl. subst first.
    by replace (decimalValue newStart + 1 - 1) with (decimalValue newStart) by lia.
  - by intros ->.
Qed.

Lemma hunk_header_appends_range_witness :
  ∃ rs,
    ranges (mkState {[ "src/a.ts" := [] ]} (Some "src/a.ts")) !! "src/a.ts" = Some rs
    ∧ parse_lines initial_state
        (["+++ b/src/a.ts"] ++ [hunkHeader "1" (Some "3") "1" (Some "5") ""])
      = Normal (mkState (<["src/a.ts" := rs ++ [mkRange 1 5]]> {[ "src/a.ts" := [] ]})
                        (Some "src/a.ts")).
Proof.
  destruct (hunk_header_appends_range
              ["+++ b/src/a.ts"] (mkState {[ "src/a.ts" := [] ]} (Some "src/a.ts"))
              "src/a.ts" "1" (Some "3") "1" (Some "5") "")
    as (rs & Hrs & Hrun & _).
  - vm_compute; reflexivity.
  - reflexivity.
  - reflexivity.
  - reflexivity.
  - reflexivity.
  - intros ds H. injection H as <-. reflexivity.
  - reflexivity.
  - intros ds H. injection H as <-. reflexivity.
  - vm_compute. discriminate.
  - exists rs. split; [exact Hrs|exact Hrun].
Defined.

(** The table of a diff, entry by entry. *)
Lemma parsed_table (diff : string) (table : gmap string (list LineRange)) :
  parseDiffToValidLineRanges diff = Normal table →
  ∀ path,
    table !! path
    = if decide (hasHeaderFor diff path ∧ inheritedName path = false)
      then Some (survivingRanges path None (split_lines diff))
      else None.
Proof.
  intros H path. apply parseDiff_Normal in H as (st & Hrun & ->).
  pose proof (parse_lines_keys _ _ _ path Hrun) as Hkeys.
  pose proof (parse_lines_contributions _ _ _ path Hrun) as Hc.
  simpl in Hkeys, Hc. rewrite lookup_empty in Hkeys, Hc. simpl in Hc.
  unfold hasHeaderFor. case_decide as Hh.
  - destruct (ranges st !! path) as [rs|] eqn:Hrs; [by rewrite <- Hc|].
    exfalso. assert (is_Some (@None (list LineRange))) as [? ?]; [|done].
    apply Hkeys. right. tauto.
  - destruct (ranges st !! path) as [rs|] eqn:Hrs; [|done].
    exfalso. apply Hh. destruct Hkeys as [Hk _].
    destruct Hk as [[? ?]|?]; [by eexists|done|tauto].
Qed.


(** ** Further properties of the validator and of [handleReview] *)

Lemma filter_idempotent {A} (p : A → bool) (l : list A) :
  List.filter p (List.filter p l) = List.filter p l.
Proof.
  induction l as [|x l IH]; simpl; [done|].
  destruct (p x) eqn:Hx; simpl; [|done]. by rewrite Hx, IH.
Qed.

Lemma existsb_filter_false {A} (p q : A → bool) (l : list A) :
  existsb p l = false → existsb p (List.filter q l) = false.
Proof.
  induction l as [|x l IH]; simpl; [done|].
  intros [Hx Hl]%orb_false_iff. destruct (q x); simpl; [|by apply IH].
  by rewrite Hx, IH.
Qed.

(** X25. The validator throws exactly when some finding names a file that
    the table does not list and every object inherits.  Otherwise it keeps
    exactly the findings whose file has an entry in the table with a range
    that contains their line; the findings kept are those of the review,
    unchanged and in their order; a finding that is dropped has its file
    absent from the table or its line outside every range of the file. *)
Theorem validator_retains_exactly (table : gmap string (list LineRange))
    (review : Review) :
  (existsb (namesInherited table) (improvements review) = true →
   validReview table review = TypeError)
  ∧ (existsb (namesInherited table) (improvements review) = false →
     ∃ out,
       validReview table review = Normal out
       ∧ strengths out = strengths review
       ∧ improvements out = List.filter (liesInRange table) (improvements review)
       ∧ sublist (improvements out) (improvements review)
       ∧ (∀ f, f ∈ improvements out ↔ f ∈ improvements review ∧ inSomeRange table f)
       ∧ (∀ f, f ∈ improvements review → f ∉ improvements out →
            table !! file f = None
            ∨ ∃ rs, table !! file f = Some rs
                    ∧ ∀ r, r ∈ rs → ¬ (start r ≤ line f ≤ end_ r))).
Proof.
  unfold validReview. rewrite validImprovements_cases. split; intros ->; [done|].
  cbn [mbind Completion_bind]. eexists. split; [done|]. cbn [strengths improvements].
  assert (∀ f, f ∈ List.filter (liesInRange table) (improvements review)
               ↔ f ∈ improvements review ∧ inSomeRange table f) as Hmem.
  { intros f. rewrite !list_elem_of_In, filter_In, liesInRange_spec. done. }
  split; [done|]. split; [done|]. split; [apply filter_sublist|]. split; [done|].
  intros f Hin Hout.
  destruct (table !! file f) as [rs|] eqn:Hrs; [right|by left].
  exists rs. split; [done|]. intros r Hr Hline. apply Hout, Hmem.
  split; [done|]. exists rs. split; [done|]. by exists r.
Qed.

(** X3. Validating a validated review changes nothing. *)
Theorem validator_idempotent (table : gmap string (list LineRange))
    (review : Review) :
  validReview table review ≫= validReview table = validReview table review.
Proof.
  unfold validReview at 2 3. rewrite validImprovements_cases.
  destruct (existsb (namesInherited table) (improvements review)) eqn:E; [done|].
  cbn [mbind Completion_bind]. unfold validReview.
  rewrite validImprovements_cases. cbn [improvements strengths].
  rewrite (existsb_filter_false _ _ _ E). cbn [mbind Completion_bind].
  by rewrite filter_idempotent.
Qed.

(** X4. When the parser returns a table for the diff and no finding names
    a file that the table does not list and every object inherits,
    [handleReview] gets to the review that it displays; it has the
    strengths of the pipeline's review, and its findings are the valid
    ones, each with its link.  Every finding displayed names a file that
    has a new-file header in the diff, lies in a surviving range of that
    file, has a line number that is not negative, and carries the deep
    link of the finding it comes from. *)
Theorem final_review_findings (prData : PrData) (diff : string) (aiReview : Review)
    (table : gmap string (list LineRange)) :
  parseDiffToValidLineRanges diff = Normal table →
  existsb (namesInherited table) (improvements aiReview) = false →
  ∃ final,
    finalReview prData diff aiReview = Normal final
    ∧ strengths final = strengths aiReview
    ∧ (length (improvements final) ≤ length (improvements aiReview))%nat
    ∧ ∀ item, item ∈ improvements final →
        hasHeaderFor diff (file item)
        ∧ (∃ r, r ∈ survivingRanges (file item) None (split_lines diff)
                ∧ start r ≤ line item ≤ end_ r)
        ∧ 0 ≤ line item
        ∧ ∃ orig, orig ∈ improvements aiReview
                  ∧ item = withLink prData orig
                  ∧ link item = Some (deepLink prData orig).
Proof.
  intros Hparse Hnames. pose proof (parsed_table diff table Hparse) as Htable.
  unfold finalReview, validReview. rewrite Hparse. cbn [mbind Completion_bind].
  rewrite validImprovements_cases, Hnames. cbn [mbind Completion_bind].
  eexists. split; [done|]. cbn [strengths improvements].
  split; [done|]. split.
  { unfold linkedImprovements.
    rewrite length_map. apply sublist_length, filter_sublist. }
  intros item Hitem. unfold linkedImprovements in Hitem.
  apply list_elem_of_fmap in Hitem as (orig & -> & Horig).
  rewrite list_elem_of_In, filter_In, liesInRange_spec in Horig.
  destruct Horig as [Hin (rs & Hrs & r & Hr & Hline)].
  assert (0 ≤ start r ≤ end_ r) as Hbounds.
  { by apply (parsed_ranges_bounds diff table (file orig) rs r Hparse). }
  rewrite Htable in Hrs. case_decide as Hh; [|done]. injection Hrs as <-.
  simpl. split; [tauto|]. split; [by exists r|].
  split; [lia|]. exists orig. by rewrite list_elem_of_In.
Qed.

Lemma final_review_findings_witness :
  ∃ final,
    finalReview (mkPrData "acme" "widget" 42)
      ("+++ b/src/a.ts" +:+ lf +:+ "@@ -1,3 +1,5 @@")
      (mkReview ["clear"] [mkImprovement 3 "src/a.ts" "Style" "near" None;
                           mkImprovement 3 "src/b.ts" "Style" "other" None])
    = Normal final
    ∧ strengths final = ["clear"]
    ∧ (length (improvements final) ≤ 2)%nat.
Proof.
  destruct (final_review_findings (mkPrData "acme" "widget" 42)
              ("+++ b/src/a.ts" +:+ lf +:+ "@@ -1,3 +1,5 @@")
              (mkReview ["clear"] [mkImprovement 3 "src/a.ts" "Style" "near" None;
                                   mkImprovement 3 "src/b.ts" "Style" "other" None])
              {[ "src/a.ts" := [mkRange 1 5] ]})
    as (final & Hfinal & Hs & Hlen & _).
  - vm_compute; reflexivity.
  - vm_compute; reflexivity.
  - exists final. split; [exact Hfinal|]. split; [exact Hs|exact Hlen].
Defined.

(** ** Numbers and their decimal text *)

Lemma string_of_uint_digits (d : Decimal.uint) :
  all_chars isDigit (NilEmpty.string_of_uint d) = true.
Proof. induction d; simpl; by rewrite ?IHd. Qed.

Lemma decimalValue_string_of_uint (d : Decimal.uint) (acc : Z) :
  fold_left (fun a c => 10 * a + digitValue c)
            (list_ascii_of_string (NilEmpty.string_of_uint d)) acc
  = uintValue d acc.
Proof.
  revert acc. induction d; intros acc; simpl; [done|..]; by rewrite IHd.
Qed.

Lemma uintValue_of_lu (d l : Decimal.uint) :
  uintValue d (Z.of_N (DecimalPos.Unsigned.of_lu l))
  = Z.of_N (DecimalPos.Unsigned.of_lu (Decimal.revapp d l)).
Proof.
  revert l. induction d; intros l; simpl uintValue; simpl Decimal.revapp;
    [done|..]; rewrite <- IHd; f_equal; simpl DecimalPos.Unsigned.of_lu; lia.
Qed.

Lemma decimalValue_Number_toString (z : Z) :
  0 ≤ z →
  decimalValue (Number_toString z) = z ∧ isNumeral (Number_toString z) = true.
Proof.
  intros Hz. destruct z as [|p|p]; [by vm_compute| |lia].
  unfold Number_toString, decimalValue, isNumeral. simpl Z.to_int.
  simpl NilZero.string_of_int.
  assert (NilZero.string_of_uint (Pos.to_uint p)
          = NilEmpty.string_of_uint (Pos.to_uint p)) as ->.
  { pose proof (DecimalPos.Unsigned.to_uint_nonnil p). by destruct (Pos.to_uint p). }
  split.
  - rewrite decimalValue_string_of_uint.
    change 0 with (Z.of_N (DecimalPos.Unsigned.of_lu Decimal.Nil)).
    rewrite (uintValue_of_lu (Pos.to_uint p) Decimal.Nil).
    change (Decimal.revapp (Pos.to_uint p) Decimal.Nil)
      with (Decimal.rev (Pos.to_uint p)).
    by rewrite <- DecimalPos.Unsigned.of_uint_alt, DecimalPos.Unsigned.of_to.
  - rewrite string_of_uint_digits, andb_true_r.
    pose proof (DecimalPos.Unsigned.to_uint_nonnil p).
    by destruct (Pos.to_uint p).
Qed.

Lemma Number_toString_inj (z1 z2 : Z) :
  Number_toString z1 = Number_toString z2 → z1 = z2.
Proof.
  unfold Number_toString. intros H. apply DecimalZ.to_int_inj.
  assert (∀ z, NilZero.int_of_string (NilZero.string_of_int (Z.to_int z))
               = Some (Z.to_int z)) as Hisi.
  { intros z. apply NilZero.isi; destruct z; simpl; try done;
      intros [= Hp]; by apply DecimalPos.Unsigned.to_uint_nonnil in Hp. }
  pose proof (Hisi z1) as H1. rewrite H, Hisi in H1. congruence.
Qed.

(** ** Further properties of the URL parser and of the links *)

Lemma url_regex_skip_prefix (pre s : string) :
  all_chars (fun c => negb (Ascii.eqb c "g")) pre = true →
  url_regex (pre +:+ s) = url_regex s.
Proof.
  intros Hpre. induction pre as [|c pre IH]; [done|].
  simpl in Hpre. apply andb_true_iff in Hpre as [Hc Hpre].
  apply negb_true_iff, Ascii.eqb_neq in Hc.
  simpl String.append. rewrite url_regex_skip; [|done]. by apply IH.
Qed.

(** X5. A pull-request URL of [github.com] whose number is at most 2^53
    parses to its three parts whatever precedes the host, as long as it has
    no [g], and whatever follows the number, as long as it does not go on
    with a digit: the scheme may be missing and a path or a fragment may
    follow. *)
Theorem url_with_prefix_and_suffix (pre owner repo digits post : string) :
  all_chars (fun c => negb (Ascii.eqb c "g")) pre = true →
  isSegment owner = true → isSegment repo = true → isNumeral digits = true →
  decimalValue digits ≤ 2 ^ 53 →
  stopsDigits post = true →
  parseGitHubUrl (pre +:+ "github.com/" +:+ owner +:+ "/" +:+ repo +:+ "/pull/"
                    +:+ digits +:+ post)
  = Normal (Some (mkPrData owner repo (decimalValue digits))).
Proof.
  intros Hpre Ho Hr Hd Hexact Hpost. unfold parseGitHubUrl.
  rewrite (url_regex_skip_prefix pre _ Hpre).
  destruct (url_regex_at_form owner repo digits post Ho Hr Hd)
    as (more & Hat & _ & Hmore).
  rewrite (Hmore Hpost), string_app_empty_r in Hat.
  rewrite (url_regex_leftmost _ _ Hat).
  rewrite parseInt_exact; [done|]. split; [|done].
  apply decimalValue_nonneg. by apply isNumeral_inv in Hd as [_ ?].
Qed.

Lemma url_with_prefix_and_suffix_witness :
  parseGitHubUrl ("http://www." +:+ "github.com/" +:+ "acme" +:+ "/" +:+ "widget"
                    +:+ "/pull/" +:+ "42" +:+ "/files#diff-0")
  = Normal (Some (mkPrData "acme" "widget" (decimalValue "42"))).
Proof.
  apply (url_with_prefix_and_suffix "http://www." "acme" "widget" "42" "/files#diff-0");
    try reflexivity.
  vm_compute. discriminate.
Defined.

Lemma parsed_coordinates (url : string) (prData : PrData) :
  parseGitHubUrl url = Normal (Some prData) →
  isSegment (owner prData) = true ∧ isSegment (repo prData) = true
  ∧ 0 ≤ pull_number prData ≤ 2 ^ 53.
Proof.
  unfold parseGitHubUrl. intros H.
  destruct (url_regex url) as [[[o r] d]|] eqn:Hm; [|done].
  destruct (url_regex_inv _ _ Hm) as (pre & s' & -> & Hat).
  destruct (url_regex_at_inv _ _ _ _ Hat) as (post & -> & Ho & Hr & Hd).
  destruct (parseInt d) as [n| |] eqn:Hn; [|done..].
  cbn [mbind Completion_bind] in H. injection H as <-.
  apply parseInt_Normal in Hn as [-> Hn]; [|by apply isNumeral_inv in Hd as [_ ?]].
  done.
Qed.

Lemma deepLink_parses (prData : PrData) (item : ReviewImprovement) :
  isSegment (owner prData) = true → isSegment (repo prData) = true →
  0 ≤ pull_number prData ≤ 2 ^ 53 →
  parseGitHubUrl (deepLink prData item) = Normal (Some prData).
Proof.
  intros Ho Hr [Hp Hexact]. unfold deepLink.
  destruct (decimalValue_Number_toString _ Hp) as [Hval Hnum].
  pose proof (url_regex_at_form (owner prData) (repo prData)
                (Number_toString (pull_number prData))
                ("/files#diff-" +:+ sha1 (file item) +:+ "R"
                   +:+ Number_toString (line item)) Ho Hr Hnum)
    as (more & Hat & _ & Hmore).
  rewrite (Hmore eq_refl), string_app_empty_r in Hat.
  unfold parseGitHubUrl.
  assert (url_regex
            ("https://github.com/" +:+ owner prData +:+ "/" +:+ repo prData
               +:+ "/pull/" +:+ Number_toString (pull_number prData)
               +:+ "/files#diff-" +:+ sha1 (file item) +:+ "R"
               +:+ Number_toString (line item))
          = Some (owner prData, repo prData, Number_toString (pull_number prData)))
    as ->.
  { change ("https://github.com/" +:+ ?x) with ("https://" +:+ "github.com/" +:+ x).
    rewrite (url_regex_skip_prefix "https://"); [|done].
    exact (url_regex_leftmost _ _ Hat). }
  rewrite parseInt_exact by (rewrite Hval; lia).
  rewrite Hval. by destruct prData.
Qed.

(** X6. The coordinates that the embedding gives for a URL, whose number is
    then at most 2^53, are those that parsing any deep link built from
    them gives back. *)
Theorem deep_link_round_trip (url : string) (prData : PrData)
    (item : ReviewImprovement) :
  parseGitHubUrl url = Normal (Some prData) →
  parseGitHubUrl (deepLink prData item) = Normal (Some prData).
Proof.
  intros H. destruct (parsed_coordinates url prData H) as (Ho & Hr & Hp).
  by apply deepLink_parses.
Qed.

Lemma deep_link_round_trip_witness :
  parseGitHubUrl (deepLink (mkPrData "acme" "widget" 42)
                           (mkImprovement 3 "src/a.ts" "Style" "near" None))
  = Normal (Some (mkPrData "acme" "widget" 42)).
Proof.
  apply (deep_link_round_trip "https://github.com/acme/widget/pull/42").
  vm_compute; reflexivity.
Defined.

Lemma string_app_split (a1 a2 b1 b2 : string) :
  a1 +:+ b1 = a2 +:+ b2 → String.length a1 = String.length a2 →
  a1 = a2 ∧ b1 = b2.
Proof.
  revert a2. induction a1 as [|c a1 IH]; intros [|c2 a2] H Hlen;
    simpl in *; try done.
  injection H as -> H. injection Hlen as Hlen.
  destruct (IH a2 H Hlen) as [-> ->]. done.
Qed.

(** X7. Two findings of one pull request that get the same link have the
    same line and the same hash segment: on one file, findings on different
    lines never share a link. *)
Theorem equal_links_equal_lines (prData : PrData) (item1 item2 : ReviewImprovement) :
  deepLink prData item1 = deepLink prData item2 →
  line item1 = line item2 ∧ sha1 (file item1) = sha1 (file item2).
Proof.
  rewrite !deepLink_unfold. intros H.
  apply (inj (String.append (linkPrefix prData))) in H.
  apply string_app_split in H as [Hsha H].
  - split; [|done]. injection H as H. by apply Number_toString_inj.
  - destruct (sha1_spec (file item1)) as [-> _].
    by destruct (sha1_spec (file item2)) as [-> _].
Qed.

Lemma equal_links_equal_lines_witness :
  line (mkImprovement 3 "src/a.ts" "Style" "near" None)
  = line (mkImprovement 3 "src/a.ts" "Perf" "other" None)
  ∧ sha1 (file (mkImprovement 3 "src/a.ts" "Style" "near" None))
    = sha1 (file (mkImprovement 3 "src/a.ts" "Perf" "other" None)).
Proof.
  apply (equal_links_equal_lines (mkPrData "acme" "widget" 42)).
  reflexivity.
Defined.

(** ** The hexadecimal text of the digest *)

Lemma byteOfHex_hex_all :
  forallb (fun b => bool_decide
                      (byteOfHex (padStart 2 "0" (Number_toString16 b)) = Some b))
          (map N.of_nat (seq 0 256)) = true.
Proof. vm_compute. reflexivity. Qed.

Lemma byteOfHex_hex (b : N) (rest : string) :
  (b < 256)%N →
  ∃ c1 c2, padStart 2 "0" (Number_toString16 b) = String c1 (String c2 "")
           ∧ byteOfHex (String c1 (String c2 rest)) = Some b.
Proof.
  intros Hb. pose proof byteOfHex_hex_all as Hall.
  rewrite forallb_forall in Hall.
  assert (byteOfHex (padStart 2 "0" (Number_toString16 b)) = Some b) as Hok.
  { assert (In b (map N.of_nat (seq 0 256))) as Hin.
    { rewrite in_map_iff. exists (N.to_nat b).
      split; [apply N2Nat.id|]. apply in_seq. lia. }
    apply Hall in Hin. by apply bool_decide_eq_true in Hin. }
  destruct (hex_byte b Hb) as (Heq & _). rewrite Heq in Hok |- *.
  by eexists _, _.
Qed.

(** X8. The hexadecimal text determines the bytes: two lists of bytes with
    the same text are the same list. *)
Theorem hex_of_bytes_injective (bs1 bs2 : list N) :
  (∀ b, b ∈ bs1 → (b < 256)%N) → (∀ b, b ∈ bs2 → (b < 256)%N) →
  hex_of_bytes bs1 = hex_of_bytes bs2 → bs1 = bs2.
Proof.
  revert bs2. induction bs1 as [|b1 bs1 IH]; intros [|b2 bs2] H1 H2 H.
  - done.
  - exfalso. destruct (byteOfHex_hex b2 "") as (c1 & c2 & Hc & _);
      [apply H2; by left|]. simpl in H. by rewrite Hc in H.
  - exfalso. destruct (byteOfHex_hex b1 "") as (c1 & c2 & Hc & _);
      [apply H1; by left|]. simpl in H. by rewrite Hc in H.
  - destruct (byteOfHex_hex b1 (hex_of_bytes bs1)) as (c1 & c2 & Hc1 & Hd1);
      [apply H1; by left|].
    destruct (byteOfHex_hex b2 (hex_of_bytes bs2)) as (d1 & d2 & Hc2 & Hd2);
      [apply H2; by left|].
    simpl in H. rewrite Hc1, Hc2 in H. simpl in H.
    injection H as -> -> H. unfold byteOfHex in Hd1, Hd2.
    rewrite Hd1 in Hd2. injection Hd2 as ->.
    f_equal. apply IH; [| |done].
    + intros b Hb. apply H1. by right.
    + intros b Hb. apply H2. by right.
Qed.

Lemma hex_of_bytes_injective_witness : [1%N; 16%N] = [1%N; 16%N].
Proof.
  apply hex_of_bytes_injective.
  - intros b Hb. apply list_elem_of_In in Hb. simpl in Hb.
    destruct Hb as [<-|[<-|[]]]; reflexivity.
  - intros b Hb. apply list_elem_of_In in Hb. simpl in Hb.
    destruct Hb as [<-|[<-|[]]]; reflexivity.
  - reflexivity.
Defined.

(** ** [trim] on the templates of the follow-up prompts *)

Lemma string_of_list_ascii_app (l1 l2 : list ascii) :
  string_of_list_ascii (l1 ++ l2)
  = string_of_list_ascii l1 +:+ string_of_list_ascii l2.
Proof. induction l1; simpl; congruence. Qed.

Lemma list_ascii_of_string_app (a b : string) :
  list_ascii_of_string (a +:+ b)
  = list_ascii_of_string a ++ list_ascii_of_string b.
Proof. induction a; simpl; congruence. Qed.

Lemma reverse_app (a b : string) : reverse (a +:+ b) = reverse b +:+ reverse a.
Proof.
  unfold reverse.
  by rewrite list_ascii_of_string_app, rev_app_distr, string_of_list_ascii_app.
Qed.

Lemma reverse_involutive (a : string) : reverse (reverse a) = a.
Proof.
  unfold reverse.
  by rewrite list_ascii_of_string_of_list_ascii, rev_involutive,
    string_of_list_ascii_of_string.
Qed.

Lemma trimStart_app_solid (a b : string) :
  startsSolid b = true → trimStart (a +:+ b) = trimStart a +:+ b.
Proof.
  intros Hb. induction a as [|c a IH]; simpl.
  - destruct b as [|c b]; [done|]. simpl in *.
    by destruct (isTrimmed c).
  - by destruct (isTrimmed c).
Qed.

(** A text that starts and ends with characters that [trim] keeps stays
    whole between what precedes and what follows it. *)
Lemma trim_around_core (a core b : string) :
  startsSolid core = true → startsSolid (reverse core) = true →
  trim (a +:+ core +:+ b) = trimStart a +:+ core +:+ trimEnd b.
Proof.
  intros Hstart Hend. unfold trim, trimEnd.
  rewrite trimStart_app_solid; [|by destruct core].
  rewrite !reverse_app.
  rewrite string_app_assoc.
  rewrite trimStart_app_solid;
    [|by destruct (reverse core)].
  rewrite !reverse_app, !reverse_involutive.
  by rewrite string_app_assoc.
Qed.

Lemma trimStart_lf (s : string) : trimStart (lf +:+ s) = trimStart s.
Proof. done. Qed.

Lemma join_lines_cons (a : string) (l : list string) :
  l ≠ [] → join_lines (a :: l) = a +:+ lf +:+ join_lines l.
Proof. by destruct l. Qed.

Lemma join_lines_snoc (l : list string) (x : string) :
  l ≠ [] → join_lines (l ++ [x]) = join_lines l +:+ lf +:+ x.
Proof.
  induction l as [|a l IH]; [done|]. intros _.
  destruct l as [|b l]; [done|].
  change ((a :: b :: l) ++ [x]) with (a :: ((b :: l) ++ [x])).
  rewrite (join_lines_cons a ((b :: l) ++ [x])); [|done].
  rewrite IH; [|done]. rewrite (join_lines_cons a (b :: l)); [|done].
  by rewrite !string_app_assoc.
Qed.

Lemma finalPromptForUser_trimmed (aiGeneratedPrompt : string)
    (improvement : ReviewImprovement) (codeSnippet : string) :
  finalPromptForUser aiGeneratedPrompt improvement codeSnippet
  = trimStart (aiGeneratedPrompt +:+ lf +:+ lf) +:+ fixTrailer improvement codeSnippet.
Proof.
  unfold finalPromptForUser.
  match goal with
  | |- trim (join_lines ("" :: ?ai :: "" :: ?rest)) = _ =>
      assert (join_lines ("" :: ai :: "" :: rest)
              = (lf +:+ ai +:+ lf +:+ lf)
                  +:+ fixTrailer improvement codeSnippet +:+ lf) as ->
  end.
  { unfold fixTrailer. rewrite !join_lines_cons by done. simpl join_lines.
    repeat (progress (rewrite ?string_app_assoc; simpl String.append)).
    reflexivity. }
  rewrite trim_around_core.
  - rewrite trimStart_lf. change (trimEnd lf) with "".
    by rewrite string_app_empty_r.
  - done.
  - unfold fixTrailer.
    match goal with
    | |- context [join_lines ?l] => change l with (removelast l ++ ["```"])
    end.
    rewrite join_lines_snoc by done. by rewrite !reverse_app.
Qed.

Lemma finalTestPromptForUser_trimmed (aiGeneratedPrompt testSuggestion category
                                      contextSummary : string) :
  finalTestPromptForUser aiGeneratedPrompt testSuggestion category contextSummary
  = trimStart (aiGeneratedPrompt +:+ lf +:+ lf)
      +:+ testTrailer testSuggestion category
      +:+ trimEnd (lf +:+ contextSummary +:+ lf).
Proof.
  unfold finalTestPromptForUser.
  match goal with
  | |- trim (join_lines ("" :: ?ai :: "" :: ?rest)) = _ =>
      assert (join_lines ("" :: ai :: "" :: rest)
              = (lf +:+ ai +:+ lf +:+ lf)
                  +:+ testTrailer testSuggestion category
                  +:+ (lf +:+ contextSummary +:+ lf)) as ->
  end.
  { unfold testTrailer. rewrite !join_lines_cons by done. simpl join_lines.
    repeat (progress (rewrite ?string_app_assoc; simpl String.append)).
    reflexivity. }
  rewrite trim_around_core.
  - by rewrite trimStart_lf.
  - done.
  - unfold testTrailer.
    match goal with
    | |- context [join_lines ?l] =>
        change l with (removelast l ++ ["**Pull Request Summary:**"])
    end.
    rewrite join_lines_snoc by done. by rewrite !reverse_app.
Qed.

(** X9. The text that [generateCopilotFixPrompt] returns is the answer of
    the endpoint without its leading white space, followed by the context
    trailer, whole: the rule, the file, line, category and comment of the
    finding and the fenced snippet.  The exchange is logged once; when the
    request fails nothing is logged and nothing is returned. *)
Theorem fix_prompt_keeps_trailer
    (endpoint : GenerateContentRequest → option string)
    (apiKey model codeSnippet : string) (improvement : ReviewImprovement) :
  truthy apiKey = true →
  let request := mkRequest model (fixPrompt improvement codeSnippet) None in
  let run := generateCopilotFixPrompt endpoint apiKey improvement codeSnippet
                                      model [] in
  (∀ answer, endpoint request = Some answer →
     run = (Returned (trimStart (answer +:+ lf +:+ lf)
                        +:+ fixTrailer improvement codeSnippet),
            [Requested request;
             Logged (mkLogEntry "Generate Copilot Prompt"
                       (fixPrompt improvement codeSnippet) answer 1)]))
  ∧ (endpoint request = None →
     run = (Thrown (RequestFailed request), [Requested request])).
Proof.
  intros Hkey request run. subst run. unfold generateCopilotFixPrompt.
  rewrite Hkey. simpl negb. cbv iota.
  unfold mbind, Run_bind, generateContent, logInteraction, mret, Run_ret.
  fold request. split.
  - intros answer ->. simpl. by rewrite finalPromptForUser_trimmed.
  - by intros ->.
Qed.

Lemma fix_prompt_keeps_trailer_witness :
  let improvement := mkImprovement 3 "src/a.ts" "Style" "near" None in
  generateCopilotFixPrompt (fun _ => Some "  Fix it.  ") "key" improvement "code" "m" []
  = (Returned ("Fix it.  " +:+ lf +:+ lf +:+ fixTrailer improvement "code"),
     [Requested (mkRequest "m" (fixPrompt improvement "code") None);
      Logged (mkLogEntry "Generate Copilot Prompt" (fixPrompt improvement "code")
                         "  Fix it.  " 1)]).
Proof.
  destruct (fix_prompt_keeps_trailer (fun _ => Some "  Fix it.  ") "key" "m" "code"
              (mkImprovement 3 "src/a.ts" "Style" "near" None) eq_refl) as [H _].
  exact (H "  Fix it.  " eq_refl).
Defined.

(** X10. The text that [generateTestCreationPrompt] returns is the answer
    of the endpoint without its leading white space, the context trailer
    with the category and the suggestion, whole, and the summary without
    its trailing white space; the diff, which the request holds, is not
    repeated. *)
Theorem test_prompt_keeps_trailer
    (endpoint : GenerateContentRequest → option string)
    (apiKey testSuggestion category contextSummary diff model : string) :
  truthy apiKey = true →
  let request :=
    mkRequest model (testCreationPrompt testSuggestion category contextSummary diff)
              None in
  let run := generateTestCreationPrompt endpoint apiKey testSuggestion category
                                        contextSummary diff model [] in
  (∀ answer, endpoint request = Some answer →
     run = (Returned (trimStart (answer +:+ lf +:+ lf)
                        +:+ testTrailer testSuggestion category
                        +:+ trimEnd (lf +:+ contextSummary +:+ lf)),
            [Requested request;
             Logged (mkLogEntry "Generate Test Creation Prompt"
                       (testCreationPrompt testSuggestion category contextSummary diff)
                       answer 1)]))
  ∧ (endpoint request = None →
     run = (Thrown (RequestFailed request), [Requested request])).
Proof.
  intros Hkey request run. subst run. unfold generateTestCreationPrompt.
  rewrite Hkey. simpl negb. cbv iota.
  unfold mbind, Run_bind, generateContent, logInteraction, mret, Run_ret.
  fold request. split.
  - intros answer ->. simpl. by rewrite finalTestPromptForUser_trimmed.
  - by intros ->.
Qed.

Lemma test_prompt_keeps_trailer_witness :
  generateTestCreationPrompt (fun _ => Some "Write it.") "key" "checks x" "Unit Test"
                             ("sum " +:+ lf) "d" "m" []
  = (Returned ("Write it." +:+ lf +:+ lf +:+ testTrailer "checks x" "Unit Test"
                 +:+ lf +:+ "sum"),
     [Requested (mkRequest "m"
                   (testCreationPrompt "checks x" "Unit Test" ("sum " +:+ lf) "d") None);
      Logged (mkLogEntry "Generate Test Creation Prompt"
                (testCreationPrompt "checks x" "Unit Test" ("sum " +:+ lf) "d")
                "Write it." 1)]).
Proof.
  destruct (test_prompt_keeps_trailer (fun _ => Some "Write it.") "key" "checks x"
              "Unit Test" ("sum " +:+ lf) "d" "m" eq_refl) as [H _].
  exact (H "Write it." eq_refl).
Defined.

(** X11. [generateTestSuggestions] sends one request, with the schema of the
    suggestions.  The answer is logged before it is parsed: a text that is
    not JSON fails the call after the entry was logged, a text that is
    JSON is returned as parsed, checked against no schema.  When the
    request fails nothing is logged. *)
Theorem test_suggestions_logged_then_parsed
    (endpoint : GenerateContentRequest → option string)
    (apiKey contextSummary diff model : string) :
  truthy apiKey = true →
  let request := mkRequest model (testPrompt contextSummary diff)
                           (Some jsonSchemaTestSuggestions) in
  let run := generateTestSuggestions endpoint apiKey contextSummary diff model [] in
  (endpoint request = None →
     run = (Thrown (RequestFailed request), [Requested request]))
  ∧ (∀ text, endpoint request = Some text →
       run.2 = [Requested request;
                Logged (mkLogEntry "Test Suggestions" (testPrompt contextSummary diff)
                                   text 1)]
       ∧ (JSON.parse text = None → run.1 = Thrown (SyntaxError text))
       ∧ (∀ v, JSON.parse text = Some v → run.1 = Returned v)).
Proof.
  intros Hkey request run. subst run. unfold generateTestSuggestions.
  rewrite Hkey. simpl negb. cbv iota.
  unfold mbind, Run_bind, generateContent, logInteraction, JSON_parse.
  fold request. split; [by intros ->|].
  intros text ->. simpl. destruct (JSON.parse text) as [v|]; simpl.
  - split; [done|]. split; [done|]. by intros v' [= <-].
  - done.
Qed.

Lemma test_suggestions_logged_then_parsed_witness :
  let request := mkRequest "m" (testPrompt "s" "d") (Some jsonSchemaTestSuggestions) in
  let run := generateTestSuggestions (fun _ => Some "[1]") "key" "s" "d" "m" [] in
  run.2 = [Requested request;
           Logged (mkLogEntry "Test Suggestions" (testPrompt "s" "d") "[1]" 1)]
  ∧ run.1 = Returned (JSON.JArray [JSON.JNumber "1"]).
Proof.
  destruct (test_suggestions_logged_then_parsed (fun _ => Some "[1]") "key" "s" "d" "m"
              eq_refl) as [_ H].
  destruct (H "[1]" eq_refl) as (Htrace & _ & Hret).
  split; [exact Htrace|]. apply Hret. vm_compute; reflexivity.
Defined.

(** ** The audit log of a review run *)

(** X12. In every run of [generateReview], whatever the endpoint answers,
    at most three requests are made; every log entry records the prompt of
    the request of the same rank and the answer the endpoint gave to it;
    the steps logged are the first ones of Context Gathering, Initial
    Review, Refinement, in that order; the requests are never more than one
    ahead of the log; a run that returns has logged all three steps, and a
    run without an API key makes no request. *)
Theorem audit_log_records_requests
    (endpoint : GenerateContentRequest → option string)
    (apiKey title body diff readmeContent masterFilesContent model : string) :
  let run := generateReview endpoint apiKey title body diff readmeContent
                            masterFilesContent model [] in
  let requests := requestsOf run.2 in
  let logs := apiLogs run.2 in
  (length requests ≤ 3)%nat
  ∧ (length logs ≤ length requests ≤ S (length logs))%nat
  ∧ (∀ i entry, logs !! i = Some entry →
       ∃ request, requests !! i = Some request
                  ∧ prompt entry = contents request
                  ∧ endpoint request = Some (response entry))
  ∧ step <$> logs
    = take (length logs) ["Context Gathering"; "Initial Review"; "Refinement"]
  ∧ (∀ result, run.1 = Returned result → length logs = 3%nat)
  ∧ (truthy apiKey = false → run.2 = []).
Proof.
  cbv zeta.
  destruct (truthy apiKey) eqn:Hkey.
  - rewrite (generateReview_trace endpoint _ _ _ _ _ _ _ Hkey).
    destruct (endpoint (contextRequest _ _ _ _ _ _)) as [s1|] eqn:H1; simpl;
      [destruct (endpoint (initialRequest model s1 diff)) as [s2|] eqn:H2; simpl;
       [destruct (endpoint (refinementRequest model s1 s2 diff)) as [s3|] eqn:H3;
        simpl|]|].
    all: repeat split; try lia; try done.
    all: try (by intros result [= ]).
    all: intros i entry Hi.
    all: repeat (destruct i as [|i]; [injection Hi as <-; eexists;
                                      split; [done|]; by split|]).
    all: done.
  - unfold generateReview. rewrite Hkey. simpl.
    repeat split; try lia; try done.
Qed.

(** ** [getChangedFilesContent] *)

Lemma distinctPaths_elem (seen paths : list string) (p : string) :
  p ∈ distinctPaths seen paths ↔ p ∈ paths ∧ p ∉ seen.
Proof.
  revert seen. induction paths as [|q paths IH]; intros seen; simpl.
  - split; [by intros ?%not_elem_of_nil|by intros [?%not_elem_of_nil _]].
  - destruct (existsb (String.eqb q) seen) eqn:Hq.
    + apply existsb_exists in Hq as (x & Hx & Heq).
      apply String.eqb_eq in Heq as <-. apply list_elem_of_In in Hx.
      rewrite IH, elem_of_cons. split; [intros [? ?]; by auto|].
      intros [[->|?] Hs]; [done|by auto].
    + assert (q ∉ seen) as Hnot.
      { intros Hin. apply list_elem_of_In in Hin.
        assert (existsb (String.eqb q) seen = true) as Ht; [|congruence].
        apply existsb_exists. exists q. split; [done|]. apply String.eqb_refl. }
      rewrite !elem_of_cons, IH, elem_of_cons. split.
      * intros [->|[Hp Hs]]; [by auto|]. split; [by auto|]. by intros ?; apply Hs; right.
      * intros [[->|Hp] Hs]; [by left|].
        destruct (decide (p = q)) as [->|Hne]; [by left|]. right.
        split; [done|]. by intros [?|?].
Qed.

Lemma distinctPaths_NoDup (seen paths : list string) :
  NoDup (distinctPaths seen paths).
Proof.
  revert seen. induction paths as [|q paths IH]; intros seen; simpl.
  - constructor.
  - destruct (existsb (String.eqb q) seen); [apply IH|].
    constructor; [|apply IH]. rewrite distinctPaths_elem.
    intros [_ Hq]. apply Hq. by left.
Qed.

Lemma fold_left_blocks (f : string → string) (ps : list string) (acc : string) :
  fold_left (fun master p => master +:+ f p) ps acc
  = acc +:+ concatBlocks (map f ps).
Proof.
  revert acc. induction ps as [|p ps IH]; intros acc; simpl.
  - by rewrite string_app_empty_r.
  - by rewrite IH, string_app_assoc.
Qed.

Lemma getChangedFilesContent_blocks (fetch : string → option (option string))
    (diff owner repo ref : string) :
  getChangedFilesContent fetch diff owner repo ref
  = concatBlocks (map (blockOf fetch owner repo ref)
                      (distinctPaths [] (headerPaths diff))).
Proof.
  unfold getChangedFilesContent.
  by rewrite (fold_left_blocks (blockOf fetch owner repo ref)).
Qed.

Lemma headerPaths_elem (diff path : string) :
  path ∈ headerPaths diff ↔ newFileHeader path ∈ split_lines diff.
Proof.
  unfold headerPaths. rewrite list_elem_of_fmap. split.
  - intros (l & -> & Hl). apply list_elem_of_In, filter_In in Hl as [Hl Hs].
    apply list_elem_of_In in Hl. by rewrite <- (header_line_inv l Hs).
  - intros Hin. exists (newFileHeader path). split; [done|].
    apply list_elem_of_In, filter_In. by rewrite <- list_elem_of_In.
Qed.

Lemma concatBlocks_elem (f : string → string) (ps : list string) (p : string) :
  p ∈ ps → ∃ pre post, concatBlocks (map f ps) = pre +:+ f p +:+ post.
Proof.
  induction ps as [|q ps IH]; [by intros ?%not_elem_of_nil|].
  intros [->|Hin]%elem_of_cons; simpl.
  - by exists "", (concatBlocks (map f ps)).
  - destruct (IH Hin) as (pre & post & ->).
    exists (f q +:+ pre), post. by rewrite string_app_assoc.
Qed.

(** X13. The concatenated snapshots are one block per path named by a
    [+++ b/] line of the diff: the paths are taken once each, a repeated
    header gives no second block, and a file that cannot be fetched still
    gets its block, with a placeholder. *)
Theorem snapshots_one_block_per_path (fetch : string → option (option string))
    (diff owner repo ref : string) :
  ∃ paths,
    NoDup paths
    ∧ (∀ path, path ∈ paths ↔ newFileHeader path ∈ split_lines diff)
    ∧ getChangedFilesContent fetch diff owner repo ref
      = concatBlocks (map (blockOf fetch owner repo ref) paths)
    ∧ ∀ path, ∃ content, blockOf fetch owner repo ref path = fileBlock path content.
Proof.
  exists (distinctPaths [] (headerPaths diff)).
  split; [apply distinctPaths_NoDup|]. split.
  { intros path. rewrite distinctPaths_elem, headerPaths_elem.
    split; [by intros [? _]|]. intros H. split; [done|]. apply not_elem_of_nil. }
  split; [apply getChangedFilesContent_blocks|].
  intros path. unfold blockOf.
  destruct (fetch _) as [[content|]|]; by eexists.
Qed.

(** X14. Every file that has an entry in the range table of a diff has its
    block in the snapshots made from the same diff: a finding that passed
    the validator always finds the header of its file, spelled out, in the
    snapshots. *)
Theorem table_keys_have_snapshots (fetch : string → option (option string))
    (diff owner repo ref : string) (table : gmap string (list LineRange))
    (path : string) :
  parseDiffToValidLineRanges diff = Normal table → is_Some (table !! path) →
  ∃ pre content post,
    getChangedFilesContent fetch diff owner repo ref
    = pre +:+ fileBlock path content +:+ post.
Proof.
  intros Hparse Hkey. pose proof (parsed_table diff table Hparse) as Htable.
  rewrite Htable in Hkey. case_decide as Hh; [|by destruct Hkey].
  destruct Hh as [[Hh _] _].
  rewrite getChangedFilesContent_blocks.
  destruct (concatBlocks_elem (blockOf fetch owner repo ref)
              (distinctPaths [] (headerPaths diff)) path) as (pre & post & ->).
  { rewrite distinctPaths_elem, headerPaths_elem. split; [done|].
    apply not_elem_of_nil. }
  unfold blockOf. destruct (fetch _) as [[content|]|]; by eexists _, _, _.
Qed.

Lemma table_keys_have_snapshots_witness :
  ∃ pre content post,
    getChangedFilesContent twoFilesFetch twoFilesDiff "acme" "widget" "main"
    = pre +:+ fileBlock "src/my.component.ts" content +:+ post.
Proof.
  apply (table_keys_have_snapshots twoFilesFetch twoFilesDiff "acme" "widget" "main"
           {[ "src/my-component.ts" := [mkRange 1 1];
              "src/my.component.ts" := [mkRange 1 1] ]}).
  - vm_compute; reflexivity.
  - vm_compute. eexists. reflexivity.
Defined.

(** ** The snippet of [handleGenerateCopilotPrompt] *)

Lemma codeSnippet_window (content : string) (improvement : ReviewImprovement)
    (pat : list PatternChar) (block : string) :
  pathPattern (file improvement) = Some pat →
  fileBlockRegex pat content = Some block → truthy block = true →
  codeSnippet content improvement
  = Some (Returned (join_lines (snippetWindow (split_lines block) (line improvement)))).
Proof.
  intros Hpat Hblock Ht. unfold codeSnippet. by rewrite Hpat, Hblock, Ht.
Qed.

Lemma take_length_take {A} (n : nat) (l : list A) :
  take (length (take n l)) l = take n l.
Proof.
  rewrite length_take. destruct (decide (n ≤ length l)%nat).
  - by rewrite Nat.min_l by lia.
  - rewrite Nat.min_r by lia. rewrite !take_ge; [done|lia|lia].
Qed.

(** X15. When the block of a finding is found, and the line of the finding
    is not negative (as for every finding that passed the validator), the
    snippet is a run of consecutive lines of that block, at most eleven; it
    starts five lines before the finding's line, or at the first line of
    the block; a line of the block with the finding's number is in it; and
    a block that ends within five lines after a finding on one of its first
    six lines is sent whole. *)
Theorem snippet_is_window_around_line (content : string)
    (improvement : ReviewImprovement) (pat : list PatternChar) (block : string) :
  pathPattern (file improvement) = Some pat →
  fileBlockRegex pat content = Some block → truthy block = true →
  0 ≤ line improvement →
  let lines := split_lines block in
  let n := line improvement in
  ∃ window,
    codeSnippet content improvement = Some (Returned (join_lines window))
    ∧ (length window ≤ 11)%nat
    ∧ window = take (length window) (drop (Z.to_nat (n - 6)) lines)
    ∧ (∀ text, 1 ≤ n → lines !! Z.to_nat (n - 1) = Some text →
         window !! Z.to_nat (Z.min 5 (n - 1)) = Some text)
    ∧ (n ≤ 6 → Z.of_nat (length lines) ≤ n + 5 → window = lines).
Proof.
  intros Hpat Hblock Ht Hline lines n.
  exists (snippetWindow lines n). split; [by apply (codeSnippet_window _ _ pat)|].
  assert (0 ≤ n) as Hn by exact Hline. clearbody n lines.
  assert (snippetWindow lines n
          = take (Z.to_nat (Z.min (Z.of_nat (length lines)) (n + 5)
                            - Z.min (Z.max 0 (n - 6)) (Z.of_nat (length lines))))
                 (drop (Z.to_nat (n - 6)) lines)) as Hw.
  { unfold snippetWindow, Array_slice, contextLines.
    destruct (Z.max 0 (n - 1 - 5) <? 0) eqn:E1; [lia|].
    destruct (Z.min (Z.of_nat (length lines)) (n - 1 + 5 + 1) <? 0) eqn:E2;
      [apply Z.ltb_lt in E2; lia|].
    replace (n - 1 + 5 + 1) with (n + 5) by lia.
    replace (n - 1 - 5) with (n - 6) by lia.
    rewrite (Z.min_l (Z.min _ _) (Z.of_nat (length lines))) by lia.
    destruct (decide (Z.max 0 (n - 6) ≤ Z.of_nat (length lines))).
    - f_equal. f_equal. lia.
    - rewrite !drop_ge by lia. by rewrite !take_nil. }
  split; [rewrite Hw, length_take; lia|].
  split; [rewrite Hw at 1 2; by rewrite take_length_take|].
  split.
  - intros text Hone Htext.
    pose proof (lookup_lt_Some _ _ _ Htext) as Hlt.
    unfold snippetWindow. rewrite (snippet_window_lookup lines n) by lia.
    unfold contextLines. rewrite decide_True by lia.
    rewrite <- Htext. f_equal. lia.
  - intros H6 Hlen. rewrite Hw.
    replace (Z.to_nat (n - 6)) with 0%nat by lia. rewrite drop_0.
    apply take_ge. lia.
Qed.

Lemma snippet_is_window_around_line_witness :
  let finding := mkImprovement 1 "src/my-component.ts" "Style" "c" None in
  ∃ window,
    codeSnippet twoSnapshots finding = Some (Returned (join_lines window))
    ∧ (length window ≤ 11)%nat
    ∧ window = take (length window)
                    (drop (Z.to_nat (1 - 6)) (split_lines ("alpha" +:+ lf)))
    ∧ (∀ text, 1 ≤ 1 → split_lines ("alpha" +:+ lf) !! Z.to_nat (1 - 1) = Some text →
         window !! Z.to_nat (Z.min 5 (1 - 1)) = Some text)
    ∧ (1 ≤ 6 → Z.of_nat (length (split_lines ("alpha" +:+ lf))) ≤ 1 + 5 →
       window = split_lines ("alpha" +:+ lf)).
Proof.
  intros finding.
  apply (snippet_is_window_around_line twoSnapshots finding
           (literalPattern "src/my-component" ++ AnyChar :: literalPattern "ts")
           ("alpha" +:+ lf)).
  - vm_compute; reflexivity.
  - vm_compute; reflexivity.
  - reflexivity.
  - simpl; lia.
Defined.

(** *** A block found under its own header *)

Lemma pathPattern_plain (path : string) :
  plainPath path = true → pathPattern path = Some (literalPattern path).
Proof.
  unfold plainPath, literalPattern.
  induction path as [|c path IH]; [done|]. simpl.
  intros [[Hs Hd]%andb_true_iff Hrest]%andb_true_iff.
  apply negb_true_iff in Hs, Hd. rewrite Hs, Hd. by rewrite IH.
Qed.

Lemma matchPattern_literal (path s : string) :
  matchPattern (literalPattern path) s = strip_prefix path s.
Proof.
  unfold literalPattern. revert s.
  induction path as [|c path IH]; intros s; [done|]. simpl.
  destruct s as [|d s]; [done|]. by rewrite IH.
Qed.

Lemma strip_prefix_append (a b s : string) :
  strip_prefix (a +:+ b) s = strip_prefix a s ≫= strip_prefix b.
Proof.
  revert s. induction a as [|c a IH]; intros s; [done|]. simpl.
  destruct s as [|d s]; [done|]. destruct (Ascii.eqb c d); [apply IH|done].
Qed.

Lemma strip_prefix_startsWith (p s : string) :
  startsWith s p = false → strip_prefix p s = None.
Proof.
  revert s. induction p as [|c p IH]; intros s; [done|]. simpl.
  destruct s as [|d s]; [done|]. destruct (Ascii.eqb c d); [apply IH|done].
Qed.

Lemma fileBlockRegex_at_literal (path s : string) :
  fileBlockRegex_at (literalPattern path) s
  = lazyCapture <$> strip_prefix (blockHeader path) s.
Proof.
  unfold fileBlockRegex_at, blockHeader.
  rewrite (strip_prefix_append "--- File: ").
  destruct (strip_prefix "--- File: " s) as [s1|]; [|done].
  change (Some s1 ≫= strip_prefix (path +:+ " ---" +:+ lf))
    with (strip_prefix (path +:+ " ---" +:+ lf) s1).
  rewrite strip_prefix_append, matchPattern_literal.
  destruct (strip_prefix path s1) as [s2|]; [|done].
  change (Some s2 ≫= strip_prefix (" ---" +:+ lf))
    with (strip_prefix (" ---" +:+ lf) s2).
  by destruct (strip_prefix (" ---" +:+ lf) s2).
Qed.

Lemma fileBlockRegex_here (pat : list PatternChar) (s m : string) :
  fileBlockRegex_at pat s = Some m → fileBlockRegex pat s = Some m.
Proof. intros H. destruct s; cbn [fileBlockRegex]; by rewrite H. Qed.

Lemma fileBlockRegex_later (pat : list PatternChar) (c : ascii) (s : string) :
  fileBlockRegex_at pat (String c s) = None →
  fileBlockRegex pat (String c s) = fileBlockRegex pat s.
Proof. intros H. cbn [fileBlockRegex]. by rewrite H. Qed.

(** The leftmost match is at the first occurrence of the header line. *)
Lemma fileBlockRegex_first (path pre s : string) :
  String_indexOf (pre +:+ blockHeader path +:+ s) (blockHeader path)
  = Some (String.length pre) →
  fileBlockRegex (literalPattern path) (pre +:+ blockHeader path +:+ s)
  = Some (lazyCapture s).
Proof.
  induction pre as [|c pre IH]; intros Hidx.
  - apply fileBlockRegex_here.
    change ("" +:+ blockHeader path +:+ s) with (blockHeader path +:+ s).
    by rewrite fileBlockRegex_at_literal, strip_prefix_app.
  - change (String c pre +:+ blockHeader path +:+ s)
      with (String c (pre +:+ blockHeader path +:+ s)) in *.
    cbn [String_indexOf String.length] in Hidx.
    destruct (startsWith (String c (pre +:+ blockHeader path +:+ s))
                         (blockHeader path)) eqn:Hs; [done|].
    rewrite fileBlockRegex_later.
    + apply IH. destruct (String_indexOf _ _) as [k|]; [|done].
      injection Hidx as ->. done.
    + by rewrite fileBlockRegex_at_literal, (strip_prefix_startsWith _ _ Hs).
Qed.

Lemma startsWith_before (s t p : string) (a : ascii) :
  all_chars (fun c => negb (Ascii.eqb c a)) p = true →
  startsWith (s +:+ String a t) p = startsWith s p.
Proof.
  revert s. induction p as [|q p IH]; intros s Hp; [done|].
  simpl in Hp. apply andb_true_iff in Hp as [Hq Hp].
  destruct s as [|c s]; simpl.
  - apply negb_true_iff in Hq. by rewrite Hq.
  - destruct (Ascii.eqb q c); [by apply IH|done].
Qed.

Lemma startsWith_blockStart (c : ascii) (s t : string) :
  startsWith (String c s +:+ lf +:+ t) blockStart
  = startsWith (String c s) blockStart.
Proof.
  unfold blockStart, lf. simpl String.append. cbn [startsWith].
  destruct (Ascii.eqb newline c); [|done].
  by apply (startsWith_before s t "--- File:" newline).
Qed.

(** The capture of a block written by [getChangedFilesContent]: the
    content and the line feed after it, and both line feeds when no block
    follows. *)
Lemma lazyCapture_block (content rest : string) :
  String_indexOf content blockStart = None →
  endsOrNextBlock rest = true →
  lazyCapture (content +:+ lf +:+ lf +:+ rest)
  = content +:+ lf +:+ (if truthy rest then "" else lf).
Proof.
  intros Hfree Hrest. induction content as [|c content IH].
  - unfold endsOrNextBlock in Hrest. destruct rest as [|r rest].
    + reflexivity.
    + change (startsWith (String r rest) "--- File:" = true) in Hrest.
      apply startsWith_inv in Hrest. rewrite Hrest. vm_compute. reflexivity.
  - cbn [String_indexOf] in Hfree.
    destruct (startsWith (String c content) blockStart) eqn:Hs; [done|].
    destruct (String_indexOf content blockStart) as [k|] eqn:Hk; [done|].
    change (String c content +:+ lf +:+ lf +:+ rest)
      with (String c (content +:+ lf +:+ lf +:+ rest)).
    cbn [lazyCapture].
    change (String c (content +:+ lf +:+ lf +:+ rest))
      with (String c content +:+ lf +:+ (lf +:+ rest)).
    change (lf +:+ "--- File:") with blockStart.
    rewrite startsWith_blockStart, Hs.
    change (content +:+ lf +:+ (lf +:+ rest)) with (content +:+ lf +:+ lf +:+ rest).
    by rewrite IH.
Qed.

Lemma split_lines_nonempty (s : string) : split_lines s ≠ [].
Proof.
  induction s as [|c s IH]; [done|]. simpl.
  destruct (Ascii.eqb c newline); [done|]. by destruct (split_lines s).
Qed.

Lemma split_lines_app (s t : string) :
  split_lines (s +:+ lf +:+ t) = split_lines s ++ split_lines t.
Proof.
  induction s as [|c s IH].
  - change ("" +:+ lf +:+ t) with (String newline t).
    cbn [split_lines]. by rewrite Ascii.eqb_refl.
  - change (String c s +:+ lf +:+ t) with (String c (s +:+ lf +:+ t)).
    cbn [split_lines]. rewrite IH. destruct (Ascii.eqb c newline); [done|].
    pose proof (split_lines_nonempty s). by destruct (split_lines s).
Qed.

(** X16. The block of a file found under its own header.  When the path
    holds no [.] and no syntax character, the header line of the file
    occurs in the snapshots for the first time at the file's own block, and
    the file's content does not hold the start of a block, the snippet is
    cut from the lines of the content followed by one empty line, or by two
    when the block is the last one: the window is clamped to the end of the
    captured block, one or two lines below the end of the file. *)
Theorem snippet_from_own_block (pre content rest : string)
    (improvement : ReviewImprovement) :
  plainPath (file improvement) = true →
  String_indexOf (pre +:+ fileBlock (file improvement) content +:+ rest)
                 (blockHeader (file improvement))
  = Some (String.length pre) →
  String_indexOf content blockStart = None →
  endsOrNextBlock rest = true →
  codeSnippet (pre +:+ fileBlock (file improvement) content +:+ rest) improvement
  = Some (Returned (join_lines
       (snippetWindow (split_lines content ++ (if truthy rest then [""] else [""; ""]))
                      (line improvement)))).
Proof.
  intros Hplain Hfirst Hfree Hrest.
  assert (fileBlock (file improvement) content +:+ rest
          = blockHeader (file improvement) +:+ content +:+ lf +:+ lf +:+ rest) as Hb.
  { unfold fileBlock, blockHeader. by rewrite !string_app_assoc. }
  rewrite Hb in *.
  rewrite (codeSnippet_window _ _ (literalPattern (file improvement))
             (content +:+ lf +:+ (if truthy rest then "" else lf))).
  - do 3 f_equal. rewrite split_lines_app. by destruct (truthy rest).
  - by apply pathPattern_plain.
  - rewrite (fileBlockRegex_first _ _ _ Hfirst). f_equal.
    by apply lazyCapture_block.
  - destruct content; [|done]. by destruct (truthy rest).
Qed.

Lemma snippet_from_own_block_witness :
  codeSnippet (fileBlock "README" "intro" +:+ fileBlock "src/app" "alpha" +:+ "")
              (mkImprovement 1 "src/app" "Style" "c" None)
  = Some (Returned (join_lines (snippetWindow (split_lines "alpha" ++ [""; ""]) 1))).
Proof.
  apply (snippet_from_own_block (fileBlock "README" "intro") "alpha" ""
           (mkImprovement 1 "src/app" "Style" "c" None)).
  - vm_compute; reflexivity.
  - vm_compute; reflexivity.
  - vm_compute; reflexivity.
  - reflexivity.
Defined.

(** ** The handler without a snapshot *)

Lemma fileBlockRegex_absent (path s : string) :
  String_indexOf s (blockHeader path) = None →
  fileBlockRegex (literalPattern path) s = None.
Proof.
  induction s as [|c s IH]; intros Hidx; cbn [String_indexOf] in Hidx.
  - destruct (startsWith "" (blockHeader path)) eqn:Hs; [done|].
    cbn [fileBlockRegex].
    by rewrite fileBlockRegex_at_literal, (strip_prefix_startsWith _ _ Hs).
  - destruct (startsWith (String c s) (blockHeader path)) eqn:Hs; [done|].
    rewrite fileBlockRegex_later.
    + apply IH. by destruct (String_indexOf s (blockHeader path)).
    + by rewrite fileBlockRegex_at_literal, (strip_prefix_startsWith _ _ Hs).
Qed.

(** X17. A finding whose file has no header line in the snapshots gets no
    prompt and costs no request: the handler fails with the message that
    names the file before anything is sent to the endpoint or logged, with
    or without an API key. *)
Theorem no_snapshot_no_request (endpoint : GenerateContentRequest → option string)
    (apiKey masterFilesContent selectedModel : string)
    (improvement : ReviewImprovement) (trace : list Event) :
  plainPath (file improvement) = true →
  String_indexOf masterFilesContent (blockHeader (file improvement)) = None →
  ∃ run,
    handleGenerateCopilotPrompt endpoint apiKey masterFilesContent improvement
      selectedModel = Some run
    ∧ run trace
      = (Thrown (ErrorMessage ("Could not find content for file: "
                                 +:+ file improvement)), trace).
Proof.
  intros Hplain Hidx. unfold handleGenerateCopilotPrompt, codeSnippet.
  rewrite (pathPattern_plain _ Hplain), (fileBlockRegex_absent _ _ Hidx).
  by eexists.
Qed.

Lemma no_snapshot_no_request_witness :
  ∃ run,
    handleGenerateCopilotPrompt (fun _ => Some "unused") "key"
      (fileBlock "src/app" "alpha")
      (mkImprovement 1 "src/main" "Style" "c" None) "m" = Some run
    ∧ run []
      = (Thrown (ErrorMessage "Could not find content for file: src/main"), []).
Proof.
  apply (no_snapshot_no_request (fun _ => Some "unused") "key"
           (fileBlock "src/app" "alpha") "m"
           (mkImprovement 1 "src/main" "Style" "c" None) []).
  - vm_compute; reflexivity.
  - vm_compute; reflexivity.
Defined.

(** ** The groups of [ReviewDisplay] *)

Lemma groupedImprovements_snoc (l : list ReviewImprovement) (x : ReviewImprovement) :
  groupedImprovements (l ++ [x])
  = groupedImprovements l ≫= pushFinding x.
Proof. unfold groupedImprovements. by rewrite fold_left_app. Qed.

Lemma filter_group_nil (l : list ReviewImprovement) (x : ReviewImprovement) :
  existsb namesInheritedGroup l = false →
  inheritedName (groupOf x) = true →
  List.filter (fun item => String.eqb (groupOf item) (groupOf x)) l = [].
Proof.
  intros Hl Hx. induction l as [|y l IH]; [done|].
  cbn [existsb List.filter] in *. apply orb_false_iff in Hl as [Hy Hl].
  destruct (String.eqb_spec (groupOf y) (groupOf x)) as [Heq|_]; [|by apply IH].
  unfold namesInheritedGroup in Hy. congruence.
Qed.

(** The groups of a list of findings, or the exception. *)
Lemma groupedImprovements_cases (improvements : list ReviewImprovement) :
  if existsb namesInheritedGroup improvements
  then groupedImprovements improvements = TypeError
  else ∃ groups,
         groupedImprovements improvements = Normal groups
         ∧ ∀ category,
             groups !! category
             = match List.filter (fun item => String.eqb (groupOf item) category)
                                 improvements with
               | [] => None
               | items => Some items
               end.
Proof.
  induction improvements as [|x l IH] using rev_ind; [by exists ∅|].
  rewrite existsb_app, groupedImprovements_snoc. cbn [existsb]. rewrite orb_false_r.
  destruct (existsb namesInheritedGroup l) eqn:Hl; [by rewrite IH|].
  destruct IH as (groups & -> & Hgroups). cbn [orb mbind Completion_bind].
  pose proof (Hgroups (groupOf x)) as Hx0.
  unfold pushFinding, getProperty.
  destruct (namesInheritedGroup x) eqn:Hx; unfold namesInheritedGroup in Hx.
  - rewrite (filter_group_nil l x Hl Hx) in Hx0.
    rewrite Hx0, Hx; cbv iota; by rewrite ?Hx0, ?Hx.
  - destruct (groups !! groupOf x) as [items|] eqn:Hlook.
    + rewrite Hlook. eexists. split; [done|]. intros category.
      rewrite List.filter_app. cbn [List.filter].
      destruct (String.eqb_spec (groupOf x) category) as [<-|Hne].
      * rewrite lookup_insert_eq.
        destruct (List.filter _ l) as [|y ys]; [done|]. by injection Hx0 as ->.
      * rewrite lookup_insert_ne by done. by rewrite app_nil_r.
    + rewrite Hx, lookup_insert_eq. eexists. split; [done|]. intros category.
      rewrite List.filter_app. cbn [List.filter].
      destruct (String.eqb_spec (groupOf x) category) as [<-|Hne].
      * rewrite lookup_insert_eq. by destruct (List.filter _ l).
      * rewrite !lookup_insert_ne by done. by rewrite app_nil_r.
Qed.

(** X18. [ReviewDisplay] throws when the category of a finding is the name
    of an inherited property.  Otherwise the groups that it shows are a
    partition of the findings by category, the empty category read as
    [General]: the group of a category holds the findings of that
    category, all of them, once each and in the order of the review, and
    there is no empty group. *)
Theorem groups_partition_findings (improvements : list ReviewImprovement) :
  (existsb namesInheritedGroup improvements = true →
   groupedImprovements improvements = TypeError)
  ∧ (existsb namesInheritedGroup improvements = false →
     ∃ groups,
       groupedImprovements improvements = Normal groups
       ∧ ∀ category,
           groups !! category
           = match List.filter (fun item => String.eqb (groupOf item) category)
                               improvements with
             | [] => None
             | items => Some items
             end).
Proof.
  pose proof (groupedImprovements_cases improvements) as H.
  split; intros E; by rewrite E in H.
Qed.

Lemma digits_no_dash (a b : string) :
  all_chars isDigit (a +:+ "-" +:+ b) = false.
Proof.
  induction a as [|c a IH]; [done|].
  change (String c a +:+ "-" +:+ b) with (String c (a +:+ "-" +:+ b)).
  cbn [all_chars]. rewrite IH. apply andb_false_r.
Qed.

Lemma dash_split (c1 c2 d1 d2 : string) :
  all_chars isDigit d1 = true → all_chars isDigit d2 = true →
  c1 +:+ "-" +:+ d1 = c2 +:+ "-" +:+ d2 → c1 = c2 ∧ d1 = d2.
Proof.
  intros H1 H2. revert c2.
  induction c1 as [|a c1 IH]; intros [|b c2] Heq.
  - by injection Heq.
  - injection Heq as _ Hd. subst d1.
    pose proof (digits_no_dash c2 d2) as Hn.
    exfalso. apply diff_false_true. rewrite <- Hn. exact H1.
  - injection Heq as _ Hd. subst d2.
    pose proof (digits_no_dash c1 d1) as Hn.
    exfalso. apply diff_false_true. rewrite <- Hn. exact H2.
  - injection Heq as -> Heq. by destruct (IH _ Heq) as [-> ->].
Qed.

(** X19. The key that [ReviewDisplay] gives to a finding, the category
    followed by [-] and the position in the group, tells the findings
    apart: two places of the display with the same key are the same place,
    so the key held while a prompt is generated marks one finding only. *)
Theorem item_keys_distinct (category1 category2 : string) (index1 index2 : nat) :
  itemKey category1 index1 = itemKey category2 index2 →
  category1 = category2 ∧ index1 = index2.
Proof.
  unfold itemKey. intros Heq.
  destruct (decimalValue_Number_toString (Z.of_nat index1)) as [_ H1]; [lia|].
  destruct (decimalValue_Number_toString (Z.of_nat index2)) as [_ H2]; [lia|].
  apply isNumeral_inv in H1 as [_ H1]. apply isNumeral_inv in H2 as [_ H2].
  destruct (dash_split _ _ _ _ H1 H2 Heq) as [-> Hd].
  split; [done|]. apply Number_toString_inj in Hd. lia.
Qed.

Lemma item_keys_distinct_witness :
  "a-1" = "a-1" ∧ 0%nat = 0%nat.
Proof.
  apply (item_keys_distinct "a-1" "a-1" 0 0). reflexivity.
Defined.

(** ** The prompt in the modal *)

Lemma startsWith_long (u x p : string) :
  (String.length p ≤ String.length u)%nat →
  startsWith (u +:+ x) p = startsWith u p.
Proof.
  revert u. induction p as [|c p IH]; intros u Hlen; [done|].
  destruct u as [|d u]; [simpl in Hlen; lia|].
  change (String d u +:+ x) with (String d (u +:+ x)). cbn [startsWith].
  destruct (Ascii.eqb c d); [|done]. apply IH. simpl in Hlen. lia.
Qed.

Lemma startsWith_tail (u x p : string) :
  startsWith (u +:+ x) p = true →
  (String.length u ≤ String.length p)%nat →
  startsWith x (substring_from (String.length u) p) = true.
Proof.
  revert p. induction u as [|d u IH]; intros p Hs Hlen; [done|].
  destruct p as [|c p]; [simpl in Hlen; lia|].
  change (String d u +:+ x) with (String d (u +:+ x)) in Hs.
  cbn [startsWith] in Hs. destruct (Ascii.eqb c d); [|done].
  change (substring_from (String.length (String d u)) (String c p))
    with (substring_from (String.length u) p).
  apply IH; [done|]. simpl in Hlen. lia.
Qed.

Lemma substring_from_length (k : nat) (s : string) :
  String.length (substring_from k s) = (String.length s - k)%nat.
Proof.
  revert s. induction k as [|k IH]; intros s.
  - change (substring_from 0 s) with s. lia.
  - destruct s as [|c s]; [done|].
    change (substring_from (S k) (String c s)) with (substring_from k s).
    by rewrite IH.
Qed.

(** An occurrence of an unbordered text that begins before another
    occurrence lies before it. *)
Lemma no_straddle (sep u r : string) :
  unbordered sep = true → truthy u = true →
  startsWith u sep = false → startsWith (u +:+ sep +:+ r) sep = false.
Proof.
  intros Hsep Hu Hs.
  destruct (startsWith (u +:+ sep +:+ r) sep) eqn:Hst; [|done].
  destruct (decide (String.length sep ≤ String.length u)%nat) as [Hlen|Hlen].
  { rewrite startsWith_long in Hst by done. congruence. }
  apply startsWith_tail in Hst; [|lia].
  rewrite startsWith_long in Hst by (rewrite substring_from_length; lia).
  unfold unbordered in Hsep. rewrite forallb_forall in Hsep.
  specialize (Hsep (String.length u)).
  rewrite Hst in Hsep. discriminate Hsep.
  apply in_seq. destruct u; [done|]. simpl String.length in *. lia.
Qed.

Lemma indexOf_none_inv (c : ascii) (s sep : string) :
  String_indexOf (String c s) sep = None →
  startsWith (String c s) sep = false ∧ String_indexOf s sep = None.
Proof.
  cbn [String_indexOf]. destruct (startsWith (String c s) sep); [done|].
  by destruct (String_indexOf s sep).
Qed.

Lemma indexOf_none_cons (c : ascii) (s sep : string) :
  startsWith (String c s) sep = false → String_indexOf s sep = None →
  String_indexOf (String c s) sep = None.
Proof. cbn [String_indexOf]. by intros -> ->. Qed.

Lemma indexOf_found (u sep r : string) :
  String_includes (u +:+ sep +:+ r) sep = true.
Proof.
  unfold String_includes. induction u as [|c u IH].
  - change ("" +:+ sep +:+ r) with (sep +:+ r).
    destruct (sep +:+ r) eqn:E; cbn [String_indexOf]; rewrite <- E;
      by rewrite startsWith_app.
  - change (String c u +:+ sep +:+ r) with (String c (u +:+ sep +:+ r)).
    cbn [String_indexOf]. destruct (startsWith _ sep); [done|].
    by destruct (String_indexOf (u +:+ sep +:+ r) sep).
Qed.

Lemma includes_none (s sep : string) :
  String_includes s sep = false → String_indexOf s sep = None.
Proof. unfold String_includes. by destruct (String_indexOf s sep). Qed.

Lemma split_pieces_none (sep s : string) :
  String_indexOf s sep = None → split_pieces sep 0 s = (s, []).
Proof.
  induction s as [|c s IH]; intros Hidx; [done|].
  apply indexOf_none_inv in Hidx as [Hs Hidx].
  cbn [split_pieces]. by rewrite Hs, IH.
Qed.

Lemma split_pieces_skip (sep u s : string) :
  split_pieces sep (String.length u) (u +:+ s) = split_pieces sep 0 s.
Proof.
  induction u as [|c u IH]; [by destruct s|].
  change (String c u +:+ s) with (String c (u +:+ s)). by cbn [split_pieces String.length].
Qed.

Lemma split_pieces_first (sep u r : string) :
  unbordered sep = true → truthy sep = true →
  String_indexOf u sep = None →
  split_pieces sep 0 (u +:+ sep +:+ r)
  = (u, let (piece, pieces) := split_pieces sep 0 r in piece :: pieces).
Proof.
  intros Hsep Hne. induction u as [|c u IH]; intros Hidx.
  - change ("" +:+ sep +:+ r) with (sep +:+ r).
    destruct sep as [|c0 sep']; [done|].
    change (String c0 sep' +:+ r) with (String c0 (sep' +:+ r)).
    cbn [split_pieces].
    change (String c0 (sep' +:+ r)) with (String c0 sep' +:+ r).
    rewrite startsWith_app.
    replace (String.length (String c0 sep') - 1)%nat with (String.length sep')
      by (simpl; lia).
    rewrite split_pieces_skip. by destruct (split_pieces (String c0 sep') 0 r).
  - destruct (indexOf_none_inv _ _ _ Hidx) as [Hs Hidx'].
    change (String c u +:+ sep +:+ r) with (String c (u +:+ sep +:+ r)).
    cbn [split_pieces].
    change (String c (u +:+ sep +:+ r)) with (String c u +:+ sep +:+ r).
    rewrite (no_straddle sep (String c u) r Hsep eq_refl Hs).
    by rewrite (IH Hidx').
Qed.

(** A text with one occurrence of an unbordered separator is split in the
    text before the occurrence and the text behind it. *)
Lemma String_split_once (sep u r : string) :
  unbordered sep = true → truthy sep = true →
  String_indexOf u sep = None → String_indexOf r sep = None →
  String_split (u +:+ sep +:+ r) sep = [u; r].
Proof.
  intros Hsep Hne Hu Hr. unfold String_split.
  by rewrite split_pieces_first, split_pieces_none.
Qed.

Lemma trimStart_suffix_none (s sep : string) :
  String_indexOf s sep = None → String_indexOf (trimStart s) sep = None.
Proof.
  induction s as [|c s IH]; intros Hidx; [done|].
  cbn [trimStart]. destruct (isTrimmed c); [|done].
  apply IH. by apply indexOf_none_inv in Hidx as [_ ?].
Qed.

Lemma trimStart_app_nonblank (a b : string) :
  truthy (trimStart a) = true → trimStart (a +:+ b) = trimStart a +:+ b.
Proof.
  induction a as [|c a IH]; intros Ha; [done|].
  change (String c a +:+ b) with (String c (a +:+ b)).
  cbn [trimStart] in *. destruct (isTrimmed c); [by apply IH|done].
Qed.

Lemma trimStart_app_blank (a b : string) :
  truthy (trimStart a) = false → trimStart (a +:+ b) = trimStart b.
Proof.
  induction a as [|c a IH]; intros Ha; [done|].
  change (String c a +:+ b) with (String c (a +:+ b)).
  cbn [trimStart] in *. destruct (isTrimmed c); [by apply IH|done].
Qed.

Lemma trimStart_idempotent (s : string) : trimStart (trimStart s) = trimStart s.
Proof.
  induction s as [|c s IH]; [done|]. cbn [trimStart].
  destruct (isTrimmed c) eqn:Hc; [done|]. cbn [trimStart]. by rewrite Hc.
Qed.

Lemma trim_trimStart (s : string) : trim (trimStart s) = trim s.
Proof. unfold trim. by rewrite trimStart_idempotent. Qed.

Lemma trimEnd_idempotent (s : string) : trimEnd (trimEnd s) = trimEnd s.
Proof.
  unfold trimEnd. by rewrite reverse_involutive, trimStart_idempotent.
Qed.

Lemma fixTrailer_details (improvement : ReviewImprovement) (codeSnippet : string) :
  fixTrailer improvement codeSnippet
  = ("---" +:+ lf +:+ "**Context for the fix:**") +:+ fixDetails improvement codeSnippet.
Proof.
  unfold fixTrailer, fixDetails. rewrite !join_lines_cons by done.
  simpl join_lines.
  repeat (progress (rewrite ?string_app_assoc; simpl String.append)).
  reflexivity.
Qed.

Lemma testTrailer_details (testSuggestion category : string) :
  testTrailer testSuggestion category
  = ("---" +:+ lf +:+ "**Context for the test:**") +:+ testDetails testSuggestion category.
Proof.
  unfold testTrailer, testDetails. rewrite !join_lines_cons by done.
  simpl join_lines.
  repeat (progress (rewrite ?string_app_assoc; simpl String.append)).
  reflexivity.
Qed.

Lemma fixDetails_solid_end (improvement : ReviewImprovement) (codeSnippet : string) :
  startsSolid (reverse ("---" +:+ fixDetails improvement codeSnippet)) = true.
Proof.
  unfold fixDetails.
  match goal with
  | |- context [join_lines ?l] => change l with (removelast l ++ ["```"])
  end.
  rewrite join_lines_snoc by done. by rewrite !reverse_app.
Qed.

Lemma testDetails_solid_end (testSuggestion category : string) :
  startsSolid (reverse ("---" +:+ testDetails testSuggestion category)) = true.
Proof.
  unfold testDetails.
  match goal with
  | |- context [join_lines ?l] =>
      change l with (removelast l ++ ["**Pull Request Summary:**"])
  end.
  rewrite join_lines_snoc by done. by rewrite !reverse_app.
Qed.

Lemma finalPromptForUser_parts (answer : string) (improvement : ReviewImprovement)
    (codeSnippet : string) :
  truthy (trimStart answer) = true →
  finalPromptForUser answer improvement codeSnippet
  = trimStart answer +:+ separator +:+ fixDetails improvement codeSnippet.
Proof.
  intros Ha. rewrite finalPromptForUser_trimmed, fixTrailer_details.
  rewrite trimStart_app_nonblank by done. unfold separator.
  by rewrite !string_app_assoc.
Qed.

(** X20. The modal shows what [generateCopilotFixPrompt] put together.
    When the answer of the endpoint is not blank and neither the answer nor
    the details of the finding hold the separator, the modal shows the
    answer, trimmed, as the prompt, and as the context the rule followed by
    the details of the finding and the fenced snippet, whole; the heading
    of the context goes with the separator. *)
Theorem modal_shows_fix_prompt (answer codeSnippet : string)
    (improvement : ReviewImprovement) :
  truthy (trimStart answer) = true →
  String_includes answer separator = false →
  String_includes (fixDetails improvement codeSnippet) separator = false →
  mainPrompt_contextBlock (finalPromptForUser answer improvement codeSnippet)
  = (trim answer, "---" +:+ fixDetails improvement codeSnippet).
Proof.
  intros Ha Hanswer Hdetails. rewrite finalPromptForUser_parts by done.
  unfold mainPrompt_contextBlock. rewrite indexOf_found.
  rewrite String_split_once.
  - cbn [length Nat.ltb Nat.leb nth]. rewrite trim_trimStart. f_equal.
    assert (trim (("---" +:+ fixDetails improvement codeSnippet) +:+ "")
            = ("---" +:+ fixDetails improvement codeSnippet) +:+ "") as Ht
      by exact (trim_around_core "" ("---" +:+ fixDetails improvement codeSnippet) ""
                  eq_refl (fixDetails_solid_end _ _)).
    by rewrite !string_app_empty_r in Ht.
  - by vm_compute.
  - done.
  - by apply trimStart_suffix_none, includes_none.
  - by apply includes_none.
Qed.

Lemma modal_shows_fix_prompt_witness :
  let improvement := mkImprovement 3 "src/a.ts" "Style" "near" None in
  mainPrompt_contextBlock (finalPromptForUser (" Fix it. " +:+ lf) improvement "code")
  = ("Fix it.", "---" +:+ fixDetails improvement "code").
Proof.
  intros improvement.
  apply (modal_shows_fix_prompt (" Fix it. " +:+ lf) "code" improvement).
  - reflexivity.
  - vm_compute; reflexivity.
  - vm_compute; reflexivity.
Defined.

Lemma finalTestPromptForUser_parts (answer testSuggestion category contextSummary : string) :
  truthy (trimStart answer) = true →
  finalTestPromptForUser answer testSuggestion category contextSummary
  = trimStart answer +:+ testSeparator
      +:+ testDetails testSuggestion category
      +:+ trimEnd (lf +:+ contextSummary +:+ lf).
Proof.
  intros Ha. rewrite finalTestPromptForUser_trimmed, testTrailer_details.
  rewrite trimStart_app_nonblank by done. unfold testSeparator.
  by rewrite !string_app_assoc.
Qed.

(** X21. The same for a prompt of [generateTestCreationPrompt], which the
    modal reads with the second separator when the first one does not
    occur in the prompt: the answer, trimmed, is the prompt, and the
    context is the rule, the test to create and the summary of the pull
    request without its trailing white space. *)
Theorem modal_shows_test_prompt (answer testSuggestion category contextSummary : string) :
  let prompt :=
    finalTestPromptForUser answer testSuggestion category contextSummary in
  let context :=
    testDetails testSuggestion category +:+ trimEnd (lf +:+ contextSummary +:+ lf) in
  truthy (trimStart answer) = true →
  String_includes prompt separator = false →
  String_includes answer testSeparator = false →
  String_includes context testSeparator = false →
  mainPrompt_contextBlock prompt = (trim answer, "---" +:+ context).
Proof.
  intros prompt context Ha Hfix Hanswer Hcontext.
  unfold mainPrompt_contextBlock. rewrite Hfix. subst prompt.
  rewrite finalTestPromptForUser_parts by done. fold context.
  rewrite String_split_once.
  - cbn [length Nat.ltb Nat.leb nth]. rewrite trim_trimStart. f_equal.
    subst context. rewrite <- string_app_assoc.
    assert (trim (("---" +:+ testDetails testSuggestion category)
                    +:+ trimEnd (lf +:+ contextSummary +:+ lf))
            = ("---" +:+ testDetails testSuggestion category)
                +:+ trimEnd (trimEnd (lf +:+ contextSummary +:+ lf))) as Ht
      by exact (trim_around_core "" ("---" +:+ testDetails testSuggestion category)
                  (trimEnd (lf +:+ contextSummary +:+ lf))
                  eq_refl (testDetails_solid_end _ _)).
    by rewrite trimEnd_idempotent in Ht.
  - by vm_compute.
  - done.
  - by apply trimStart_suffix_none, includes_none.
  - by apply includes_none.
Qed.

Lemma modal_shows_test_prompt_witness :
  mainPrompt_contextBlock
    (finalTestPromptForUser "Write it." "checks x" "Unit Test" ("sum " +:+ lf))
  = ("Write it.",
     "---" +:+ testDetails "checks x" "Unit Test" +:+ trimEnd (lf +:+ ("sum " +:+ lf) +:+ lf)).
Proof.
  apply (modal_shows_test_prompt "Write it." "checks x" "Unit Test" ("sum " +:+ lf)).
  - reflexivity.
  - vm_compute; reflexivity.
  - vm_compute; reflexivity.
  - vm_compute; reflexivity.
Defined.

Lemma heading_without_separator (sep details : string) :
  sep = separator ∨ sep = testSeparator →
  String_indexOf details sep = None →
  String_indexOf (("---" +:+ lf +:+ "**Context for the fix:**") +:+ details) sep = None.
Proof.
  intros Hsep Hidx. cbn [String.append lf].
  destruct Hsep as [-> | ->];
    repeat (apply indexOf_none_cons; [vm_compute; reflexivity|]); exact Hidx.
Qed.

Lemma fixTrailer_solid_end (improvement : ReviewImprovement) (codeSnippet : string) :
  startsSolid (reverse (fixTrailer improvement codeSnippet)) = true.
Proof.
  unfold fixTrailer.
  match goal with
  | |- context [join_lines ?l] => change l with (removelast l ++ ["```"])
  end.
  rewrite join_lines_snoc by done. by rewrite !reverse_app.
Qed.

(** X22. When the endpoint answers a fix-prompt request with white space
    only, the text returned is the context trailer alone, without the blank
    lines before its rule; the separator of the modal does not occur in it
    (unless the details of the finding hold one), and the modal shows the
    whole trailer as the prompt and an empty context. *)
Theorem blank_answer_shows_trailer (answer codeSnippet : string)
    (improvement : ReviewImprovement) :
  truthy (trimStart answer) = false →
  String_includes (fixDetails improvement codeSnippet) separator = false →
  String_includes (fixDetails improvement codeSnippet) testSeparator = false →
  finalPromptForUser answer improvement codeSnippet
  = fixTrailer improvement codeSnippet
  ∧ mainPrompt_contextBlock (finalPromptForUser answer improvement codeSnippet)
    = (fixTrailer improvement codeSnippet, "").
Proof.
  intros Ha Hfix Htest.
  assert (finalPromptForUser answer improvement codeSnippet
          = fixTrailer improvement codeSnippet) as ->.
  { rewrite finalPromptForUser_trimmed. by rewrite trimStart_app_blank. }
  split; [done|].
  assert (∀ sep, sep = separator ∨ sep = testSeparator →
            String_indexOf (fixDetails improvement codeSnippet) sep = None →
            String_indexOf (fixTrailer improvement codeSnippet) sep = None) as Hnone.
  { intros sep Hsep Hidx. rewrite fixTrailer_details.
    by apply heading_without_separator. }
  unfold mainPrompt_contextBlock, String_includes, String_split.
  rewrite (Hnone separator) by (auto using includes_none).
  rewrite split_pieces_none by (apply Hnone; auto using includes_none).
  cbn [length Nat.ltb Nat.leb nth]. f_equal.
  assert (trim (fixTrailer improvement codeSnippet +:+ "")
          = fixTrailer improvement codeSnippet +:+ "") as Ht
    by exact (trim_around_core "" (fixTrailer improvement codeSnippet) ""
                eq_refl (fixTrailer_solid_end _ _)).
  by rewrite !string_app_empty_r in Ht.
Qed.

Lemma blank_answer_shows_trailer_witness :
  let improvement := mkImprovement 3 "src/a.ts" "Style" "near" None in
  finalPromptForUser (" " +:+ lf) improvement "code" = fixTrailer improvement "code"
  ∧ mainPrompt_contextBlock (finalPromptForUser (" " +:+ lf) improvement "code")
    = (fixTrailer improvement "code", "").
Proof.
  intros improvement.
  apply (blank_answer_shows_trailer (" " +:+ lf) "code" improvement).
  - reflexivity.
  - vm_compute; reflexivity.
  - vm_compute; reflexivity.
Defined.
